(** * Progression and reward reconciliation: a shallow embedding

    The development follows the repository file by file:

    - [Ledger]            the tables the code reads and writes
                          (achievements, user_achievements, special_powers,
                          user_powers) with SQL's nullable columns;
    - [PowerLifecycle]    the PL/pgSQL functions [upgrade_user_power] and
                          [confirm_power_upgrade];
    - [AchievementActions] the server actions [checkClickAchievements] and
                          [getActiveUserPowers];
    - [UseAchievements]   the hook helpers [getClickMultiplier] and
                          [arePowersEqual];
    - [ClickerGame]       the click queue of [useClickerGame]:
                          [handleClickUpdate], [processClickQueue],
                          [calculateFibonacciBackoff] and [fetchScores];
    - [Aggregator]        the click queue running against the Ledger's
                          click totals;
    - [Samples]           concrete rows and states used in the examples.

    The properties follow the definitions, grouped by component.

    Integers (ids, click totals, levels, timestamps) are [Z]; JavaScript
    numbers that carry fractions (effect values, delays) are [Q]; nullable
    columns and optional fields are [option]. *)

From stdpp Require Import gmap.
From Stdlib Require Import ZArith QArith Qminmax Qround Qabs List String Bool Lia.
From Stdlib Require Import Sorting.Sorted Sorting.Permutation DecimalString.
Import ListNotations.

Local Open Scope Z_scope.

(* ===================================================================== *)
(** * The Ledger: tables and nullable values *)
(* ===================================================================== *)

Module Ledger.

(** ** SQL three-valued logic on nullable columns *)

Definition sql_ge (a b : option Z) : option bool :=
  match a, b with
  | Some x, Some y => Some (x >=? y)
  | _, _ => None
  end.

Definition sql_add (a b : option Z) : option Z :=
  match a, b with
  | Some x, Some y => Some (x + y)
  | _, _ => None
  end.

Definition sql_mul (a b : option Z) : option Z :=
  match a, b with
  | Some x, Some y => Some (x * y)
  | _, _ => None
  end.

(** Kleene conjunction: FALSE wins over NULL. *)
Definition sql_and (a b : option bool) : option bool :=
  match a, b with
  | Some false, _ | _, Some false => Some false
  | Some true, Some true => Some true
  | _, _ => None
  end.

(** [IF c THEN ...] and [WHEN c THEN ...] fire only when [c] is TRUE. *)
Definition holds (c : option bool) : bool :=
  match c with
  | Some true => true
  | _ => false
  end.

(** ** Rows *)

Inductive AchievementType := clicks | rank | click_speed.
Inductive RewardType := reward_none | reward_multiplier | reward_auto_click | reward_power.
Inductive PowerEffectType := multiplier | auto_click | permanent.

Definition AchievementType_eqb (a b : AchievementType) : bool :=
  match a, b with
  | clicks, clicks | rank, rank | click_speed, click_speed => true
  | _, _ => false
  end.

Definition RewardType_eqb (a b : RewardType) : bool :=
  match a, b with
  | reward_none, reward_none | reward_multiplier, reward_multiplier
  | reward_auto_click, reward_auto_click | reward_power, reward_power => true
  | _, _ => false
  end.

Definition PowerEffectType_eqb (a b : PowerEffectType) : bool :=
  match a, b with
  | multiplier, multiplier | auto_click, auto_click | permanent, permanent => true
  | _, _ => false
  end.

Record Achievement := {
  a_id : Z;
  a_threshold : Z;
  a_type : AchievementType;
  a_reward_type : RewardType;
  a_reward_value : option Q
}.

(** A row of [user_achievements]. *)
Record UserAchievementRow := {
  ua_id : Z;
  ua_user_id : string;
  ua_achievement_id : Z;
  ua_unlocked_at : Z;
  ua_notified : bool
}.

Record SpecialPower := {
  sp_id : Z;
  sp_effect_type : PowerEffectType;
  sp_effect_value : Q;
  sp_duration : option Z;               (* seconds; NULL = permanent *)
  sp_max_level : option Z;
  sp_requires_confirmation : option bool
}.

(** A row of [user_powers]. Timestamps are milliseconds since the epoch. *)
Record UserPowerRow := {
  up_id : Z;
  up_user_id : string;
  up_power_id : Z;
  up_acquired_at : Z;
  up_expires_at : option Z;
  up_is_active : bool;
  up_uses_left : option Z;
  up_level : option Z;
  up_upgrade_confirmed : option bool
}.

Record db := {
  achievements : list Achievement;
  user_achievements : list UserAchievementRow;
  special_powers : list SpecialPower;
  user_powers : list UserPowerRow
}.

Definition with_user_powers (d : db) (ups : list UserPowerRow) : db :=
  {| achievements := achievements d;
     user_achievements := user_achievements d;
     special_powers := special_powers d;
     user_powers := ups |}.

Definition with_user_achievements (d : db) (uas : list UserAchievementRow) : db :=
  {| achievements := achievements d;
     user_achievements := uas;
     special_powers := special_powers d;
     user_powers := user_powers d |}.

(** [WHERE user_id = p_user_id AND power_id = p_power_id] *)
Definition held_by (u : string) (p : Z) (r : UserPowerRow) : bool :=
  String.eqb (up_user_id r) u && (up_power_id r =? p).

(** [special_powers.id] is the primary key of the template table. *)
Definition power_template (d : db) (p : Z) : option SpecialPower :=
  List.find (fun s => sp_id s =? p) (special_powers d).

End Ledger.

(* ===================================================================== *)
(** * Power lifecycle: the PL/pgSQL functions *)
(* ===================================================================== *)

Module PowerLifecycle.
Import Ledger.

(** [UPDATE user_powers SET ... WHERE user_id = .. AND power_id = ..]:
    every matching row is rewritten; the right-hand sides of [SET] read
    the row as it was before the update. *)
Definition update_where (u : string) (p : Z) (f : UserPowerRow -> UserPowerRow)
    (d : db) : db :=
  with_user_powers d
    (List.map (fun r => if held_by u p r then f r else r) (user_powers d)).

(** The [SET] clause of [upgrade_user_power]. [level] on the right-hand
    side is the row's level before the update. *)
Definition upgraded (now : Z) (power_max_level power_duration : option Z)
    (r : UserPowerRow) : UserPowerRow :=
  {| up_id := up_id r;
     up_user_id := up_user_id r;
     up_power_id := up_power_id r;
     up_acquired_at := up_acquired_at r;
     up_expires_at :=
       if holds (sql_ge (sql_add (up_level r) (Some 1)) power_max_level) then None
       else match power_duration with
            | Some _ =>
                (* NOW() + (power_duration * level * INTERVAL '1 second') *)
                sql_add (Some now)
                  (sql_mul (sql_mul power_duration (up_level r)) (Some 1000))
            | None => None
            end;
     up_is_active := up_is_active r;
     up_uses_left := up_uses_left r;
     up_level := sql_add (up_level r) (Some 1);
     up_upgrade_confirmed := Some false |}.

Definition upgrade_user_power (now : Z) (d : db) (p_user_id : string)
    (p_power_id : Z) : db * bool :=
  let power_exists := List.existsb (held_by p_user_id p_power_id) (user_powers d) in
  if negb power_exists then (d, false) else
  (* SELECT ... INTO ... FROM user_powers up JOIN special_powers sp *)
  let joined :=
    match List.find (held_by p_user_id p_power_id) (user_powers d),
          power_template d p_power_id with
    | Some up, Some sp => Some (up, sp)
    | _, _ => None
    end in
  let power_level := match joined with Some (up, _) => up_level up | None => None end in
  let power_max_level := match joined with Some (_, sp) => sp_max_level sp | None => None end in
  let power_duration := match joined with Some (_, sp) => sp_duration sp | None => None end in
  let requires_confirmation :=
    match joined with Some (_, sp) => sp_requires_confirmation sp | None => None end in
  if holds (sql_ge power_level power_max_level) then (d, false) else
  let confirmed :=
    List.existsb (fun r => held_by p_user_id p_power_id r
                           && holds (up_upgrade_confirmed r))
                 (user_powers d) in
  if holds (sql_and requires_confirmation (Some (negb confirmed))) then (d, false) else
  (update_where p_user_id p_power_id (upgraded now power_max_level power_duration) d,
   true).

(** PostgreSQL's [INTEGER] has 32 bits and its arithmetic does not wrap:
    a result outside the range raises "integer out of range" and the
    function call is rolled back. *)
Definition int4 (z : Z) : bool := (-2147483648 <=? z) && (z <=? 2147483647).

(** The integer arithmetic of the [SET] clause stays in range on a row:
    [level + 1] and, when the [CASE] gets to its second branch,
    [power_duration * level]. On such rows [upgraded] is what the
    [UPDATE] writes; on the others the statement raises. *)
Definition upgrade_in_range (power_max_level power_duration : option Z)
    (r : UserPowerRow) : bool :=
  match up_level r with
  | Some level =>
      int4 (level + 1)
      && (if holds (sql_ge (sql_add (up_level r) (Some 1)) power_max_level) then true
          else match power_duration with
               | Some duration => int4 (duration * level)
               | None => true
               end)
  | None => true
  end.

Definition confirmed_row (r : UserPowerRow) : UserPowerRow :=
  {| up_id := up_id r;
     up_user_id := up_user_id r;
     up_power_id := up_power_id r;
     up_acquired_at := up_acquired_at r;
     up_expires_at := up_expires_at r;
     up_is_active := up_is_active r;
     up_uses_left := up_uses_left r;
     up_level := up_level r;
     up_upgrade_confirmed := Some true |}.

Definition confirm_power_upgrade (d : db) (p_user_id : string)
    (p_power_id : Z) : db * bool :=
  let power_exists := List.existsb (held_by p_user_id p_power_id) (user_powers d) in
  if negb power_exists then (d, false)
  else (update_where p_user_id p_power_id confirmed_row d, true).

End PowerLifecycle.

(* ===================================================================== *)
(** * Server actions: achievement-actions.ts *)
(* ===================================================================== *)

Module AchievementActions.
Import Ledger.

(** The objects the queries return: a row together with its joined
    template ([achievement:achievement_id] and [power:power_id]). *)
Record UserAchievement := {
  ua_row : UserAchievementRow;
  achievement : option Achievement
}.

Record UserPower := {
  row : UserPowerRow;
  power : option SpecialPower
}.

(** ** Queries *)

(** [.order('threshold', { ascending: true })] *)
Fixpoint insert_by_threshold (a : Achievement) (l : list Achievement)
    : list Achievement :=
  match l with
  | [] => [a]
  | b :: l' =>
      if a_threshold a <=? a_threshold b then a :: l
      else b :: insert_by_threshold a l'
  end.

Definition order_by_threshold (l : list Achievement) : list Achievement :=
  List.fold_right insert_by_threshold [] l.

(** [.eq('type', ty).lte('threshold', n)] *)
Definition reached (ty : AchievementType) (n : Z) (a : Achievement) : bool :=
  AchievementType_eqb (a_type a) ty && (a_threshold a <=? n).

Definition join_achievement (d : db) (r : UserAchievementRow) : UserAchievement :=
  {| ua_row := r;
     achievement := List.find (fun a => a_id a =? ua_achievement_id r) (achievements d) |}.

Definition join_power (d : db) (r : UserPowerRow) : UserPower :=
  {| row := r; power := power_template d (up_power_id r) |}.

(** Serial primary keys: the next id is one more than the largest in use. *)
Definition next_id (ids : list Z) : Z := 1 + List.fold_right Z.max 0 ids.

(** [.or(`expires_at.gt.${now},expires_at.is.null`)] *)
Definition not_expired (now : Z) (r : UserPowerRow) : bool :=
  match up_expires_at r with
  | Some e => now <? e
  | None => true
  end.

Section Schema.
(** Column defaults of [user_powers] for inserts that leave [level] and
    [upgrade_confirmed] out; the table definition is not part of the
    sources, so they are parameters. *)
Variable default_level : option Z.
Variable default_upgrade_confirmed : option bool.

(** Which of the store calls of [checkClickAchievements] (and of
    [grantSpecialPowersFromAchievements] under it) come back with an
    error. *)
Record CheckFaults := {
  achievementsError : bool;
  existingError : bool;
  insertError : bool;
  powersError : bool;
  powerInsertError : bool
}.

Definition no_check_faults : CheckFaults :=
  {| achievementsError := false; existingError := false;
     insertError := false; powersError := false;
     powerInsertError := false |}.

(** [.insert(newUserAchievements)] of rows
    [{ user_id, achievement_id, notified: false }]. *)
Fixpoint insert_user_achievements (now : Z) (userId : string)
    (fresh : Z) (toUnlock : list Achievement) : list UserAchievementRow :=
  match toUnlock with
  | [] => []
  | a :: rest =>
      {| ua_id := fresh; ua_user_id := userId; ua_achievement_id := a_id a;
         ua_unlocked_at := now; ua_notified := false |}
      :: insert_user_achievements now userId (fresh + 1) rest
  end.

Fixpoint insert_user_powers (now : Z) (userId : string) (fresh : Z)
    (powers : list SpecialPower) : list UserPowerRow :=
  match powers with
  | [] => []
  | p :: rest =>
      {| up_id := fresh; up_user_id := userId; up_power_id := sp_id p;
         up_acquired_at := now;
         up_expires_at :=
           match sp_duration p with
           | Some dur => if dur =? 0 then None else Some (now + dur * 1000)
           | None => None
           end;
         up_is_active := true;
         up_uses_left := None;
         up_level := default_level;
         up_upgrade_confirmed := default_upgrade_confirmed |}
      :: insert_user_powers now userId (fresh + 1) rest
  end.

Definition grants_power (ua : UserAchievement) : bool :=
  match achievement ua with
  | Some a => RewardType_eqb (a_reward_type a) reward_power
              && match a_reward_value a with Some _ => true | None => false end
  | None => false
  end.

(** [achievementsWithPowers.map(ua => ua.achievement?.reward_value).filter(Boolean)] *)
Definition reward_power_ids (l : list UserAchievement) : list Q :=
  List.flat_map
    (fun ua => match achievement ua with
               | Some a => match a_reward_value a with
                           | Some v => if Qeq_bool v 0 then [] else [v]
                           | None => []
                           end
               | None => []
               end) l.

Definition grantSpecialPowersFromAchievements (f : CheckFaults) (now : Z)
    (d : db) (userId : string) (achs : list UserAchievement) : db :=
  let achievementsWithPowers := List.filter grants_power achs in
  match achievementsWithPowers with
  | [] => d
  | _ =>
      let powerIds := reward_power_ids achievementsWithPowers in
      if powersError f then d else
      let powers :=
        List.filter
          (fun p => List.existsb (fun v => Qeq_bool (inject_Z (sp_id p)) v) powerIds)
          (special_powers d) in
      match powers with
      | [] => d
      | _ =>
          if powerInsertError f then d else
          with_user_powers d
            (user_powers d ++
             insert_user_powers now userId
               (next_id (List.map up_id (user_powers d))) powers)
      end
  end.

Definition checkClickAchievements (f : CheckFaults) (now : Z) (d : db)
    (userId : string) (clickCount : Z) : db * list UserAchievement :=
  if achievementsError f then (d, []) else
  let achievements :=
    order_by_threshold (List.filter (reached clicks clickCount) (achievements d)) in
  match achievements with
  | [] => (d, [])
  | _ =>
      if existingError f then (d, []) else
      let existingIds :=
        List.map ua_achievement_id
          (List.filter (fun r => String.eqb (ua_user_id r) userId)
                       (user_achievements d)) in
      let achievementsToUnlock :=
        List.filter (fun a => negb (List.existsb (Z.eqb (a_id a)) existingIds))
                    achievements in
      match achievementsToUnlock with
      | [] => (d, [])
      | _ =>
          if insertError f then (d, []) else
          let newRows :=
            insert_user_achievements now userId
              (next_id (List.map ua_id (user_achievements d)))
              achievementsToUnlock in
          let d1 := with_user_achievements d (user_achievements d ++ newRows) in
          let insertedAchievements := List.map (join_achievement d1) newRows in
          (grantSpecialPowersFromAchievements f now d1 userId insertedAchievements,
           insertedAchievements)
      end
  end.

End Schema.

(** The two lists [checkClickAchievements] computes on the way:
    [existingIds] and [achievementsToUnlock]. *)
Definition existing_ids (d : db) (u : string) : list Z :=
  List.map ua_achievement_id
    (List.filter (fun r => String.eqb (ua_user_id r) u) (user_achievements d)).

Definition to_unlock (d : db) (u : string) (clickCount : Z) : list Achievement :=
  List.filter (fun a => negb (List.existsb (Z.eqb (a_id a)) (existing_ids d u)))
    (order_by_threshold (List.filter (reached clicks clickCount) (achievements d))).

(** The achievement ids of the grants an evaluation returns. *)
Definition granted_ids (res : db * list UserAchievement) : list Z :=
  List.map (fun g => ua_achievement_id (ua_row g)) (snd res).

(** ** getActiveUserPowers *)

Record FetchFaults := {
  error : bool;
  nonExpiredError : bool;
  updateFails : Z -> bool;       (* per row id: the update came back with an error *)
  updatedError : bool
}.

Definition no_fetch_faults : FetchFaults :=
  {| error := false; nonExpiredError := false;
     updateFails := fun _ => false; updatedError := false |}.

(** [{ ...p, level: p.level ?? 1, upgrade_confirmed: p.upgrade_confirmed ?? false }] *)
Definition with_defaults (p : UserPower) : UserPower :=
  let r := row p in
  {| row :=
       {| up_id := up_id r; up_user_id := up_user_id r;
          up_power_id := up_power_id r; up_acquired_at := up_acquired_at r;
          up_expires_at := up_expires_at r; up_is_active := up_is_active r;
          up_uses_left := up_uses_left r;
          up_level := Some (match up_level r with Some l => l | None => 1 end);
          up_upgrade_confirmed :=
            Some (match up_upgrade_confirmed r with Some c => c | None => false end) |};
     power := power p |}.

(** [.eq('user_id', userId).eq('is_active', flag).or(expires_at > now or null)] *)
Definition selected (now : Z) (userId : string) (flag : bool) (r : UserPowerRow) : bool :=
  String.eqb (up_user_id r) userId
  && Bool.eqb (up_is_active r) flag
  && not_expired now r.

Definition select_powers (now : Z) (d : db) (userId : string) (flag : bool)
    : list UserPower :=
  List.map (join_power d) (List.filter (selected now userId flag) (user_powers d)).

(** The columns the repair writes,
    [{ is_active: true, level: power.level ?? 1,
       upgrade_confirmed: power.upgrade_confirmed ?? false }],
    with [power] the row as it was selected. *)
Definition activate_with (src r : UserPowerRow) : UserPowerRow :=
  {| up_id := up_id r; up_user_id := up_user_id r;
     up_power_id := up_power_id r; up_acquired_at := up_acquired_at r;
     up_expires_at := up_expires_at r;
     up_is_active := true;
     up_uses_left := up_uses_left r;
     up_level := Some (match up_level src with Some l => l | None => 1 end);
     up_upgrade_confirmed :=
       Some (match up_upgrade_confirmed src with Some c => c | None => false end) |}.

(** [.update({...}).eq('id', power.id).eq('user_id', userId)] *)
Definition activate_row (p : UserPower) (userId : string) (r : UserPowerRow)
    : UserPowerRow :=
  if (up_id r =? up_id (row p)) && String.eqb (up_user_id r) userId
  then activate_with (row p) r
  else r.

(** A row after the repair that was selected from it. *)
Definition revived (r : UserPowerRow) : UserPowerRow := activate_with r r.

Definition apply_update (f : FetchFaults) (userId : string)
    (rows : list UserPowerRow) (p : UserPower) : list UserPowerRow :=
  if updateFails f (up_id (row p)) then rows
  else List.map (activate_row p userId) rows.

Definition getActiveUserPowers (f : FetchFaults) (now : Z) (d : db)
    (userId : string) : db * list UserPower :=
  if error f then (d, []) else
  let data := select_powers now d userId true in
  match data with
  | [] =>
      if nonExpiredError f then (d, []) else
      let nonExpiredPowers := select_powers now d userId false in
      match nonExpiredPowers with
      | [] => (d, List.map with_defaults data)
      | _ =>
          let d' :=
            with_user_powers d
              (List.fold_left (apply_update f userId) nonExpiredPowers (user_powers d)) in
          if updatedError f then (d', List.map with_defaults nonExpiredPowers)
          else (d', List.map with_defaults (select_powers now d' userId true))
      end
  | _ => (d, List.map with_defaults data)
  end.

End AchievementActions.

(* ===================================================================== *)
(** * The achievements hook: use-achievements and the powers panel *)
(* ===================================================================== *)

Module UseAchievements.
Import Ledger AchievementActions.

(** [x || 1] on a JavaScript number. *)
Definition or_one (x : Q) : Q := if Qeq_bool x 0 then 1%Q else x.

Definition is_multiplier (up : UserPower) : bool :=
  match power up with
  | Some p => PowerEffectType_eqb (sp_effect_type p) multiplier
  | None => false
  end.

(** [up.power?.effect_value || 1] *)
Definition effect_value_or_one (up : UserPower) : Q :=
  match power up with
  | Some p => or_one (sp_effect_value p)
  | None => 1%Q
  end.

Definition getClickMultiplier (activePowers : list UserPower) : Q :=
  let multiplierPowers :=
    List.map effect_value_or_one (List.filter is_multiplier activePowers) in
  match multiplierPowers with
  | [] => 1%Q
  | _ => List.fold_left (fun total multiplier => (total * multiplier)%Q)
                        multiplierPowers 1%Q
  end.

(** The effect shown on a power card of the powers panel:
    [(powerData?.effect_value || 1) * (userPower.level || 1)], where a
    missing [power] falls back to a template with [effect_value: 1]. *)
Definition displayedEffect (up : UserPower) : Q :=
  (effect_value_or_one up
   * inject_Z (match up_level (row up) with
               | Some l => if l =? 0 then 1 else l
               | None => 1
               end))%Q.

(** [new Map(powers1.map(p => [p.id, p]))]: later entries replace earlier
    ones with the same key. *)
Definition powerMap (powers1 : list UserPower) : gmap Z UserPower :=
  List.fold_left (fun m p => <[up_id (row p) := p]> m) powers1 ∅.

Definition option_bool_eqb (a b : option bool) : bool :=
  match a, b with
  | Some x, Some y => Bool.eqb x y
  | None, None => true
  | _, _ => false
  end.

(** [p.level ?? 1] *)
Definition level_or_one (p : UserPower) : Z :=
  match up_level (row p) with Some l => l | None => 1 end.

(** The body of the [every] callback once [p1] has been found. *)
Definition same_power (p1 p2 : UserPower) : bool :=
  if negb (Bool.eqb (up_is_active (row p1)) (up_is_active (row p2)))
     || negb (up_power_id (row p1) =? up_power_id (row p2))
     || negb (option_bool_eqb (up_upgrade_confirmed (row p1))
                              (up_upgrade_confirmed (row p2)))
  then false
  else level_or_one p1 =? level_or_one p2.

(** The arrays are typed and never null at the call sites, so the
    [!powers1 || !powers2] guard is not represented. *)
Definition arePowersEqual (powers1 powers2 : list UserPower) : bool :=
  if negb (Nat.eqb (List.length powers1) (List.length powers2)) then false else
  let m := powerMap powers1 in
  List.forallb
    (fun p2 => match m !! up_id (row p2) with
               | None => false
               | Some p1 => same_power p1 p2
               end)
    powers2.

(** The key of a power in [powerMap]: [p.id]. *)
Definition key_of (p : UserPower) : Z := up_id (row p).

(** The fields of a power that [arePowersEqual] reads: the row id (the
    map key), [power_id], [is_active], [upgrade_confirmed] and
    [level ?? 1]. *)
Definition compared (p : UserPower) : Z * Z * bool * option bool * Z :=
  (up_id (row p), up_power_id (row p), up_is_active (row p),
   up_upgrade_confirmed (row p), level_or_one p).

End UseAchievements.

(* ===================================================================== *)
(** * The click queue: use-clicker-game *)
(* ===================================================================== *)

Module ClickerGame.

(** What [await updateClickAction(...)] yields. *)
Record ActionResult := {
  success : bool;
  newCount : option Z;
  error : option string
}.

Inductive Settled (A : Type) :=
| Fulfilled (a : A)
| Rejected.                       (* the awaited promise throws *)
Arguments Fulfilled {A} a.
Arguments Rejected {A}.

(** Where [processClickQueue] is suspended, with the variables its
    closure holds: [user.id], [clicksToProcess] and [newTotal]. *)
Inductive Continuation :=
| Idle
| AwaitingUpdate (uid : string) (clicksToProcess newTotal : Z)
| AwaitingRefresh (uid : string) (clicksToProcess newTotal : Z)
| AwaitingRetry (uid : string) (clicksToProcess newTotal : Z).

Record Game := {
  user : option string;                 (* user?.id *)
  clickCount : Z;
  pendingClicks : Z;                    (* clickQueueRef.current *)
  isProcessing : bool;
  lastProcessedTimestamp : Z;
  serverConfirmedClicks : Z;            (* serverConfirmedClicksRef.current *)
  suspended : Continuation;
  requests : list (string * string * Z);  (* updateClickAction calls, oldest first *)
  refreshes : nat;                      (* supabase.auth.refreshSession calls *)
  toasts : list string;                 (* toast.error messages, oldest first *)
  timers : list Q                       (* setTimeout(processClickQueue, delay), oldest first *)
}.

Definition initial (u : option string) : Game :=
  {| user := u; clickCount := 0; pendingClicks := 0; isProcessing := false;
     lastProcessedTimestamp := 0; serverConfirmedClicks := 0;
     suspended := Idle; requests := []; refreshes := 0%nat; toasts := [];
     timers := [] |}.

Definition calculateFibonacciBackoff (lastDelay : Q) : Q :=
  let a := if Qeq_bool lastDelay 0 then 100%Q else (lastDelay * (3 # 2))%Q in
  let b := lastDelay in
  let nextDelay := (a + b)%Q in
  Qmin nextDelay 5000%Q.

(** [s.includes(needle)] *)
Definition includes (needle s : string) : bool :=
  match String.index 0 needle s with
  | Some _ => true
  | None => false
  end.

(** [result.error?.includes('Authentication')] *)
Definition is_auth_issue (r : ActionResult) : bool :=
  match error r with
  | Some e => includes "Authentication"%string e
  | None => false
  end.

(** [x || fallback] on an optional number. *)
Definition or_else (x : option Z) (fallback : Z) : Z :=
  match x with
  | Some v => if v =? 0 then fallback else v
  | None => fallback
  end.

Definition toast_error (msg : string) (g : Game) : Game :=
  {| user := user g; clickCount := clickCount g; pendingClicks := pendingClicks g;
     isProcessing := isProcessing g;
     lastProcessedTimestamp := lastProcessedTimestamp g;
     serverConfirmedClicks := serverConfirmedClicks g;
     suspended := suspended g; requests := requests g; refreshes := refreshes g;
     toasts := toasts g ++ [msg]; timers := timers g |}.

Definition suspend (k : Continuation) (g : Game) : Game :=
  {| user := user g; clickCount := clickCount g; pendingClicks := pendingClicks g;
     isProcessing := isProcessing g;
     lastProcessedTimestamp := lastProcessedTimestamp g;
     serverConfirmedClicks := serverConfirmedClicks g;
     suspended := k; requests := requests g; refreshes := refreshes g;
     toasts := toasts g; timers := timers g |}.

(** [updateClickAction(user.id, user.id, newTotal)] is issued. *)
Definition send_update (uid : string) (newTotal : Z) (g : Game) : Game :=
  {| user := user g; clickCount := clickCount g; pendingClicks := pendingClicks g;
     isProcessing := isProcessing g;
     lastProcessedTimestamp := lastProcessedTimestamp g;
     serverConfirmedClicks := serverConfirmedClicks g;
     suspended := suspended g;
     requests := requests g ++ [(uid, uid, newTotal)];
     refreshes := refreshes g; toasts := toasts g; timers := timers g |}.

Definition send_refresh (g : Game) : Game :=
  {| user := user g; clickCount := clickCount g; pendingClicks := pendingClicks g;
     isProcessing := isProcessing g;
     lastProcessedTimestamp := lastProcessedTimestamp g;
     serverConfirmedClicks := serverConfirmedClicks g;
     suspended := suspended g; requests := requests g;
     refreshes := S (refreshes g); toasts := toasts g; timers := timers g |}.

(** The success branch:
    [serverConfirmedClicksRef.current = result.newCount || newTotal;
     queue.pendingClicks -= clicksToProcess;
     queue.lastProcessedTimestamp = Date.now()]. *)
Definition commit (r : ActionResult) (clicksToProcess newTotal now : Z)
    (g : Game) : Game :=
  {| user := user g; clickCount := clickCount g;
     pendingClicks := pendingClicks g - clicksToProcess;
     isProcessing := isProcessing g;
     lastProcessedTimestamp := now;
     serverConfirmedClicks := or_else (newCount r) newTotal;
     suspended := suspended g; requests := requests g; refreshes := refreshes g;
     toasts := toasts g; timers := timers g |}.

(** The [finally] block: unlock, and schedule the next batch when clicks
    are still pending. *)
Definition finally (now : Z) (g : Game) : Game :=
  {| user := user g; clickCount := clickCount g; pendingClicks := pendingClicks g;
     isProcessing := false;
     lastProcessedTimestamp := lastProcessedTimestamp g;
     serverConfirmedClicks := serverConfirmedClicks g;
     suspended := Idle; requests := requests g; refreshes := refreshes g;
     toasts := toasts g;
     timers :=
       if pendingClicks g >? 0 then
         let timeSinceLastProcess := now - lastProcessedTimestamp g in
         timers g ++ [calculateFibonacciBackoff (inject_Z timeSinceLastProcess)]
       else timers g |}.

(** [processClickQueue] up to its first [await]. *)
Definition processClickQueue (g : Game) : Game :=
  match user g with
  | None => g
  | Some uid =>
      if isProcessing g || (pendingClicks g =? 0) then g else
      let clicksToProcess := pendingClicks g in
      let newTotal := serverConfirmedClicks g + clicksToProcess in
      let locked :=
        {| user := user g; clickCount := clickCount g;
           pendingClicks := pendingClicks g;
           isProcessing := true;
           lastProcessedTimestamp := lastProcessedTimestamp g;
           serverConfirmedClicks := serverConfirmedClicks g;
           suspended := suspended g; requests := requests g;
           refreshes := refreshes g; toasts := toasts g; timers := timers g |} in
      suspend (AwaitingUpdate uid clicksToProcess newTotal)
              (send_update uid newTotal locked)
  end.

(** What the pending [await] settles with. *)
Inductive Completion :=
| UpdateSettled (r : Settled ActionResult)
| RefreshSettled (r : Settled bool).     (* [true]: [{ error }] is set *)

(** [processClickQueue] from the pending [await] to the next one, or to
    the end of [finally]. [at_commit] and [at_finally] are the two
    readings of [Date.now()]. *)
Definition resume (c : Completion) (at_commit at_finally : Z) (g : Game) : Game :=
  match suspended g, c with
  | AwaitingUpdate uid k n, UpdateSettled (Fulfilled result) =>
      if success result then finally at_finally (commit result k n at_commit g)
      else if is_auth_issue result
           then suspend (AwaitingRefresh uid k n) (send_refresh g)
           else finally at_finally (toast_error "Failed to update score" g)
  | AwaitingRefresh uid k n, RefreshSettled (Fulfilled err) =>
      if negb err then suspend (AwaitingRetry uid k n) (send_update uid n g)
      else finally at_finally (toast_error "Session refresh failed" g)
  | AwaitingRetry uid k n, UpdateSettled (Fulfilled retryResult) =>
      if success retryResult
      then finally at_finally (commit retryResult k n at_commit g)
      else finally at_finally (toast_error "Update failed after refresh" g)
  | AwaitingUpdate _ _ _, UpdateSettled Rejected
  | AwaitingRetry _ _ _, UpdateSettled Rejected
  | AwaitingRefresh _ _ _, RefreshSettled Rejected => finally at_finally g
  | _, _ => g
  end.

(** [Math.max(1, Math.floor(multiplier))] *)
Definition click_value (multiplier : Q) : Z := Z.max 1 (Qfloor multiplier).

(** [handleClickUpdate], with the value of [getClickMultiplier()]. *)
Definition handleClickUpdate (multiplier : Q) (g : Game) : Game :=
  match user g with
  | None => toast_error "Please log in to save your clicks" g
  | Some _ =>
      let clickValue := click_value multiplier in
      let queued :=
        {| user := user g; clickCount := clickCount g + clickValue;
           pendingClicks := pendingClicks g + clickValue;
           isProcessing := isProcessing g;
           lastProcessedTimestamp := lastProcessedTimestamp g;
           serverConfirmedClicks := serverConfirmedClicks g;
           suspended := suspended g; requests := requests g;
           refreshes := refreshes g; toasts := toasts g; timers := timers g |} in
      if negb (isProcessing queued) then processClickQueue queued else queued
  end.

(** Several clicks in a row, each with the multiplier in force. *)
Definition enqueue_all (multipliers : list Q) (g : Game) : Game :=
  List.fold_left (fun h m => handleClickUpdate m h) multipliers g.

Definition total_value (multipliers : list Q) : Z :=
  List.fold_right (fun m acc => click_value m + acc) 0 multipliers.

(** A row of the [clicks] table as [fetchScores] selects it: [id, qty]. *)
Record ClickRow := { click_id : string; qty : option Z }.

Definition set_confirmed (confirmed shown : Z) (g : Game) : Game :=
  {| user := user g; clickCount := shown; pendingClicks := pendingClicks g;
     isProcessing := isProcessing g;
     lastProcessedTimestamp := lastProcessedTimestamp g;
     serverConfirmedClicks := confirmed;
     suspended := suspended g; requests := requests g; refreshes := refreshes g;
     toasts := toasts g; timers := timers g |}.

(** The part of [fetchScores] that touches the click totals, once the
    [clicks] rows have arrived. *)
Definition fetchScores (clicks : list ClickRow) (g : Game) : Game :=
  let userClicks :=
    match user g with
    | Some uid => List.find (fun click => String.eqb (click_id click) uid) clicks
    | None => None
    end in
  match userClicks with
  | Some found =>
      let confirmed := or_else (qty found) 0 in
      set_confirmed confirmed (confirmed + pendingClicks g) g
  | None =>
      match user g with
      | Some _ => set_confirmed 0 (pendingClicks g) g
      | None => g
      end
  end.

End ClickerGame.

(* ===================================================================== *)
(** * The click queue against the Ledger's totals *)
(* ===================================================================== *)

Module Aggregator.
Import ClickerGame.

Definition owned_by (u : string) (r : ClickRow) : bool := String.eqb (click_id r) u.

(** Modelled from the spec: the Ledger operation [getTotal(userId)], the
    stored click total of a user (0 while the user has no row). The
    server action [updateClickAction] and the writes to the [clicks]
    table are not among the sources. *)
Definition getTotal (clicks : list ClickRow) (u : string) : Z :=
  match List.find (owned_by u) clicks with
  | Some r => or_else (qty r) 0
  | None => 0
  end.

(** Modelled from the spec: the write behind [setTotal], one row per
    user: the user's row is overwritten, or added when there is none. *)
Definition upsert (u : string) (n : Z) (clicks : list ClickRow) : list ClickRow :=
  if List.existsb (owned_by u) clicks
  then List.map (fun r => if owned_by u r
                          then {| click_id := click_id r; qty := Some n |}
                          else r) clicks
  else clicks ++ [{| click_id := u; qty := Some n |}].

(** Modelled from the spec: the Ledger operation
    [setTotal(userId, newTotal)] "atomic, idempotent on same value,
    rejects decreases"; it answers with the confirmed total, or with
    nothing when the write is rejected. *)
Definition setTotal (clicks : list ClickRow) (u : string) (newTotal : Z)
    : list ClickRow * option Z :=
  if newTotal <? getTotal clicks u then (clicks, None)
  else (upsert u newTotal clicks, Some newTotal).

(** Modelled from the spec: [updateClickAction] as the flush's
    authoritative update request, a [setTotal] whose rejection is
    reported as a validation failure. *)
Definition updateClickAction (clicks : list ClickRow) (u : string) (newTotal : Z)
    : list ClickRow * ActionResult :=
  match setTotal clicks u newTotal with
  | (clicks', Some confirmedTotal) =>
      (clicks', {| success := true; newCount := Some confirmedTotal; error := None |})
  | (clicks', None) =>
      (clicks', {| success := false; newCount := None;
                   error := Some "Validation: total would decrease"%string |})
  end.

(** What the store has served and the client has not received yet.
    [fetchScores] and [processClickQueue] await their calls: the store
    reads or writes at one moment and the client assigns
    [serverConfirmedClicksRef] at a later one. *)
Inductive Message :=
| FetchResult (rows : list ClickRow)   (* the rows the [clicks] query of a fetchScores read *)
| Reply (c : Completion).              (* what the pending call of the flush settles with *)

Record World := {
  ledger : list ClickRow;
  game : Game;
  inbox : list Message                 (* results on their way, oldest first *)
}.

(** How a pending call can go wrong before or after it reaches the store. *)
Inductive Fault :=
| NoFault
| AuthFault          (* answered with an authentication failure *)
| StoreFault         (* answered with some other failure *)
| Throw              (* the call throws, nothing written *)
| LostReply.         (* the write is applied but the call throws *)

Inductive Event :=
| Click (multiplier : Q)                     (* handleClickUpdate *)
| Trigger                                    (* a scheduled processClickQueue runs *)
| FetchServed                                (* the store serves the clicks query of a fetchScores *)
| CallServed (f : Fault)                     (* the pending call of the flush is served *)
| Delivered (i : nat) (at_commit at_finally : Z)
                                             (* the i-th result on its way reaches the client *)
| Elsewhere (u : string) (newTotal : Z).     (* a write from another session *)

Definition failure (msg : string) : ActionResult :=
  {| success := false; newCount := None; error := Some msg |}.

Definition post (m : Message) (clicks : list ClickRow) (w : World) : World :=
  {| ledger := clicks; game := game w; inbox := inbox w ++ [m] |}.

Definition serve_update (f : Fault) (uid : string) (n : Z) (w : World) : World :=
  match f with
  | NoFault =>
      let (clicks', r) := updateClickAction (ledger w) uid n in
      post (Reply (UpdateSettled (Fulfilled r))) clicks' w
  | AuthFault =>
      post (Reply (UpdateSettled (Fulfilled (failure "Authentication required"))))
           (ledger w) w
  | StoreFault =>
      post (Reply (UpdateSettled (Fulfilled (failure "Store unavailable"))))
           (ledger w) w
  | Throw => post (Reply (UpdateSettled Rejected)) (ledger w) w
  | LostReply =>
      post (Reply (UpdateSettled Rejected))
           (fst (updateClickAction (ledger w) uid n)) w
  end.

Definition serve_refresh (f : Fault) (w : World) : World :=
  post (Reply (RefreshSettled
                 match f with
                 | NoFault => Fulfilled false
                 | AuthFault | StoreFault => Fulfilled true
                 | Throw | LostReply => Rejected
                 end))
       (ledger w) w.

Definition is_reply (m : Message) : bool :=
  match m with
  | Reply _ => true
  | FetchResult _ => false
  end.

(** The pending call has been served and its result is on its way. *)
Definition has_reply (msgs : list Message) : bool := List.existsb is_reply msgs.

(** The client receives a result: a fetch result runs the rest of
    [fetchScores], a reply resumes [processClickQueue]. *)
Definition receive (m : Message) (at_commit at_finally : Z) (g : Game) : Game :=
  match m with
  | FetchResult rows => fetchScores rows g
  | Reply c => resume c at_commit at_finally g
  end.

Definition remove_nth (i : nat) (msgs : list Message) : list Message :=
  List.firstn i msgs ++ List.skipn (S i) msgs.

Definition step (e : Event) (w : World) : World :=
  match e with
  | Click m =>
      {| ledger := ledger w; game := handleClickUpdate m (game w); inbox := inbox w |}
  | Trigger =>
      {| ledger := ledger w; game := processClickQueue (game w); inbox := inbox w |}
  | FetchServed => post (FetchResult (ledger w)) (ledger w) w
  | CallServed f =>
      if has_reply (inbox w) then w else
      match suspended (game w) with
      | Idle => w
      | AwaitingUpdate uid _ n | AwaitingRetry uid _ n => serve_update f uid n w
      | AwaitingRefresh _ _ _ => serve_refresh f w
      end
  | Delivered i t1 t2 =>
      match List.nth_error (inbox w) i with
      | Some m =>
          {| ledger := ledger w; game := receive m t1 t2 (game w);
             inbox := remove_nth i (inbox w) |}
      | None => w
      end
  | Elsewhere u n =>
      {| ledger := fst (setTotal (ledger w) u n); game := game w; inbox := inbox w |}
  end.

Definition run (es : list Event) (w : World) : World :=
  List.fold_left (fun w e => step e w) es w.

(** Results reach the client in the order the store served them. *)
Definition in_order (es : list Event) : bool :=
  List.forallb (fun e => match e with
                         | Delivered i _ _ => Nat.eqb i 0
                         | _ => true
                         end) es.

(** The confirmed total the client holds and the total the Ledger stores
    for the signed-in user. *)
Definition confirmed (w : World) : Z := serverConfirmedClicks (game w).

Definition stored (w : World) : Z :=
  match user (game w) with
  | Some uid => getTotal (ledger w) uid
  | None => 0
  end.

(** The total a result on its way makes the client's confirmed total. *)
Definition carried (uid : string) (m : Message) : option Z :=
  match m with
  | FetchResult rows => Some (getTotal rows uid)
  | Reply (UpdateSettled (Fulfilled r)) => if success r then newCount r else None
  | Reply _ => None
  end.

(** From the confirmed total through the totals on their way, oldest
    first, to the stored total, nothing decreases. *)
Fixpoint chain (uid : string) (lo : Z) (msgs : list Message) (hi : Z) : Prop :=
  match msgs with
  | [] => lo <= hi
  | m :: rest =>
      match carried uid m with
      | Some v => lo <= v /\ chain uid v rest hi
      | None => chain uid lo rest hi
      end
  end.

(** The user and the total of the call [processClickQueue] is waiting on. *)
Definition pending_call (g : Game) : option (string * Z) :=
  match suspended g with
  | Idle => None
  | AwaitingUpdate u _ n | AwaitingRefresh u _ n | AwaitingRetry u _ n => Some (u, n)
  end.

(** A successful reply on its way returns the total [n]. *)
Definition answers (n : Z) (m : Message) : Prop :=
  match m with
  | Reply (UpdateSettled (Fulfilled r)) => success r = true -> newCount r = Some n
  | _ => True
  end.

(** The client and the Ledger are in step: the totals on their way are
    in order, at most one reply is on its way, a suspended flush belongs
    to the signed-in user and holds the lock, and a successful reply
    returns the total the flush sent. *)
Definition in_step (w : World) : Prop :=
  match user (game w) with
  | Some uid =>
      chain uid (confirmed w) (inbox w) (getTotal (ledger w) uid)
      /\ (List.length (List.filter is_reply (inbox w)) <= 1)%nat
      /\ match pending_call (game w) with
         | None => has_reply (inbox w) = false
         | Some (u, n) =>
             u = uid /\ isProcessing (game w) = true
             /\ List.Forall (answers n) (inbox w)
         end
  | None => pending_call (game w) = None
  end.

(** What one step may do, stated once for all events: it keeps the client
    and the Ledger in step, keeps the signed-in user, and lowers neither the
    confirmed total nor any stored total. *)
Definition advances (w w' : World) : Prop :=
  in_step w'
  /\ confirmed w <= confirmed w'
  /\ user (game w') = user (game w)
  /\ forall v, getTotal (ledger w) v <= getTotal (ledger w') v.

End Aggregator.


(* ===================================================================== *)
(** * Power grants and activation: the other PL/pgSQL functions *)
(* ===================================================================== *)

Module PowerActivation.
Import Ledger PowerLifecycle.

Definition sql_lt (a b : option Z) : option bool :=
  match a, b with
  | Some x, Some y => Some (x <? y)
  | _, _ => None
  end.

(** The row [grant_power_to_user] inserts. The serial [id] is one more
    than the largest in use. *)
Definition granted_row (now : Z) (d : db) (u : string) (p : Z)
    (power_duration : option Z) : UserPowerRow :=
  {| up_id := AchievementActions.next_id (List.map up_id (user_powers d));
     up_user_id := u;
     up_power_id := p;
     up_acquired_at := now;
     up_expires_at :=
       match power_duration with
       | Some dur => Some (now + dur * 1000)
       | None => None
       end;
     up_is_active := true;
     up_uses_left := None;
     up_level := Some 1;
     up_upgrade_confirmed := Some false |}.

Definition grant_power_to_user (now : Z) (d : db) (p_user_id : string)
    (p_power_id : Z) : db :=
  let power_exists := List.existsb (held_by p_user_id p_power_id) (user_powers d) in
  if negb power_exists then
    (* SELECT duration, max_level INTO ... FROM special_powers WHERE id = p_power_id *)
    let power_duration :=
      match power_template d p_power_id with
      | Some sp => sp_duration sp
      | None => None
      end in
    with_user_powers d
      (user_powers d ++ [granted_row now d p_user_id p_power_id power_duration])
  else d.

(** The milestones of [check_power_milestones], in the order of its [IF]
    blocks: the click count that opens the window and the power granted. *)
Definition power_milestones : list (Z * Z) :=
  [ (100, 1); (500, 2); (1000, 3); (5000, 4); (10000, 5);
    (1000, 6); (2500, 7); (5000, 8); (10000, 9); (25000, 10);
    (2000, 11); (5000, 12); (10000, 13); (25000, 14); (50000, 15) ].

(** [IF click_count >= t AND click_count < t + 10] *)
Definition in_window (click_count : Z) (m : Z * Z) : bool :=
  (click_count >=? fst m) && (click_count <? fst m + 10).

(** The trigger body, run for the updated row [(NEW.user_id, NEW.qty)]. *)
Definition check_power_milestones (now : Z) (d : db) (user_id : string)
    (qty : Z) : db :=
  let click_count := qty in
  List.fold_left
    (fun d m => if in_window click_count m
                then grant_power_to_user now d user_id (snd m)
                else d)
    power_milestones d.

(** The trigger body over any list of milestones. *)
Definition run_milestones (now : Z) (u : string) (qty : Z) (ms : list (Z * Z))
    (d : db) : db :=
  List.fold_left
    (fun d m => if in_window qty m then grant_power_to_user now d u (snd m) else d)
    ms d.

(** The rows the trigger adds. *)
Definition fresh_grant (now : Z) (u : string) (r : UserPowerRow) : Prop :=
  up_user_id r = u /\ up_level r = Some 1 /\ up_is_active r = true
  /\ up_upgrade_confirmed r = Some false /\ up_uses_left r = None
  /\ up_acquired_at r = now.

(** The [UPDATE] of [activate_user_power]. *)
Definition activated (r : UserPowerRow) : UserPowerRow :=
  {| up_id := up_id r; up_user_id := up_user_id r;
     up_power_id := up_power_id r; up_acquired_at := up_acquired_at r;
     up_expires_at := up_expires_at r;
     up_is_active := true;
     up_uses_left :=
       match up_uses_left r with
       | Some n => Some (n - 1)
       | None => None
       end;
     up_level := up_level r;
     up_upgrade_confirmed := up_upgrade_confirmed r |}.

Definition activate_user_power (now : Z) (d : db) (p_user_id : string)
    (p_power_id : Z) : db * bool :=
  let power_exists := List.existsb (held_by p_user_id p_power_id) (user_powers d) in
  if negb power_exists then (d, false) else
  let first := List.find (held_by p_user_id p_power_id) (user_powers d) in
  (* SELECT up.level, sp.max_level INTO ... FROM user_powers up JOIN special_powers sp *)
  let joined :=
    match first, power_template d p_power_id with
    | Some up, Some sp => Some (up, sp)
    | _, _ => None
    end in
  let power_level := match joined with Some (up, _) => up_level up | None => None end in
  let power_max_level := match joined with Some (_, sp) => sp_max_level sp | None => None end in
  let power_active := match first with Some up => up_is_active up | None => false end in
  let power_expired :=
    if holds (sql_lt power_level power_max_level) then
      match first with
      | Some up => match up_expires_at up with
                   | Some e => e <? now
                   | None => false
                   end
      | None => false
      end
    else false in
  let power_uses := match first with Some up => up_uses_left up | None => None end in
  if negb power_active && negb power_expired
     && match power_uses with Some n => n >? 0 | None => true end
  then (update_where p_user_id p_power_id activated d, true)
  else (d, false).

(** The lifecycle operations a user can trigger on the store. *)
Inductive Operation :=
| Grant (u : string) (p : Z)
| Activate (u : string) (p : Z)
| Confirm (u : string) (p : Z)
| Upgrade (u : string) (p : Z)
| ClicksUpdated (u : string) (qty : Z).

Definition perform (now : Z) (d : db) (o : Operation) : db :=
  match o with
  | Grant u p => grant_power_to_user now d u p
  | Activate u p => fst (activate_user_power now d u p)
  | Confirm u p => fst (confirm_power_upgrade d u p)
  | Upgrade u p => fst (upgrade_user_power now d u p)
  | ClicksUpdated u qty => check_power_milestones now d u qty
  end.

(** A history of operations, each with the time it ran at. *)
Definition perform_all (d : db) (log : list (Z * Operation)) : db :=
  List.fold_left (fun d e => perform (fst e) d (snd e)) log d.

Definition operation_user (o : Operation) : string :=
  match o with
  | Grant u _ | Activate u _ | Confirm u _ | Upgrade u _ | ClicksUpdated u _ => u
  end.

(** The rows of everybody but [u]. *)
Definition rows_of_others (u : string) (d : db) : list UserPowerRow :=
  List.filter (fun r => negb (String.eqb (up_user_id r) u)) (user_powers d).

(** Every template that has a [max_level] has one of at least 1. *)
Definition max_levels_positive (d : db) : Prop :=
  forall s m, List.In s (special_powers d) -> sp_max_level s = Some m -> 1 <= m.

(** The table obeys its key: at most one row per user and power. *)
Definition one_row_per_grant (d : db) : Prop :=
  List.NoDup (List.map (fun r => (up_user_id r, up_power_id r)) (user_powers d)).

(** Every row whose template has a [max_level] is at or below it. *)
Definition levels_within_max (d : db) : Prop :=
  forall r s l m,
    List.In r (user_powers d) -> power_template d (up_power_id r) = Some s ->
    up_level r = Some l -> sp_max_level s = Some m -> l <= m.

(** The three facts kept together. *)
Definition well_kept (d : db) : Prop :=
  one_row_per_grant d /\ levels_within_max d /\ max_levels_positive d.

End PowerActivation.

(* ===================================================================== *)
(** * The activation endpoint: api/powers/activate *)
(* ===================================================================== *)

Module ActivateRoute.
Import Ledger PowerLifecycle PowerActivation.

(** What the request carries by way of identity. *)
Inductive Session :=
| NoCookie                      (* no [sb-access-token] cookie *)
| InvalidToken                  (* [getUser] fails or finds no user *)
| SignedIn (userId : string).

Inductive Response :=
| Unauthorized                  (* 401 *)
| BadRequest                    (* 400, "Power ID is required" *)
| ServerError                   (* 500, "Failed to activate power" *)
| Ok (activated : bool) (verified : option bool).   (* 200, [success: true] *)

(** Which store calls come back with an error. *)
Record RouteFaults := {
  rpcError : bool;
  verifyError : bool;
  updateError : bool
}.

Definition no_route_faults : RouteFaults :=
  {| rpcError := false; verifyError := false; updateError := false |}.

(** [.eq('user_id', userId).eq('power_id', powerId).single()]: an error
    unless exactly one row matches. *)
Definition single (d : db) (u : string) (p : Z) : option UserPowerRow :=
  match List.filter (held_by u p) (user_powers d) with
  | [r] => Some r
  | _ => None
  end.

(** [.update({ is_active: true })] *)
Definition forced_active (r : UserPowerRow) : UserPowerRow :=
  {| up_id := up_id r; up_user_id := up_user_id r;
     up_power_id := up_power_id r; up_acquired_at := up_acquired_at r;
     up_expires_at := up_expires_at r;
     up_is_active := true;
     up_uses_left := up_uses_left r;
     up_level := up_level r;
     up_upgrade_confirmed := up_upgrade_confirmed r |}.

(** The handler. The first look at the row ("current status") is only
    logged and is left out. *)
Definition POST (f : RouteFaults) (now : Z) (d : db) (s : Session) (powerId : Z)
    : db * Response :=
  match s with
  | NoCookie | InvalidToken => (d, Unauthorized)
  | SignedIn userId =>
      if powerId =? 0 then (d, BadRequest) else
      if rpcError f then (d, ServerError) else
      let (d1, data) := activate_user_power now d userId powerId in
      let verifyData := if verifyError f then None else single d1 userId powerId in
      match verifyData with
      | None => (d1, Ok data None)
      | Some v =>
          let d2 :=
            if negb (up_is_active v) && negb (updateError f)
            then update_where userId powerId forced_active d1
            else d1 in
          (d2, Ok data (Some (up_is_active v)))
      end
  end.

End ActivateRoute.

(* ===================================================================== *)
(** * Server actions: the achievement queries and the rank evaluation *)
(* ===================================================================== *)

Module AchievementQueries.
Import Ledger AchievementActions.

(** [getAllAchievements]: the catalog by ascending threshold, or nothing
    when the query fails. *)
Definition getAllAchievements (queryError : bool) (d : db) : list Achievement :=
  if queryError then [] else order_by_threshold (achievements d).

(** Ascending threshold order. *)
Definition by_threshold (a b : Achievement) : Prop := a_threshold a <= a_threshold b.

(** [.order('unlocked_at', { ascending: false })] *)
Fixpoint insert_by_unlocked_at (r : UserAchievementRow) (l : list UserAchievementRow)
    : list UserAchievementRow :=
  match l with
  | [] => [r]
  | x :: l' =>
      if ua_unlocked_at x <=? ua_unlocked_at r then r :: l
      else x :: insert_by_unlocked_at r l'
  end.

Definition latest_first (l : list UserAchievementRow) : list UserAchievementRow :=
  List.fold_right insert_by_unlocked_at [] l.

Definition getUserAchievements (queryError : bool) (d : db) (userId : string)
    : list UserAchievement :=
  if queryError then [] else
  List.map (join_achievement d)
    (latest_first
       (List.filter (fun r => String.eqb (ua_user_id r) userId) (user_achievements d))).

Definition getPendingAchievementNotifications (queryError : bool) (d : db)
    (userId : string) : list UserAchievement :=
  if queryError then [] else
  List.map (join_achievement d)
    (latest_first
       (List.filter
          (fun r => String.eqb (ua_user_id r) userId && Bool.eqb (ua_notified r) false)
          (user_achievements d))).

Definition notified_row (r : UserAchievementRow) : UserAchievementRow :=
  {| ua_id := ua_id r; ua_user_id := ua_user_id r;
     ua_achievement_id := ua_achievement_id r;
     ua_unlocked_at := ua_unlocked_at r; ua_notified := true |}.

(** [.update({ notified: true }).eq('user_id', userId)
     .eq('achievement_id', achievementId)] *)
Definition markAchievementNotified (updateError : bool) (d : db) (userId : string)
    (achievementId : Z) : db * bool :=
  if updateError then (d, false) else
  (with_user_achievements d
     (List.map
        (fun r => if String.eqb (ua_user_id r) userId
                     && (ua_achievement_id r =? achievementId)
                  then notified_row r else r)
        (user_achievements d)),
   true).

(** The achievement ids of a list of grants. *)
Definition achievement_ids (l : list UserAchievement) : list Z :=
  List.map (fun g => ua_achievement_id (ua_row g)) l.

Section Schema.
Variable default_level : option Z.
Variable default_upgrade_confirmed : option bool.

Definition checkRankAchievements (f : CheckFaults) (now : Z) (d : db)
    (userId : string) (rank : Z) : db * list UserAchievement :=
  if achievementsError f then (d, []) else
  let achievements :=
    order_by_threshold (List.filter (reached Ledger.rank rank) (achievements d)) in
  match achievements with
  | [] => (d, [])
  | _ =>
      if existingError f then (d, []) else
      let existingIds :=
        List.map ua_achievement_id
          (List.filter (fun r => String.eqb (ua_user_id r) userId)
                       (user_achievements d)) in
      let achievementsToUnlock :=
        List.filter (fun a => negb (List.existsb (Z.eqb (a_id a)) existingIds))
                    achievements in
      match achievementsToUnlock with
      | [] => (d, [])
      | _ =>
          if insertError f then (d, []) else
          let newRows :=
            insert_user_achievements now userId
              (next_id (List.map ua_id (user_achievements d)))
              achievementsToUnlock in
          let d1 := with_user_achievements d (user_achievements d ++ newRows) in
          let insertedAchievements := List.map (join_achievement d1) newRows in
          (grantSpecialPowersFromAchievements default_level default_upgrade_confirmed
             f now d1 userId insertedAchievements,
           insertedAchievements)
      end
  end.

End Schema.

(** [achievementsToUnlock] of the rank evaluation. *)
Definition to_unlock_by_rank (d : db) (u : string) (rank : Z) : list Achievement :=
  List.filter (fun a => negb (List.existsb (Z.eqb (a_id a)) (existing_ids d u)))
    (order_by_threshold (List.filter (reached Ledger.rank rank) (achievements d))).

End AchievementQueries.

(* ===================================================================== *)
(** * The auto-clicker, the leaderboard and the queue's events *)
(* ===================================================================== *)

Module GameLoop.
Import Ledger AchievementActions UseAchievements ClickerGame.

(** ** The auto-clicker *)







(** ** Whole-number multipliers *)

Definition is_whole (q : Q) : bool := Qeq_bool q (inject_Z (Qfloor q)).

(** Every multiplier power of the list has a whole-number effect value. *)
Definition whole_valued (powers : list UserPower) : bool :=
  List.forallb (fun p => negb (is_multiplier p) || is_whole (effect_value_or_one p))
    powers.

(** Whole numbers up to [2^53] in magnitude are JavaScript numbers, and
    products of such numbers that stay in that range are computed
    without rounding. *)
Definition exactly_representable (q : Q) : Prop := (Qabs q <= inject_Z (2 ^ 53))%Q.

(** ** The leaderboard of [fetchScores] *)

Record Profile := { profile_id : string; username : option string }.

Record PlayerScore := {
  ps_id : string;
  ps_username : string;
  ps_clicks : Z;
  ps_rank : Z;
  isCurrentUser : bool
}.

(** [profile.username || 'Anonymous'] *)
Definition username_or_anonymous (p : Profile) : string :=
  match username p with
  | Some EmptyString | None => "Anonymous"%string
  | Some s => s
  end.

Definition combinedData (profiles : list Profile) (rows : list ClickRow)
    (user : option string) : list PlayerScore :=
  List.map
    (fun profile =>
       let score := List.find (fun click => String.eqb (click_id click) (profile_id profile))
                              rows in
       {| ps_id := profile_id profile;
          ps_username := username_or_anonymous profile;
          ps_clicks := match score with Some s => or_else (qty s) 0 | None => 0 end;
          ps_rank := 0;
          isCurrentUser :=
            match user with
            | Some uid => String.eqb (profile_id profile) uid
            | None => false
            end |})
    profiles.

(** [.sort((a, b) => b.clicks - a.clicks)]: stable, most clicks first. *)
Fixpoint insert_by_clicks (a : PlayerScore) (l : list PlayerScore) : list PlayerScore :=
  match l with
  | [] => [a]
  | b :: l' => if ps_clicks b <=? ps_clicks a then a :: l else b :: insert_by_clicks a l'
  end.

Definition most_clicks_first (l : list PlayerScore) : list PlayerScore :=
  List.fold_right insert_by_clicks [] l.

(** [.map((player, index) => ({ ...player, rank: index + 1 }))] *)
Fixpoint ranked_from (index : Z) (l : list PlayerScore) : list PlayerScore :=
  match l with
  | [] => []
  | player :: rest =>
      {| ps_id := ps_id player; ps_username := ps_username player;
         ps_clicks := ps_clicks player; ps_rank := index + 1;
         isCurrentUser := isCurrentUser player |}
      :: ranked_from (index + 1) rest
  end.

Definition rankedPlayers (profiles : list Profile) (rows : list ClickRow)
    (user : option string) : list PlayerScore :=
  ranked_from 0 (most_clicks_first (combinedData profiles rows user)).

(** ** The events of the click queue *)

Inductive GameEvent :=
| Clicked (multiplier : Q)                          (* handleClickUpdate *)
| Triggered                                         (* a scheduled processClickQueue *)
| Settled (c : Completion) (at_commit at_finally : Z)  (* the pending await settles *)
| Fetched (rows : list ClickRow).                   (* fetchScores receives the rows *)

Definition play_one (e : GameEvent) (g : Game) : Game :=
  match e with
  | Clicked m => handleClickUpdate m g
  | Triggered => processClickQueue g
  | Settled c t1 t2 => resume c t1 t2 g
  | Fetched rows => fetchScores rows g
  end.

Definition play (es : list GameEvent) (g : Game) : Game :=
  List.fold_left (fun g e => play_one e g) es g.

Definition settles (e : GameEvent) : bool :=
  match e with
  | Settled _ _ _ => true
  | _ => false
  end.

(** The queue's books are in order: the pending count is not negative,
    the lock is taken exactly while a call is pending, and the amount
    being flushed is positive and still counted as pending. *)
Definition sound (g : Game) : Prop :=
  0 <= pendingClicks g
  /\ match suspended g with
     | Idle => isProcessing g = false
     | AwaitingUpdate _ k _ | AwaitingRefresh _ k _ | AwaitingRetry _ k _ =>
         isProcessing g = true /\ 0 < k <= pendingClicks g
     end.

(** The total the pending call carries, if a call is pending. *)
Definition submitted (g : Game) : option Z :=
  match suspended g with
  | Idle => None
  | AwaitingUpdate _ _ n | AwaitingRefresh _ _ n | AwaitingRetry _ _ n => Some n
  end.

(** An event that does not disturb the flush in flight: a successful
    answer carries no total of its own or the total it was sent, and the
    leaderboard is fetched only between flushes. *)
Definition undisturbing (e : GameEvent) (g : Game) : bool :=
  match e with
  | Fetched _ => match suspended g with Idle => true | _ => false end
  | Settled (UpdateSettled (Fulfilled r)) _ _ =>
      negb (success r)
      || match newCount r, submitted g with
         | Some v, Some n => (v =? 0) || (v =? n)
         | _, _ => true
         end
  | _ => true
  end.

Fixpoint undisturbed (es : list GameEvent) (g : Game) : bool :=
  match es with
  | [] => true
  | e :: es' => undisturbing e g && undisturbed es' (play_one e g)
  end.

(** The counter on screen is the confirmed total plus the pending
    clicks, and the call in flight carries the confirmed total plus the
    amount it flushes. *)
Definition balanced (g : Game) : Prop :=
  clickCount g = serverConfirmedClicks g + pendingClicks g
  /\ match suspended g with
     | Idle => True
     | AwaitingUpdate _ k n | AwaitingRefresh _ k n | AwaitingRetry _ k n =>
         n = serverConfirmedClicks g + k
     end.

End GameLoop.

(* ===================================================================== *)
(** * The powers panel: unified-power, use-powers and player-powers *)
(* ===================================================================== *)

Module PowersPanel.
Import Ledger AchievementActions.

(** [isPowerVisuallyActive] *)
Definition isPowerVisuallyActive (now : Z) (p : UserPower) : bool :=
  if up_is_active (row p) then true
  else match up_expires_at (row p) with
       | Some expiry => now <? expiry
       | None => false
       end.

(** [checkPowerActiveDiscrepancy] *)
Definition checkPowerActiveDiscrepancy (now : Z) (powers : list UserPower)
    : list UserPower :=
  List.filter
    (fun p => let shouldBeActive := isPowerVisuallyActive now p in
              shouldBeActive && negb (up_is_active (row p)))
    powers.

(** [powersToFix] of [fixActiveStatusDiscrepancy] *)
Definition powersToFix (now : Z) (powers : list UserPower) : list UserPower :=
  List.filter
    (fun p => match up_expires_at (row p) with
              | Some expiry => (now <? expiry) && negb (up_is_active (row p))
              | None => false
              end)
    powers.

(** The numbers [formatTimeRemaining] prints: hours, minutes, seconds. *)
Definition time_parts (diffMs : Z) : Z * Z * Z :=
  let diffSec := diffMs / 1000 in
  let hours := diffSec / 3600 in
  let minutes := (diffSec mod 3600) / 60 in
  let seconds := diffSec mod 60 in
  (hours, minutes, seconds).

Definition decimal (n : Z) : string := NilZero.string_of_int (Z.to_int n).

(** [formatTimeRemaining] *)
Definition formatTimeRemaining (now : Z) (expiresAt : option Z) : string :=
  match expiresAt with
  | None => "Permanent"
  | Some expiry =>
      let diffMs := expiry - now in
      if diffMs <=? 0 then "Expired"
      else let '(hours, minutes, seconds) := time_parts diffMs in
           (decimal hours ++ "h " ++ decimal minutes ++ "m " ++ decimal seconds ++ "s")%string
  end.

End PowersPanel.

(* ===================================================================== *)
(** * Sample data *)
(* ===================================================================== *)

Module Samples.
Import Ledger.

Definition alice : string := "alice"%string.

(** A timed multiplier: 60 seconds base duration, five levels. *)
Definition double_trouble (requires_confirmation : bool) : SpecialPower :=
  {| sp_id := 1; sp_effect_type := multiplier; sp_effect_value := 2%Q;
     sp_duration := Some 60; sp_max_level := Some 5;
     sp_requires_confirmation := Some requires_confirmation |}.

Definition alice_power (level : Z) (confirmed : bool) : UserPowerRow :=
  {| up_id := 7; up_user_id := alice; up_power_id := 1;
     up_acquired_at := 0; up_expires_at := Some 60000;
     up_is_active := true; up_uses_left := None;
     up_level := Some level; up_upgrade_confirmed := Some confirmed |}.

Definition powers_db (requires_confirmation : bool) (level : Z) (confirmed : bool) : db :=
  {| achievements := []; user_achievements := [];
     special_powers := [double_trouble requires_confirmation];
     user_powers := [alice_power level confirmed] |}.

(** Click milestones. *)
Definition milestone (id threshold : Z) : Achievement :=
  {| a_id := id; a_threshold := threshold; a_type := clicks;
     a_reward_type := reward_none; a_reward_value := None |}.

Definition catalog_db (catalog : list Achievement) : db :=
  {| achievements := catalog; user_achievements := [];
     special_powers := []; user_powers := [] |}.

(** Thresholds 100, 250 and 500, listed out of order. *)
Definition three_milestones : list Achievement :=
  [milestone 2 250; milestone 3 500; milestone 1 100].

(** "Reach rank [threshold]". *)
Definition rank_milestone (id threshold : Z) : Achievement :=
  {| a_id := id; a_threshold := threshold; a_type := rank;
     a_reward_type := reward_none; a_reward_value := None |}.

(** A catalog with a milestone below a previous total of 90. *)
Definition two_milestones : list Achievement :=
  [milestone 1 50; milestone 2 100].

(** Alice holds one power that is switched off and has not expired by
    time 1000. *)
Definition dormant_power : UserPowerRow :=
  {| up_id := 7; up_user_id := alice; up_power_id := 1;
     up_acquired_at := 0; up_expires_at := Some 60000;
     up_is_active := false; up_uses_left := None;
     up_level := None; up_upgrade_confirmed := None |}.

Definition dormant_db : db :=
  {| achievements := []; user_achievements := [];
     special_powers := [double_trouble false];
     user_powers := [dormant_power] |}.

(** Alice's multiplier as the hooks see it: active, at the given level. *)
Definition active_multiplier (level : Z) (confirmed : bool)
    : AchievementActions.UserPower :=
  {| AchievementActions.row := alice_power level confirmed;
     AchievementActions.power := Some (double_trouble true) |}.

(** A second power of Alice's: an auto-clicker, two clicks a second. *)
Definition helping_hand : SpecialPower :=
  {| sp_id := 6; sp_effect_type := auto_click; sp_effect_value := 2%Q;
     sp_duration := None; sp_max_level := Some 5;
     sp_requires_confirmation := Some false |}.

Definition other_power : AchievementActions.UserPower :=
  {| AchievementActions.row :=
       {| up_id := 8; up_user_id := alice; up_power_id := 6;
          up_acquired_at := 0; up_expires_at := None;
          up_is_active := true; up_uses_left := None;
          up_level := Some 1; up_upgrade_confirmed := Some false |};
     AchievementActions.power := Some helping_hand |}.

(** Answers of the update action. *)
Definition confirmed_with (total : option Z) : ClickerGame.ActionResult :=
  {| ClickerGame.success := true; ClickerGame.newCount := total;
     ClickerGame.error := None |}.

Definition failed_with (msg : string) : ClickerGame.ActionResult :=
  {| ClickerGame.success := false; ClickerGame.newCount := None;
     ClickerGame.error := Some msg |}.

(** Alice has 10 confirmed clicks and 5 pending ones; nothing is in flight. *)
Definition five_pending : ClickerGame.Game :=
  {| ClickerGame.user := Some alice; ClickerGame.clickCount := 15;
     ClickerGame.pendingClicks := 5; ClickerGame.isProcessing := false;
     ClickerGame.lastProcessedTimestamp := 1000;
     ClickerGame.serverConfirmedClicks := 10;
     ClickerGame.suspended := ClickerGame.Idle; ClickerGame.requests := [];
     ClickerGame.refreshes := 0%nat; ClickerGame.toasts := [];
     ClickerGame.timers := [] |}.

(** Alice signs in on an empty Ledger. *)
Definition fresh_world : Aggregator.World :=
  {| Aggregator.ledger := [];
     Aggregator.game := ClickerGame.initial (Some alice);
     Aggregator.inbox := [] |}.

(** Alice's multiplier, switched off, its 60 seconds long over. *)
Definition lapsed_power (level : Z) (uses : option Z) : UserPowerRow :=
  {| up_id := 7; up_user_id := alice; up_power_id := 1;
     up_acquired_at := 0; up_expires_at := Some 60000;
     up_is_active := false; up_uses_left := uses;
     up_level := Some level; up_upgrade_confirmed := Some false |}.

Definition lapsed_db (level : Z) (uses : option Z) : db :=
  {| achievements := []; user_achievements := [];
     special_powers := [double_trouble false];
     user_powers := [lapsed_power level uses] |}.

End Samples.
(* ===================================================================== *)
(** * Properties of the power lifecycle *)
(* ===================================================================== *)

Section PowerLifecycleFacts.
Import Ledger PowerLifecycle.

Lemma find_held_exists u p rows r :
  List.find (held_by u p) rows = Some r ->
  List.existsb (held_by u p) rows = true.
Proof.
  induction rows as [|x rows IH]; simpl; [discriminate|].
  destruct (held_by u p x); auto.
Qed.

Lemma find_held_by u p rows r :
  List.find (held_by u p) rows = Some r -> held_by u p r = true /\ List.In r rows.
Proof.
  intros H. apply List.find_some in H. tauto.
Qed.

(** An update that keeps the key columns keeps the selection. *)
Lemma find_update_where u p f rows :
  (forall r, held_by u p (f r) = held_by u p r) ->
  List.find (held_by u p)
    (List.map (fun r => if held_by u p r then f r else r) rows)
  = option_map f (List.find (held_by u p) rows).
Proof.
  intros Hkey. induction rows as [|x rows IH]; simpl; [reflexivity|].
  destruct (held_by u p x) eqn:Hx.
  - rewrite Hkey, Hx. reflexivity.
  - rewrite Hx. exact IH.
Qed.

Lemma existsb_update_where u p f rows :
  (forall r, held_by u p (f r) = held_by u p r) ->
  List.existsb (held_by u p)
    (List.map (fun r => if held_by u p r then f r else r) rows)
  = List.existsb (held_by u p) rows.
Proof.
  intros Hkey. induction rows as [|x rows IH]; simpl; [reflexivity|].
  rewrite IH. destruct (held_by u p x) eqn:Hx.
  - rewrite Hkey, Hx. reflexivity.
  - rewrite Hx. reflexivity.
Qed.


Lemma power_template_update_where u p f d q :
  power_template (update_where u p f d) q = power_template d q.
Proof. reflexivity. Qed.







End PowerLifecycleFacts.

Section PowerLifecycleClaims.
Import Ledger PowerLifecycle Samples.

(** C3 (leveling arithmetic), evaluated on the code. A power with a base
    duration of 60 seconds and five levels, held at level 1, is upgraded at
    time [now]: the upgrade succeeds, the level becomes 2 and
    [upgrade_confirmed] is reset, but [expires_at] becomes
    [now + 60 s] (the duration times the level before the update), not
    [now + 120 s] (the duration times the new level). *)
Theorem upgrade_level_1_to_2_expires_after_60s : forall now : Z,
  upgrade_user_power now (powers_db false 1 false) alice 1
  = ({| achievements := []; user_achievements := [];
        special_powers := [double_trouble false];
        user_powers :=
          [ {| up_id := 7; up_user_id := alice; up_power_id := 1;
               up_acquired_at := 0; up_expires_at := Some (now + 60 * 1 * 1000);
               up_is_active := true; up_uses_left := None;
               up_level := Some 2; up_upgrade_confirmed := Some false |} ] |},
     true)
  /\ Some (now + 60 * 1 * 1000) <> Some (now + 60 * 2 * 1000).
Proof.
  intros now. split.
  - reflexivity.
  - intros H. injection H. lia.
Qed.

(** The same in general, for any table: on a successful upgrade every row
    of the pair gets [level + 1] and [upgrade_confirmed = FALSE]; its
    [expires_at] is NULL when the new level reaches [max_level] and
    otherwise [now + duration * (level before the update)] seconds. *)
Lemma upgraded_row_spec now (l m dur : Z) r :
  up_level r = Some l ->
  let r' := upgraded now (Some m) (Some dur) r in
  up_level r' = Some (l + 1)
  /\ up_upgrade_confirmed r' = Some false
  /\ up_expires_at r' = if l + 1 >=? m then None else Some (now + dur * l * 1000).
Proof.
  intros Hl. unfold upgraded. simpl. rewrite Hl. simpl.
  repeat split. destruct (l + 1 >=? m); reflexivity.
Qed.


(** Where the bound matters: at a base duration of 2,000,000,000 seconds
    and level 2 of 5 the product [power_duration * level] does not fit
    an [INTEGER], and the update raises instead of returning. *)
Lemma long_duration_is_out_of_range :
  upgrade_in_range (Some 5) (Some 2000000000) (alice_power 2 true) = false
  /\ upgrade_in_range (Some 5) (Some 60) (alice_power 2 true) = true.
Proof. split; reflexivity. Qed.



End PowerLifecycleClaims.

(* ===================================================================== *)
(** * Properties of the milestone evaluation *)
(* ===================================================================== *)

Section MilestoneFacts.
Import Ledger AchievementActions.

Variable default_level : option Z.
Variable default_upgrade_confirmed : option bool.

Lemma In_insert_by_threshold a x l :
  List.In x (insert_by_threshold a l) <-> x = a \/ List.In x l.
Proof.
  induction l as [|b l IH]; simpl.
  - intuition.
  - destruct (a_threshold a <=? a_threshold b); simpl; intuition.
Qed.

Lemma In_order_by_threshold x l :
  List.In x (order_by_threshold l) <-> List.In x l.
Proof.
  induction l as [|a l IH]; simpl; [tauto|].
  rewrite In_insert_by_threshold, IH. intuition.
Qed.

Lemma inserted_achievement_ids now u fresh l :
  List.map ua_achievement_id (insert_user_achievements now u fresh l)
  = List.map a_id l.
Proof.
  revert fresh. induction l as [|a l IH]; intros fresh; simpl; [reflexivity|].
  now rewrite IH.
Qed.

Lemma inserted_for_user now u fresh l r :
  List.In r (insert_user_achievements now u fresh l) ->
  ua_user_id r = u /\ ua_notified r = false.
Proof.
  revert fresh. induction l as [|a l IH]; intros fresh; simpl; [tauto|].
  intros [<-|H]; [split; reflexivity | eauto].
Qed.

Lemma grant_keeps_achievements f now d u achs :
  achievements (grantSpecialPowersFromAchievements default_level
                  default_upgrade_confirmed f now d u achs) = achievements d
  /\ user_achievements (grantSpecialPowersFromAchievements default_level
                  default_upgrade_confirmed f now d u achs) = user_achievements d.
Proof.
  unfold grantSpecialPowersFromAchievements.
  destruct (List.filter grants_power achs); [tauto|].
  destruct (powersError f); [tauto|].
  destruct (List.filter _ (special_powers d)); [tauto|].
  destruct (powerInsertError f); simpl; tauto.
Qed.

Lemma existsb_eqb_In x l : List.existsb (Z.eqb x) l = true <-> List.In x l.
Proof.
  rewrite List.existsb_exists. split.
  - intros (y & Hy & E). apply Z.eqb_eq in E. now subst.
  - intros H. exists x. split; [assumption | apply Z.eqb_refl].
Qed.

Lemma reached_spec ty n a :
  reached ty n a = true <-> a_type a = ty /\ a_threshold a <= n.
Proof.
  unfold reached. rewrite Bool.andb_true_iff, Z.leb_le.
  destruct (a_type a), ty; simpl; intuition congruence.
Qed.

Lemma In_to_unlock d u n a :
  List.In a (to_unlock d u n) <->
  List.In a (achievements d) /\ a_type a = clicks /\ a_threshold a <= n
  /\ ~ List.In (a_id a) (existing_ids d u).
Proof.
  unfold to_unlock.
  rewrite List.filter_In, In_order_by_threshold, List.filter_In, reached_spec.
  rewrite Bool.negb_true_iff, <- Bool.not_true_iff_false, existsb_eqb_In.
  tauto.
Qed.

(** With the three store calls answering, the evaluation appends one row
    per achievement of [to_unlock] and returns those rows. *)
Lemma checkClickAchievements_unlocks f now d u n :
  achievementsError f = false -> existingError f = false -> insertError f = false ->
  let res := checkClickAchievements default_level default_upgrade_confirmed f now d u n in
  exists rows,
    List.map ua_row (snd res) = rows
    /\ List.map ua_achievement_id rows = List.map a_id (to_unlock d u n)
    /\ user_achievements (fst res) = user_achievements d ++ rows
    /\ achievements (fst res) = achievements d
    /\ (forall r, List.In r rows -> ua_user_id r = u /\ ua_notified r = false).
Proof.
  intros E1 E2 E3. unfold checkClickAchievements. rewrite E1.
  unfold to_unlock, existing_ids.
  destruct (order_by_threshold _) as [|a0 l0] eqn:Hord.
  { exists []. simpl. rewrite List.app_nil_r. repeat split; intros; contradiction. }
  rewrite E2.
  destruct (List.filter _ (a0 :: l0)) as [|b0 m0] eqn:Hfil.
  { exists []. simpl. rewrite List.app_nil_r. repeat split; intros; contradiction. }
  rewrite E3. cbv zeta.
  set (rows := insert_user_achievements now u _ (b0 :: m0)).
  exists rows. unfold snd, fst.
  destruct (grant_keeps_achievements f now
              (with_user_achievements d (user_achievements d ++ rows)) u
              (List.map (join_achievement
                 (with_user_achievements d (user_achievements d ++ rows))) rows))
    as [Ha Hu].
  rewrite Ha, Hu. repeat split.
  - rewrite List.map_map. erewrite List.map_ext; [apply List.map_id|].
    intros r. reflexivity.
  - apply inserted_achievement_ids.
  - eapply inserted_for_user; eassumption.
  - eapply inserted_for_user; eassumption.
Qed.

(** Whatever the store calls do, nothing is returned once every reached
    achievement is already held. *)
Lemma checkClickAchievements_nothing_new f now d u n :
  to_unlock d u n = [] ->
  snd (checkClickAchievements default_level default_upgrade_confirmed f now d u n) = [].
Proof.
  unfold to_unlock, existing_ids, checkClickAchievements. intros H.
  destruct (achievementsError f); [reflexivity|].
  destruct (order_by_threshold _); [reflexivity|].
  destruct (existingError f); [reflexivity|].
  rewrite H. reflexivity.
Qed.

Lemma filter_own_rows u (rows : list UserAchievementRow) :
  (forall r, List.In r rows -> ua_user_id r = u) ->
  List.filter (fun r => String.eqb (ua_user_id r) u) rows = rows.
Proof.
  induction rows as [|r rows IH]; simpl; intros Hu; [reflexivity|].
  rewrite (Hu r) by (left; reflexivity). rewrite String.eqb_refl.
  f_equal. apply IH. intros; apply Hu; right; assumption.
Qed.

Lemma existing_ids_app d u rows :
  (forall r, List.In r rows -> ua_user_id r = u) ->
  forall d', user_achievements d' = user_achievements d ++ rows ->
  existing_ids d' u = existing_ids d u ++ List.map ua_achievement_id rows.
Proof.
  intros Hu d' E. unfold existing_ids. rewrite E.
  rewrite List.filter_app, List.map_app, (filter_own_rows _ _ Hu). reflexivity.
Qed.

End MilestoneFacts.

Section MilestoneClaims.
Import Ledger AchievementActions Samples.

Variable default_level : option Z.
Variable default_upgrade_confirmed : option bool.

(** C1, as stated, fails: the evaluation has no previous total. After a
    jump from 90 to 600 it also grants the milestone at 50, which does not
    lie in (90, 600]. *)
Lemma milestone_below_previous_total_is_granted :
  let previousTotal := 90 in
  let newTotal := 600 in
  let res := checkClickAchievements None None no_check_faults 0
               (catalog_db two_milestones) alice newTotal in
  granted_ids res = [1; 2]
  /\ List.In (milestone 1 50) two_milestones
  /\ ~ (previousTotal < a_threshold (milestone 1 50) <= newTotal).
Proof.
  repeat split.
  - left. reflexivity.
  - simpl. lia.
Qed.

(** C1 (click milestones), amended. When the store calls answer, one
    evaluation at click count [n] grants exactly the clicks-triggered
    definitions with [threshold <= n] whose id the user does not hold yet
    (there is no lower bound by a previous total): the returned grants are
    rows of the user, not yet notified, appended to the table; evaluating
    again with the same count returns nothing. In particular a jump from 90
    to 600 over thresholds 100, 250 and 500 grants all three at once, in
    threshold order, and none of them again. *)
Theorem click_milestones_granted f now d u n :
  achievementsError f = false -> existingError f = false -> insertError f = false ->
  let res :=
    checkClickAchievements default_level default_upgrade_confirmed f now d u n in
  (forall x, List.In x (granted_ids res) <->
     exists a, List.In a (achievements d) /\ a_id a = x /\ a_type a = clicks
               /\ a_threshold a <= n /\ ~ List.In x (existing_ids d u))
  /\ (forall g, List.In g (snd res) ->
        ua_user_id (ua_row g) = u /\ ua_notified (ua_row g) = false
        /\ List.In (ua_row g) (user_achievements (fst res)))
  /\ (forall f' now',
        snd (checkClickAchievements default_level default_upgrade_confirmed
               f' now' (fst res) u n) = [])
  /\ (let first :=
        checkClickAchievements default_level default_upgrade_confirmed
          no_check_faults 0 (catalog_db three_milestones) alice 600 in
      granted_ids first = [1; 2; 3]
      /\ snd (checkClickAchievements default_level default_upgrade_confirmed
                no_check_faults 1 (fst first) alice 600) = []).
Proof.
  intros E1 E2 E3 res.
  destruct (checkClickAchievements_unlocks default_level default_upgrade_confirmed
              f now d u n E1 E2 E3) as (rows & Hrows & Hids & Htab & Hcat & Hown).
  fold res in Hrows, Htab, Hcat.
  assert (Hgranted : granted_ids res = List.map a_id (to_unlock d u n)).
  { unfold granted_ids. rewrite <- Hids, <- Hrows, List.map_map. reflexivity. }
  split; [|split; [|split]].
  - intros x. rewrite Hgranted, List.in_map_iff. split.
    + intros (a & <- & Ha). apply In_to_unlock in Ha. exists a. tauto.
    + intros (a & Ha & <- & Hty & Hth & Hnew). exists a. split; [reflexivity|].
      apply In_to_unlock. tauto.
  - intros g Hg.
    assert (Hin : List.In (ua_row g) rows).
    { rewrite <- Hrows. apply List.in_map. exact Hg. }
    destruct (Hown _ Hin) as [Hu Hn]. repeat split; try assumption.
    rewrite Htab. apply List.in_or_app. right. exact Hin.
  - intros f' now'. apply checkClickAchievements_nothing_new.
    destruct (to_unlock (fst res) u n) as [|a l] eqn:Hl; [reflexivity|].
    exfalso.
    assert (Ha : List.In a (to_unlock (fst res) u n)) by (rewrite Hl; left; reflexivity).
    apply In_to_unlock in Ha. destruct Ha as (Ha & Hty & Hth & Hnew).
    rewrite Hcat in Ha.
    rewrite (existing_ids_app d u rows (fun r Hr => proj1 (Hown r Hr)) _ Htab) in Hnew.
    apply Hnew. apply List.in_or_app.
    destruct (List.in_dec Z.eq_dec (a_id a) (existing_ids d u)) as [Hold|Hold].
    + left. exact Hold.
    + right. rewrite Hids. apply List.in_map. apply In_to_unlock. tauto.
  - split; reflexivity.
Qed.

End MilestoneClaims.

Lemma click_milestones_granted_witness :
  AchievementActions.achievementsError AchievementActions.no_check_faults = false
  /\ (forall x,
        List.In x (AchievementActions.granted_ids
                     (AchievementActions.checkClickAchievements (Some 1) (Some false)
                        AchievementActions.no_check_faults 0
                        (Samples.catalog_db Samples.three_milestones)
                        Samples.alice 600)) <->
        exists a, List.In a Samples.three_milestones /\ Ledger.a_id a = x
                  /\ Ledger.a_type a = Ledger.clicks
                  /\ Ledger.a_threshold a <= 600
                  /\ ~ List.In x (AchievementActions.existing_ids
                                    (Samples.catalog_db Samples.three_milestones)
                                    Samples.alice)).
Proof.
  split; [reflexivity|].
  exact (proj1 (click_milestones_granted (Some 1) (Some false)
                  AchievementActions.no_check_faults 0
                  (Samples.catalog_db Samples.three_milestones) Samples.alice 600
                  eq_refl eq_refl eq_refl)).
Defined.

(* ===================================================================== *)
(** * Properties of the active-power fetch *)
(* ===================================================================== *)

Section FetchFacts.
Import Ledger AchievementActions.

Lemma NoDup_key_inj {A} (key : A -> Z) (l : list A) x y :
  List.NoDup (List.map key l) -> List.In x l -> List.In y l ->
  key x = key y -> x = y.
Proof.
  induction l as [|a l IH]; simpl; intros Hnd Hx Hy E; [contradiction|].
  inversion Hnd as [|? ? Hnotin Hnd']; subst.
  destruct Hx as [<-|Hx], Hy as [<-|Hy]; auto.
  - exfalso. apply Hnotin. rewrite E. apply List.in_map. exact Hy.
  - exfalso. apply Hnotin. rewrite <- E. apply List.in_map. exact Hx.
Qed.

(** The updates go row by row. *)
Lemma fold_apply_update f u ps rows :
  (forall i, updateFails f i = false) ->
  List.fold_left (apply_update f u) ps rows
  = List.map (fun r => List.fold_left (fun acc p => activate_row p u acc) ps r) rows.
Proof.
  intros Hok. revert rows. induction ps as [|p ps IH]; intros rows; simpl.
  - symmetry. apply List.map_id.
  - rewrite IH.
    replace (apply_update f u rows p) with (List.map (activate_row p u) rows)
      by (unfold apply_update; now rewrite Hok).
    rewrite List.map_map. reflexivity.
Qed.

Lemma activate_with_twice src r : activate_with src (activate_with src r) = activate_with src r.
Proof. reflexivity. Qed.

Lemma activate_row_join d u x acc :
  activate_row (join_power d x) u acc
  = if (up_id acc =? up_id x) && String.eqb (up_user_id acc) u
    then activate_with x acc else acc.
Proof. reflexivity. Qed.

(** On one row: the updates selected from other rows (other ids) pass it
    by; the one selected from the row itself rewrites it. *)
Lemma fold_activate_row d u r l acc :
  acc = r \/ acc = revived r ->
  up_user_id r = u ->
  (forall x, List.In x l -> up_id x = up_id r -> x = r) ->
  List.fold_left (fun acc p => activate_row p u acc) (List.map (join_power d) l) acc
  = if List.existsb (fun x => up_id x =? up_id r) l then revived r else acc.
Proof.
  intros Hacc Hu. revert acc Hacc.
  induction l as [|x l IH]; intros acc Hacc Hl; simpl; [reflexivity|].
  assert (Hid : up_id acc = up_id r) by (destruct Hacc; subst acc; reflexivity).
  assert (Hus : String.eqb (up_user_id acc) u = true).
  { destruct Hacc; subst acc; simpl; rewrite Hu; apply String.eqb_refl. }
  rewrite activate_row_join, Hid, Hus, Bool.andb_true_r.
  rewrite (Z.eqb_sym (up_id x)).
  destruct (up_id r =? up_id x) eqn:E.
  - apply Z.eqb_eq in E. rewrite (Hl x) by (auto using List.in_eq).
    rewrite IH.
    + destruct (List.existsb _ l); destruct Hacc; subst acc; reflexivity.
    + right. destruct Hacc; subst acc; reflexivity.
    + intros; apply Hl; [right|]; assumption.
  - simpl. apply IH; [assumption|]. intros; apply Hl; [right|]; assumption.
Qed.

Lemma fold_activate_row_other d u r l :
  up_user_id r <> u ->
  List.fold_left (fun acc p => activate_row p u acc) (List.map (join_power d) l) r = r.
Proof.
  intros Hu. induction l as [|x l IH]; simpl; [reflexivity|].
  rewrite activate_row_join.
  destruct (String.eqb_spec (up_user_id r) u) as [E|_]; [contradiction|].
  rewrite Bool.andb_false_r. exact IH.
Qed.

Lemma selected_user now u flag r :
  selected now u flag r = true -> up_user_id r = u.
Proof.
  unfold selected. rewrite !Bool.andb_true_iff. intros [[H _] _].
  now apply String.eqb_eq.
Qed.

(** With primary-key ids, the repair rewrites exactly the rows it selected. *)
Lemma repair_rows f now d u :
  (forall i, updateFails f i = false) ->
  List.NoDup (List.map up_id (user_powers d)) ->
  List.fold_left (apply_update f u) (select_powers now d u false) (user_powers d)
  = List.map (fun r => if selected now u false r then revived r else r) (user_powers d).
Proof.
  intros Hok Hnd. rewrite fold_apply_update by assumption.
  apply List.map_ext_in. intros r Hr. unfold select_powers.
  destruct (String.eqb_spec (up_user_id r) u) as [Hu|Hu].
  - rewrite (fold_activate_row d u r _ r); auto.
    + destruct (selected now u false r) eqn:Hsel.
      * replace (List.existsb _ _) with true; [reflexivity|].
        symmetry. apply List.existsb_exists. exists r. split.
        -- apply List.filter_In. auto.
        -- apply Z.eqb_refl.
      * replace (List.existsb _ _) with false; [reflexivity|].
        symmetry. apply Bool.not_true_is_false. intros Hex.
        apply List.existsb_exists in Hex. destruct Hex as (x & Hx & E).
        apply List.filter_In in Hx. destruct Hx as [Hx Hselx].
        apply Z.eqb_eq in E.
        rewrite (NoDup_key_inj up_id _ x r Hnd Hx Hr E) in Hselx. congruence.
    + intros x Hx E. apply List.filter_In in Hx.
      apply (NoDup_key_inj up_id _ x r Hnd); tauto.
  - rewrite fold_activate_row_other by assumption.
    destruct (selected now u false r) eqn:Hsel; [|reflexivity].
    apply selected_user in Hsel. contradiction.
Qed.

Lemma selected_revived now u r :
  selected now u false r = true -> selected now u true (revived r) = true.
Proof.
  unfold selected, not_expired. simpl. rewrite !Bool.andb_true_iff.
  intros [[H1 _] H3]. auto.
Qed.

End FetchFacts.

Section FetchClaims.
Import Ledger AchievementActions.

Lemma filter_map_comm {A B} (P : B -> bool) (g : A -> B) l :
  List.filter P (List.map g l) = List.map g (List.filter (fun x => P (g x)) l).
Proof.
  induction l as [|a l IH]; simpl; [reflexivity|].
  destruct (P (g a)); simpl; now rewrite IH.
Qed.

Lemma map_fixed {A} (g : A -> A) l :
  List.map g l = l -> forall x, List.In x l -> g x = x.
Proof.
  induction l as [|a l IH]; simpl; intros H x Hx; [contradiction|].
  injection H as Ha Hl. destruct Hx as [<-|Hx]; auto.
Qed.

Lemma no_active_selected now d u :
  (forall r, List.In r (user_powers d) -> up_user_id r = u -> up_is_active r = false) ->
  select_powers now d u true = [].
Proof.
  intros Hoff. unfold select_powers.
  replace (List.filter _ _) with (@nil UserPowerRow); [reflexivity|].
  symmetry. induction (user_powers d) as [|r l IH]; simpl; [reflexivity|].
  rewrite <- IH by (intros; apply Hoff; auto using List.in_cons).
  unfold selected.
  destruct (String.eqb_spec (up_user_id r) u) as [E|E]; [|reflexivity].
  rewrite (Hoff r) by auto using List.in_eq. reflexivity.
Qed.

(** C10 (the fetch is not read-only). When the store calls answer, ids are
    the primary key of [user_powers], the user has no power marked active
    and holds at least one inactive power that has not expired (its
    [expires_at] is later than [now] or NULL), [getActiveUserPowers]
    rewrites every such row to [is_active = true] with [level] defaulted
    to 1 and [upgrade_confirmed] to false, leaves all other rows alone,
    and returns exactly the rewritten rows; the database after the call
    differs from the database before it. *)
Theorem fetch_activates_dormant_powers f now d u :
  error f = false -> nonExpiredError f = false ->
  (forall i, updateFails f i = false) -> updatedError f = false ->
  List.NoDup (List.map up_id (user_powers d)) ->
  (forall r, List.In r (user_powers d) -> up_user_id r = u -> up_is_active r = false) ->
  (exists r, List.In r (user_powers d) /\ selected now u false r = true) ->
  let res := getActiveUserPowers f now d u in
  user_powers (fst res)
  = List.map (fun r => if selected now u false r then revived r else r) (user_powers d)
  /\ (forall r, up_is_active (revived r) = true
                /\ up_level (revived r)
                   = Some (match up_level r with Some l => l | None => 1 end)
                /\ up_upgrade_confirmed (revived r)
                   = Some (match up_upgrade_confirmed r with Some c => c | None => false end))
  /\ snd res
     = List.map (fun r => with_defaults (join_power d (revived r)))
         (List.filter (selected now u false) (user_powers d))
  /\ snd res <> []
  /\ fst res <> d.
Proof.
  intros E1 E2 E3 E4 Hnd Hoff (r0 & Hr0 & Hsel0) res.
  assert (Hq2 : List.In r0 (List.filter (selected now u false) (user_powers d))).
  { apply List.filter_In. auto. }
  assert (Hres : res
    = (with_user_powers d
         (List.map (fun r => if selected now u false r then revived r else r)
                   (user_powers d)),
       List.map (fun r => with_defaults (join_power d (revived r)))
         (List.filter (selected now u false) (user_powers d)))).
  { unfold res, getActiveUserPowers.
    rewrite E1, (no_active_selected now d u Hoff), E2.
    destruct (select_powers now d u false) as [|p ps] eqn:Hsel.
    { unfold select_powers in Hsel. apply List.map_eq_nil in Hsel.
      rewrite Hsel in Hq2. contradiction. }
    rewrite E4, <- Hsel, (repair_rows f now d u E3 Hnd). f_equal.
    unfold select_powers at 1. simpl user_powers.
    rewrite filter_map_comm, !List.map_map.
    transitivity (List.map
      (fun r => with_defaults (join_power d (if selected now u false r then revived r else r)))
      (List.filter (selected now u false) (user_powers d))).
    - f_equal. apply List.filter_ext_in. intros r Hr.
      destruct (selected now u false r) eqn:Hs.
      + now apply selected_revived.
      + unfold selected.
        destruct (String.eqb_spec (up_user_id r) u) as [E|E]; [|reflexivity].
        rewrite (Hoff r Hr E). reflexivity.
    - apply List.map_ext_in. intros r Hr. apply List.filter_In in Hr.
      destruct Hr as [_ Hs]. rewrite Hs. reflexivity. }
  rewrite Hres. simpl fst. simpl snd. repeat split.
  - intros Hnil. apply List.map_eq_nil in Hnil. rewrite Hnil in Hq2. contradiction.
  - intros Hd. apply (f_equal user_powers) in Hd. simpl in Hd.
    assert (Hfix : (if selected now u false r0 then revived r0 else r0) = r0).
    { exact (map_fixed _ _ Hd r0 Hr0). }
    rewrite Hsel0 in Hfix. apply (f_equal up_is_active) in Hfix.
    unfold selected in Hsel0. rewrite !Bool.andb_true_iff in Hsel0.
    destruct Hsel0 as [[_ Hflag] _]. simpl in Hfix.
    destruct (up_is_active r0); discriminate.
Qed.

End FetchClaims.

Lemma fetch_activates_dormant_powers_witness :
  AchievementActions.getActiveUserPowers AchievementActions.no_fetch_faults 1000
    Samples.dormant_db Samples.alice
  = ({| Ledger.achievements := []; Ledger.user_achievements := [];
        Ledger.special_powers := [Samples.double_trouble false];
        Ledger.user_powers := [AchievementActions.revived Samples.dormant_power] |},
     [AchievementActions.with_defaults
        (AchievementActions.join_power Samples.dormant_db
           (AchievementActions.revived Samples.dormant_power))])
  /\ fst (AchievementActions.getActiveUserPowers AchievementActions.no_fetch_faults 1000
            Samples.dormant_db Samples.alice) <> Samples.dormant_db.
Proof.
  assert (Hnd : List.NoDup (List.map Ledger.up_id (Ledger.user_powers Samples.dormant_db))).
  { simpl. constructor; [intros [] | constructor]. }
  assert (Hoff : forall r, List.In r (Ledger.user_powers Samples.dormant_db) ->
                 Ledger.up_user_id r = Samples.alice -> Ledger.up_is_active r = false).
  { intros r [<-|[]] _. reflexivity. }
  assert (Hex : exists r, List.In r (Ledger.user_powers Samples.dormant_db)
                /\ AchievementActions.selected 1000 Samples.alice false r = true).
  { exists Samples.dormant_power. split; [left|]; reflexivity. }
  destruct (fetch_activates_dormant_powers AchievementActions.no_fetch_faults 1000
              Samples.dormant_db Samples.alice eq_refl eq_refl (fun _ => eq_refl)
              eq_refl Hnd Hoff Hex) as (_ & _ & _ & _ & Hchanged).
  split; [reflexivity | exact Hchanged].
Defined.

(* ===================================================================== *)
(** * Properties of the hook helpers *)
(* ===================================================================== *)

Section MultiplierClaims.
Import Ledger AchievementActions UseAchievements Samples.

(** The multiplier reads the templates only: two lists of powers with the
    same templates give the same multiplier, whatever their rows (levels
    included) hold. *)
Lemma getClickMultiplier_reads_templates ps : forall qs,
  List.map power ps = List.map power qs ->
  getClickMultiplier ps = getClickMultiplier qs.
Proof.
  assert (H : forall qs, List.map power ps = List.map power qs ->
            List.map effect_value_or_one (List.filter is_multiplier ps)
            = List.map effect_value_or_one (List.filter is_multiplier qs)).
  { induction ps as [|p ps IH]; intros [|q qs] E; simpl in E; try discriminate.
    - reflexivity.
    - injection E as Ep Eps. simpl.
      assert (Em : is_multiplier p = is_multiplier q)
        by (unfold is_multiplier; now rewrite Ep).
      assert (Ev : effect_value_or_one p = effect_value_or_one q)
        by (unfold effect_value_or_one; now rewrite Ep).
      rewrite Em. destruct (is_multiplier q); simpl; rewrite (IH qs Eps);
        [rewrite Ev|]; reflexivity. }
  intros qs E. unfold getClickMultiplier. rewrite (H qs E). reflexivity.
Qed.

(** C8 (effective multiplier), evaluated on the code. One active
    multiplier power with base effect value 2 at level 3: the powers panel
    shows the effective bonus [2 * 3 = 6], but the click multiplier is [2];
    in general the multiplier is the same at every level. *)
Theorem click_multiplier_ignores_level :
  displayedEffect (active_multiplier 3 false) = 6%Q
  /\ getClickMultiplier [active_multiplier 3 false] = 2%Q
  /\ (forall l, getClickMultiplier [active_multiplier l false]
                = getClickMultiplier [active_multiplier 1 false]).
Proof.
  repeat split.
Qed.

End MultiplierClaims.

Section PowersEqualFacts.
Import Ledger AchievementActions UseAchievements.

Lemma powerMap_fold_notin (l : list UserPower) (m : gmap Z UserPower) k :
  ~ List.In k (List.map key_of l) ->
  List.fold_left (fun m p => <[up_id (row p) := p]> m) l m !! k = m !! k.
Proof.
  revert m. induction l as [|a l IH]; intros m Hk; simpl; [reflexivity|].
  rewrite IH by (intros H; apply Hk; right; exact H).
  apply lookup_insert_ne. intros E. apply Hk. left. exact E.
Qed.

Lemma powerMap_fold_found (l : list UserPower) (m : gmap Z UserPower) k p :
  List.fold_left (fun m p => <[up_id (row p) := p]> m) l m !! k = Some p ->
  (List.In p l /\ key_of p = k) \/ m !! k = Some p.
Proof.
  revert m. induction l as [|a l IH]; intros m H; simpl in H; [right; exact H|].
  destruct (IH _ H) as [[Hin Hk]|Hm].
  - left. split; [right|]; assumption.
  - destruct (Z.eq_dec (up_id (row a)) k) as [E|E].
    + subst k. rewrite lookup_insert_eq in Hm. injection Hm as <-.
      left. split; [left|]; reflexivity.
    + rewrite lookup_insert_ne in Hm by exact E. right. exact Hm.
Qed.

Lemma powerMap_fold_NoDup (l : list UserPower) (m : gmap Z UserPower) p :
  List.NoDup (List.map key_of l) -> List.In p l ->
  List.fold_left (fun m p => <[up_id (row p) := p]> m) l m !! key_of p = Some p.
Proof.
  revert m. induction l as [|a l IH]; intros m Hnd Hin; simpl; [contradiction|].
  inversion Hnd as [|? ? Hnotin Hnd']; subst.
  destruct Hin as [->|Hin].
  - rewrite powerMap_fold_notin by exact Hnotin. apply lookup_insert_eq.
  - apply IH; assumption.
Qed.

Lemma powerMap_lookup_In l k p :
  powerMap l !! k = Some p -> List.In p l /\ key_of p = k.
Proof.
  intros H. destruct (powerMap_fold_found l ∅ k p H) as [?|Hm]; [assumption|].
  rewrite lookup_empty in Hm. discriminate.
Qed.

Lemma option_bool_eqb_eq a b : option_bool_eqb a b = true <-> a = b.
Proof. destruct a as [[]|], b as [[]|]; simpl; split; congruence. Qed.

Lemma same_power_spec p1 p2 :
  key_of p1 = key_of p2 ->
  same_power p1 p2 = true <-> compared p1 = compared p2.
Proof.
  intros Hk. unfold same_power, compared. fold (key_of p1) (key_of p2).
  rewrite Hk. split.
  - destruct (Bool.eqb_spec (up_is_active (row p1)) (up_is_active (row p2))) as [Ea|];
      [|discriminate].
    destruct (Z.eqb_spec (up_power_id (row p1)) (up_power_id (row p2))) as [Ep|];
      [|discriminate].
    destruct (option_bool_eqb _ _) eqn:Ec; [|discriminate].
    apply option_bool_eqb_eq in Ec. simpl. intros El. apply Z.eqb_eq in El.
    congruence.
  - intros E. injection E as Ep Ea Ec El.
    rewrite Ea, Ep, Ec, El, Bool.eqb_reflx, Z.eqb_refl.
    rewrite (proj2 (option_bool_eqb_eq _ _) eq_refl). simpl. apply Z.eqb_refl.
Qed.

End PowersEqualFacts.

Section PowersEqualClaims.
Import Ledger AchievementActions UseAchievements Samples.

(** C9, as stated, fails: two views with the same power, the same active
    flag and the same level, differing only in [upgrade_confirmed],
    compare unequal. *)
Lemma views_differing_in_confirmation_compare_unequal :
  let cached := [active_multiplier 2 false] in
  let authoritative := [active_multiplier 2 true] in
  List.map (fun p => (up_id (row p), up_power_id (row p), up_is_active (row p),
                      level_or_one p)) cached
  = List.map (fun p => (up_id (row p), up_power_id (row p), up_is_active (row p),
                        level_or_one p)) authoritative
  /\ arePowersEqual cached authoritative = false.
Proof. split; reflexivity. Qed.

(** C9 (equality of power views), amended. [arePowersEqual] compares, for
    each power, the row id, [power_id], the active flag, the
    [upgrade_confirmed] flag and the level (1 when missing), and no
    timestamp or other field: it answers [true] exactly when the two views
    have the same length and every power of the second has its id in the
    first's map with those five fields equal. So any two views of the same
    length, the first with distinct ids, that agree on those five fields
    for every power compare equal, whatever their timestamps. *)
Theorem arePowersEqual_compares powers1 powers2 :
  (arePowersEqual powers1 powers2 = true <->
     List.length powers1 = List.length powers2
     /\ forall p2, List.In p2 powers2 ->
          exists p1, powerMap powers1 !! key_of p2 = Some p1
                     /\ compared p1 = compared p2)
  /\ (List.NoDup (List.map key_of powers1) ->
      List.length powers1 = List.length powers2 ->
      (forall p2, List.In p2 powers2 ->
         exists p1, List.In p1 powers1 /\ compared p1 = compared p2) ->
      arePowersEqual powers1 powers2 = true).
Proof.
  assert (Hiff : arePowersEqual powers1 powers2 = true <->
     List.length powers1 = List.length powers2
     /\ forall p2, List.In p2 powers2 ->
          exists p1, powerMap powers1 !! key_of p2 = Some p1
                     /\ compared p1 = compared p2).
  { unfold arePowersEqual.
    destruct (Nat.eqb_spec (List.length powers1) (List.length powers2)) as [El|El];
      simpl.
    - rewrite List.forallb_forall. split.
      + intros H. split; [exact El|]. intros p2 Hp2. specialize (H p2 Hp2).
        fold (key_of p2) in H.
        destruct (powerMap powers1 !! key_of p2) as [p1|] eqn:Hm; [|discriminate].
        exists p1. split; [reflexivity|].
        apply same_power_spec; [|exact H].
        apply (powerMap_lookup_In _ _ _ Hm).
      + intros [_ H] p2 Hp2. destruct (H p2 Hp2) as (p1 & Hm & Hc).
        fold (key_of p2). rewrite Hm. apply same_power_spec; [|exact Hc].
        apply (powerMap_lookup_In _ _ _ Hm).
    - split; [discriminate | intros [E _]; contradiction]. }
  split; [exact Hiff|].
  intros Hnd El Hagree. apply Hiff. split; [exact El|].
  intros p2 Hp2. destruct (Hagree p2 Hp2) as (p1 & Hin & Hc).
  exists p1. split; [|exact Hc].
  replace (key_of p2) with (key_of p1) by (unfold compared in Hc; unfold key_of; congruence).
  apply powerMap_fold_NoDup; assumption.
Qed.

Lemma arePowersEqual_compares_witness :
  arePowersEqual [active_multiplier 2 true]
    [ {| row := {| up_id := 7; up_user_id := alice; up_power_id := 1;
                   up_acquired_at := 5; up_expires_at := None;
                   up_is_active := true; up_uses_left := Some 3;
                   up_level := Some 2; up_upgrade_confirmed := Some true |};
         power := None |} ] = true.
Proof.
  apply (proj2 (arePowersEqual_compares _ _)).
  - simpl. constructor; [intros [] | constructor].
  - reflexivity.
  - intros p2 [<-|[]]. exists (active_multiplier 2 true).
    split; [left|]; reflexivity.
Defined.

End PowersEqualClaims.

(* ===================================================================== *)
(** * Properties of the click queue *)
(* ===================================================================== *)

Section ClickQueueFacts.
Import ClickerGame.

(** A click while a flush is in flight only queues. *)
Lemma handleClickUpdate_in_flight m g uid :
  user g = Some uid -> isProcessing g = true ->
  let h := handleClickUpdate m g in
  pendingClicks h = pendingClicks g + click_value m
  /\ clickCount h = clickCount g + click_value m
  /\ user h = user g /\ isProcessing h = true
  /\ suspended h = suspended g /\ requests h = requests g
  /\ refreshes h = refreshes g /\ toasts h = toasts g /\ timers h = timers g
  /\ serverConfirmedClicks h = serverConfirmedClicks g
  /\ lastProcessedTimestamp h = lastProcessedTimestamp g.
Proof.
  intros Hu Hp. unfold handleClickUpdate. rewrite Hu. simpl. rewrite Hp. simpl.
  repeat split.
Qed.

Lemma enqueue_all_in_flight ms : forall g uid,
  user g = Some uid -> isProcessing g = true ->
  let h := enqueue_all ms g in
  pendingClicks h = pendingClicks g + total_value ms
  /\ user h = user g /\ isProcessing h = true
  /\ suspended h = suspended g /\ requests h = requests g
  /\ refreshes h = refreshes g /\ toasts h = toasts g /\ timers h = timers g
  /\ serverConfirmedClicks h = serverConfirmedClicks g
  /\ lastProcessedTimestamp h = lastProcessedTimestamp g.
Proof.
  induction ms as [|m ms IH]; intros g uid Hu Hp; simpl.
  - repeat split; auto. simpl. lia.
  - destruct (handleClickUpdate_in_flight m g uid Hu Hp)
      as (H1 & _ & H3 & H4 & H5 & H6 & H7 & H8 & H9 & H10 & H11).
    assert (Hu' : user (handleClickUpdate m g) = Some uid) by congruence.
    destruct (IH _ uid Hu' H4)
      as (K1 & K2 & K3 & K4 & K5 & K6 & K7 & K8 & K9 & K10).
    unfold enqueue_all in *.
    repeat split; try congruence. rewrite K1, H1. unfold total_value. simpl. lia.
Qed.

(** The start of a flush. *)
Lemma processClickQueue_starts g uid :
  user g = Some uid -> isProcessing g = false -> pendingClicks g <> 0 ->
  processClickQueue g
  = suspend (AwaitingUpdate uid (pendingClicks g)
               (serverConfirmedClicks g + pendingClicks g))
      (send_update uid (serverConfirmedClicks g + pendingClicks g)
         {| user := user g; clickCount := clickCount g;
            pendingClicks := pendingClicks g; isProcessing := true;
            lastProcessedTimestamp := lastProcessedTimestamp g;
            serverConfirmedClicks := serverConfirmedClicks g;
            suspended := suspended g; requests := requests g;
            refreshes := refreshes g; toasts := toasts g; timers := timers g |}).
Proof.
  intros Hu Hp Hn. unfold processClickQueue. rewrite Hu, Hp. simpl.
  destruct (Z.eqb_spec (pendingClicks g) 0); [contradiction | reflexivity].
Qed.

(** A call that throws is caught and logged: the flush ends with no
    message shown and nothing subtracted. *)
Lemma thrown_update_is_silent h uid k n t1 t2 :
  suspended h = AwaitingUpdate uid k n \/ suspended h = AwaitingRetry uid k n ->
  let h' := resume (UpdateSettled Rejected) t1 t2 h in
  toasts h' = toasts h /\ requests h' = requests h
  /\ pendingClicks h' = pendingClicks h
  /\ serverConfirmedClicks h' = serverConfirmedClicks h
  /\ suspended h' = Idle /\ isProcessing h' = false.
Proof.
  intros [Hs|Hs]; unfold resume; rewrite Hs; repeat split.
Qed.

(** The backoff function, case by case. *)
Lemma calculateFibonacciBackoff_spec (d : Q) :
  (d == 0 -> calculateFibonacciBackoff d == 100)%Q
  /\ (~ d == 0 -> calculateFibonacciBackoff d == Qmin 5000 ((3 # 2) * d + d))%Q
  /\ (calculateFibonacciBackoff d <= 5000)%Q.
Proof.
  unfold calculateFibonacciBackoff. repeat split.
  - intros E. rewrite (proj2 (Qeq_bool_iff d 0) E).
    rewrite E. apply Q.min_l. discriminate.
  - intros E. destruct (Qeq_bool d 0) eqn:Hb.
    + apply Qeq_bool_iff in Hb. contradiction.
    + rewrite Q.min_comm. rewrite (Qmult_comm d). reflexivity.
  - apply Q.le_min_r.
Qed.

End ClickQueueFacts.

Section RetryClaims.
Import ClickerGame Samples.

(** C5, as stated, fails when the credential refresh itself fails: the
    flush is not retried at all (one request in total) before the failure
    is shown. *)
Lemma failed_refresh_is_not_retried :
  let sent := processClickQueue five_pending in
  let refreshing :=
    resume (UpdateSettled (Fulfilled (failed_with "Authentication required")))
           2000 2000 sent in
  let done := resume (RefreshSettled (Fulfilled true)) 2100 2100 refreshing in
  is_auth_issue (failed_with "Authentication required") = true
  /\ refreshes done = 1%nat
  /\ requests done = [(alice, alice, 15)]
  /\ toasts done = ["Session refresh failed"%string]
  /\ suspended done = Idle.
Proof. repeat split. Qed.

(** C5 (retry on authentication failure), amended. Let the update request
    of a flush come back with a failure.

    - If the failure is not classified as an authentication issue, the
      failure is shown ("Failed to update score") with no refresh and no
      retry.
    - If it is, credentials are refreshed once. When the refresh succeeds
      the same total is submitted again exactly once, and if that retry
      fails too the failure is shown ("Update failed after refresh") with
      no further request; when the refresh fails the failure is shown
      ("Session refresh failed") and the flush is not retried.

    In each terminal failure the flush ends with the pending clicks not
    subtracted: the pending count is what it was, plus the clicks made in
    the meantime. *)
Theorem auth_failure_retries_once h uid k n r msA msB t1 t2 t3 t4 t5 t6 :
  suspended h = AwaitingUpdate uid k n -> isProcessing h = true ->
  user h = Some uid -> success r = false ->
  let h1 := resume (UpdateSettled (Fulfilled r)) t1 t2 h in
  (is_auth_issue r = false ->
     toasts h1 = toasts h ++ ["Failed to update score"%string]
     /\ requests h1 = requests h /\ refreshes h1 = refreshes h
     /\ pendingClicks h1 = pendingClicks h
     /\ suspended h1 = Idle /\ isProcessing h1 = false)
  /\ (is_auth_issue r = true ->
      refreshes h1 = S (refreshes h) /\ requests h1 = requests h
      /\ toasts h1 = toasts h
      /\ (let h2 := resume (RefreshSettled (Fulfilled true)) t3 t4 (enqueue_all msA h1) in
          toasts h2 = toasts h ++ ["Session refresh failed"%string]
          /\ requests h2 = requests h /\ refreshes h2 = S (refreshes h)
          /\ pendingClicks h2 = pendingClicks h + total_value msA
          /\ suspended h2 = Idle /\ isProcessing h2 = false)
      /\ (let h2 := resume (RefreshSettled (Fulfilled false)) t3 t4 (enqueue_all msA h1) in
          requests h2 = requests h ++ [(uid, uid, n)]
          /\ refreshes h2 = S (refreshes h) /\ toasts h2 = toasts h
          /\ forall r', success r' = false ->
               let h3 := resume (UpdateSettled (Fulfilled r')) t5 t6 (enqueue_all msB h2) in
               toasts h3 = toasts h ++ ["Update failed after refresh"%string]
               /\ requests h3 = requests h ++ [(uid, uid, n)]
               /\ refreshes h3 = S (refreshes h)
               /\ pendingClicks h3 = pendingClicks h + total_value msA + total_value msB
               /\ suspended h3 = Idle /\ isProcessing h3 = false)).
Proof.
  intros Hs Hp Hu Hr h1. split.
  - intros Hauth.
    assert (E : h1 = finally t2 (toast_error "Failed to update score" h)).
    { unfold h1, resume. rewrite Hs, Hr, Hauth. reflexivity. }
    rewrite E. repeat split.
  - intros Hauth.
    assert (E : h1 = suspend (AwaitingRefresh uid k n) (send_refresh h)).
    { unfold h1, resume. rewrite Hs, Hr, Hauth. reflexivity. }
    assert (Hu1 : user h1 = Some uid) by (rewrite E; exact Hu).
    assert (Hp1 : isProcessing h1 = true) by (rewrite E; exact Hp).
    destruct (enqueue_all_in_flight msA h1 uid Hu1 Hp1)
      as (A1 & A2 & A3 & A4 & A5 & A6 & A7 & A8 & _ & _).
    assert (A4' : suspended (enqueue_all msA h1) = AwaitingRefresh uid k n)
      by (rewrite A4, E; reflexivity).
    split; [rewrite E; reflexivity|].
    split; [rewrite E; reflexivity|].
    split; [rewrite E; reflexivity|].
    split.
    + unfold resume. rewrite A4'. simpl.
      rewrite A7, A5, A6, A1, E. simpl. repeat split.
    + set (h2 := resume (RefreshSettled (Fulfilled false)) t3 t4 (enqueue_all msA h1)).
      assert (E2 : h2 = suspend (AwaitingRetry uid k n)
                          (send_update uid n (enqueue_all msA h1))).
      { unfold h2, resume. rewrite A4'. reflexivity. }
      assert (Hu2 : user h2 = Some uid) by (rewrite E2; simpl; congruence).
      assert (Hp2 : isProcessing h2 = true) by (rewrite E2; simpl; exact A3).
      destruct (enqueue_all_in_flight msB h2 uid Hu2 Hp2)
        as (B1 & B2 & B3 & B4 & B5 & B6 & B7 & B8 & _ & _).
      assert (R2 : requests h2 = requests h ++ [(uid, uid, n)])
        by (rewrite E2; simpl; rewrite A5, E; reflexivity).
      assert (F2 : refreshes h2 = S (refreshes h))
        by (rewrite E2; simpl; rewrite A6, E; reflexivity).
      assert (T2 : toasts h2 = toasts h)
        by (rewrite E2; simpl; rewrite A7, E; reflexivity).
      assert (P2 : pendingClicks h2 = pendingClicks h + total_value msA)
        by (rewrite E2; simpl; rewrite A1, E; reflexivity).
      assert (B4' : suspended (enqueue_all msB h2) = AwaitingRetry uid k n)
        by (rewrite B4, E2; reflexivity).
      cbv zeta. fold h2.
      split; [exact R2|]. split; [exact F2|]. split; [exact T2|].
      intros r' Hr'. unfold resume. rewrite B4', Hr'. simpl.
      rewrite B7, T2, B5, R2, B6, F2, B1, P2. repeat split.
Qed.

Lemma auth_failure_retries_once_witness :
  let sent := processClickQueue five_pending in
  let refreshing :=
    resume (UpdateSettled (Fulfilled (failed_with "Authentication required")))
           2000 2000 sent in
  let retrying := resume (RefreshSettled (Fulfilled false)) 2100 2100 refreshing in
  let done :=
    resume (UpdateSettled (Fulfilled (failed_with "Authentication required")))
           2200 2200 retrying in
  refreshes refreshing = 1%nat
  /\ requests retrying = [(alice, alice, 15); (alice, alice, 15)]
  /\ requests done = [(alice, alice, 15); (alice, alice, 15)]
  /\ toasts done = ["Update failed after refresh"%string]
  /\ pendingClicks done = 5.
Proof.
  destruct (auth_failure_retries_once (processClickQueue five_pending) alice 5 15
              (failed_with "Authentication required") [] [] 2000 2000 2100 2100
              2200 2200 eq_refl eq_refl eq_refl eq_refl)
    as (_ & H). destruct (H eq_refl) as (F1 & _ & _ & _ & R2 & _ & _ & H3).
  destruct (H3 (failed_with "Authentication required") eq_refl)
    as (T3 & R3 & _ & P3 & _).
  split; [exact F1 | split; [exact R2 | split; [exact R3 | split; [exact T3 | exact P3]]]].
Defined.

End RetryClaims.

Section BackoffClaims.
Import ClickerGame Samples.

(** C6, as stated, fails: the argument of the backoff function is the
    time since the last successful flush, not the previous delay. A flush
    succeeds at time 2000 with a click still pending and schedules the seed
    delay of 100 ms; the claim puts the next delay at
    [min(5000, 1.5 * 100 + 100) = 250] ms.

    - If the next flush succeeds too (answered at 2130, a click having
      arrived meanwhile), the delay it schedules is 100 ms again.
    - If the next flush fails (answered at 2120), the delay it schedules
      is [2.5 * 120 = 300] ms. *)
Lemma backoff_delay_follows_elapsed_time :
  let flush1 := enqueue_all [1%Q] (processClickQueue five_pending) in
  let wait1 :=
    resume (UpdateSettled (Fulfilled (confirmed_with (Some 15)))) 2000 2000 flush1 in
  let flush2 := enqueue_all [1%Q] (processClickQueue wait1) in
  let succeeded :=
    resume (UpdateSettled (Fulfilled (confirmed_with (Some 16)))) 2130 2130 flush2 in
  let failed :=
    resume (UpdateSettled (Fulfilled (failed_with "Store unavailable")))
           2120 2120 (processClickQueue wait1) in
  (timers wait1 = [100]
   /\ Qmin 5000 ((3 # 2) * 100 + 100) == 250
   /\ timers succeeded = [100; 100]
   /\ timers failed = [100; 600 # 2]
   /\ ~ (100 == 250) /\ ~ (600 # 2 == 250))%Q.
Proof.
  repeat split; try reflexivity.
  - intros H. vm_compute in H. discriminate.
  - intros H. vm_compute in H. discriminate.
Qed.

(** C6 (backoff), amended. Whenever a flush ends with clicks still pending
    it schedules the next one after
    [calculateFibonacciBackoff(now - lastProcessedTimestamp)], where
    [lastProcessedTimestamp] is the time of the last successful flush; a
    flush that ends with nothing pending schedules nothing. For an elapsed
    time [t] that delay is 100 ms when [t = 0] and
    [min(5000, 1.5 * t + t)] otherwise, so no scheduled delay exceeds the
    cap of 5000 ms. *)
Theorem backoff_follows_elapsed_time h c at_commit at_finally :
  suspended h <> Idle ->
  let h' := resume c at_commit at_finally h in
  suspended h' = Idle ->
  let elapsed := inject_Z (at_finally - lastProcessedTimestamp h') in
  (0 < pendingClicks h' -> timers h' = timers h ++ [calculateFibonacciBackoff elapsed])
  /\ (pendingClicks h' <= 0 -> timers h' = timers h)
  /\ (forall t : Q,
        (t == 0 -> calculateFibonacciBackoff t == 100)
        /\ (~ t == 0 -> calculateFibonacciBackoff t == Qmin 5000 ((3 # 2) * t + t))
        /\ calculateFibonacciBackoff t <= 5000)%Q.
Proof.
  intros Hbusy h' Hidle elapsed.
  assert (Hfin : exists g, h' = finally at_finally g /\ timers g = timers h).
  { unfold h', resume in *.
    destruct (suspended h) as [|uid k n|uid k n|uid k n] eqn:Hs; [contradiction| | |];
      destruct c as [[r|]|[err|]];
      try (rewrite Hs in Hidle; discriminate);
      try (eexists; split; [reflexivity|reflexivity]).
    - destruct (success r); [eexists; split; reflexivity|].
      destruct (is_auth_issue r); [discriminate|]. eexists; split; reflexivity.
    - destruct err; simpl in *; [eexists; split; reflexivity | discriminate].
    - destruct (success r); eexists; split; reflexivity. }
  destruct Hfin as (g & E & Ht). split; [|split].
  - intros Hpos. unfold elapsed. rewrite E in *. simpl in *.
    destruct (Z.gtb_spec (pendingClicks g) 0); [rewrite Ht; reflexivity | lia].
  - intros Hzero. rewrite E in *. simpl in *.
    destruct (Z.gtb_spec (pendingClicks g) 0); [lia | exact Ht].
  - apply calculateFibonacciBackoff_spec.
Qed.

Lemma backoff_follows_elapsed_time_witness :
  let flush1 := enqueue_all [1%Q] (processClickQueue five_pending) in
  let wait1 := resume (UpdateSettled (Fulfilled (confirmed_with (Some 15)))) 2000 2010 flush1 in
  timers wait1 = [calculateFibonacciBackoff (inject_Z (2010 - 2000))]
  /\ (calculateFibonacciBackoff (inject_Z (2010 - 2000)) == 25)%Q.
Proof.
  destruct (backoff_follows_elapsed_time
              (enqueue_all [1%Q] (processClickQueue five_pending))
              (UpdateSettled (Fulfilled (confirmed_with (Some 15)))) 2000 2010)
    as (H1 & _ & _).
  - simpl. discriminate.
  - reflexivity.
  - split; [apply H1; reflexivity | reflexivity].
Defined.

End BackoffClaims.

(* ===================================================================== *)
(** * Monotonicity of the confirmed total *)
(* ===================================================================== *)

Section LedgerFacts.
Import ClickerGame Aggregator.

Lemma owned_by_spec u r : owned_by u r = true <-> click_id r = u.
Proof. unfold owned_by. apply String.eqb_eq. Qed.

Lemma find_none_existsb {A} (f : A -> bool) l :
  List.existsb f l = false -> List.find f l = None.
Proof.
  induction l as [|a l IH]; simpl; [reflexivity|].
  destruct (f a); simpl; [discriminate | exact IH].
Qed.

Lemma find_app_miss {A} (f : A -> bool) l l' :
  List.find f l = None -> List.find f (l ++ l') = List.find f l'.
Proof.
  induction l as [|a l IH]; simpl; [reflexivity|].
  destruct (f a); [discriminate | exact IH].
Qed.

Lemma find_app_hit {A} (f : A -> bool) l l' x :
  List.find f l = Some x -> List.find f (l ++ l') = Some x.
Proof.
  induction l as [|a l IH]; simpl; [discriminate|].
  destruct (f a); [trivial | exact IH].
Qed.

Lemma or_else_some_zero n : or_else (Some n) 0 = n.
Proof. unfold or_else. destruct (Z.eqb_spec n 0); congruence. Qed.

Lemma or_else_same n : or_else (Some n) n = n.
Proof. unfold or_else. destruct (n =? 0); reflexivity. Qed.

Lemma getTotal_upsert_same u n clicks : getTotal (upsert u n clicks) u = n.
Proof.
  unfold getTotal, upsert. destruct (List.existsb (owned_by u) clicks) eqn:Hex.
  - induction clicks as [|r l IH]; simpl in *; [discriminate|].
    destruct (owned_by u r) eqn:Hr; simpl.
    + unfold owned_by in *. simpl. rewrite Hr. simpl. apply or_else_some_zero.
    + rewrite Hr. apply IH. exact Hex.
  - rewrite (find_app_miss _ _ _ (find_none_existsb _ _ Hex)). simpl.
    unfold owned_by. simpl. rewrite String.eqb_refl. simpl. apply or_else_some_zero.
Qed.

Lemma getTotal_upsert_other u v n clicks :
  u <> v -> getTotal (upsert u n clicks) v = getTotal clicks v.
Proof.
  intros Hne. unfold getTotal, upsert.
  destruct (List.existsb (owned_by u) clicks) eqn:Hex.
  - clear Hex. induction clicks as [|r l IH]; simpl; [reflexivity|].
    destruct (owned_by u r) eqn:Hr.
    + apply owned_by_spec in Hr.
      assert (Hv : owned_by v r = false).
      { apply Bool.not_true_is_false. rewrite owned_by_spec. congruence. }
      change (owned_by v {| click_id := click_id r; qty := Some n |})
        with (owned_by v r).
      rewrite Hv. exact IH.
    + destruct (owned_by v r); [reflexivity | exact IH].
  - destruct (List.find (owned_by v) clicks) as [x|] eqn:Hf.
    + rewrite (find_app_hit _ _ _ _ Hf). reflexivity.
    + rewrite (find_app_miss _ _ _ Hf). simpl. unfold owned_by. simpl.
      destruct (String.eqb_spec u v); [contradiction | reflexivity].
Qed.

(** The stored totals never decrease under [setTotal]. *)
Lemma setTotal_monotone clicks u n v :
  getTotal clicks v <= getTotal (fst (setTotal clicks u n)) v.
Proof.
  unfold setTotal. destruct (Z.ltb_spec n (getTotal clicks u)); simpl; [lia|].
  destruct (String.eqb_spec u v) as [<-|Hne].
  - rewrite getTotal_upsert_same. lia.
  - rewrite getTotal_upsert_other by exact Hne. lia.
Qed.

Lemma setTotal_rejects clicks u n :
  n < getTotal clicks u -> setTotal clicks u n = (clicks, None).
Proof.
  intros H. unfold setTotal. destruct (Z.ltb_spec n (getTotal clicks u)); [reflexivity|lia].
Qed.

Lemma setTotal_accepts clicks u n :
  getTotal clicks u <= n -> setTotal clicks u n = (upsert u n clicks, Some n).
Proof.
  intros H. unfold setTotal. destruct (Z.ltb_spec n (getTotal clicks u)); [lia|reflexivity].
Qed.

End LedgerFacts.

Section FlushClaims.
Import ClickerGame Aggregator Samples.

(** What the update action answers: a refusal, or success with the total
    it was sent, which is then the stored total. *)
Lemma updateClickAction_answer clicks u n :
  let answer := snd (updateClickAction clicks u n) in
  (success answer = true ->
     getTotal clicks u <= n /\ newCount answer = Some n
     /\ getTotal (fst (updateClickAction clicks u n)) u = n)
  /\ (success answer = false ->
      n < getTotal clicks u /\ fst (updateClickAction clicks u n) = clicks).
Proof.
  unfold updateClickAction, setTotal.
  destruct (Z.ltb_spec n (getTotal clicks u)) as [Hlow|Hok]; simpl.
  - split; [discriminate | intros _; split; [exact Hlow | reflexivity]].
  - split; [|discriminate]. intros _.
    split; [exact Hok|]. split; [reflexivity | apply getTotal_upsert_same].
Qed.

(** C2 (flush carries the full total). A flush that starts with a
    positive pending count issues one update request carrying
    [serverConfirmedClicks + pendingClicks], the full new total; clicks
    made while it is in flight issue no request of their own. When the
    store answers that request with success, whatever it held, the
    confirmed total is set to the total the answer returns, which is the
    total now stored; exactly the flushed amount is subtracted from the
    pending count, so the clicks made in flight, and only they, remain
    pending for the next cycle. *)
Theorem flush_carries_full_total g uid ms clicks at_commit at_finally :
  user g = Some uid -> isProcessing g = false -> 0 < pendingClicks g ->
  let newTotal := serverConfirmedClicks g + pendingClicks g in
  let sent := processClickQueue g in
  let inflight := enqueue_all ms sent in
  let answer := snd (updateClickAction clicks uid newTotal) in
  let done := resume (UpdateSettled (Fulfilled answer)) at_commit at_finally inflight in
  requests sent = requests g ++ [(uid, uid, newTotal)]
  /\ requests inflight = requests sent
  /\ (success answer = true ->
      exists returned,
        newCount answer = Some returned
        /\ serverConfirmedClicks done = returned
        /\ getTotal (fst (updateClickAction clicks uid newTotal)) uid = returned
        /\ requests done = requests sent
        /\ pendingClicks done = pendingClicks inflight - pendingClicks g
        /\ pendingClicks done = total_value ms
        /\ isProcessing done = false).
Proof.
  intros Hu Hp Hpos newTotal sent inflight answer done.
  assert (Hsent : sent = suspend (AwaitingUpdate uid (pendingClicks g) newTotal)
            (send_update uid newTotal
               {| user := user g; clickCount := clickCount g;
                  pendingClicks := pendingClicks g; isProcessing := true;
                  lastProcessedTimestamp := lastProcessedTimestamp g;
                  serverConfirmedClicks := serverConfirmedClicks g;
                  suspended := suspended g; requests := requests g;
                  refreshes := refreshes g; toasts := toasts g;
                  timers := timers g |})).
  { apply processClickQueue_starts; [assumption | assumption | lia]. }
  assert (Hu1 : user sent = Some uid) by (rewrite Hsent; exact Hu).
  assert (Hp1 : isProcessing sent = true) by (rewrite Hsent; reflexivity).
  destruct (enqueue_all_in_flight ms sent uid Hu1 Hp1)
    as (K1 & K2 & K3 & K4 & K5 & K6 & K7 & K8 & K9 & K10).
  fold inflight in K1, K2, K3, K4, K5, K6, K7, K8, K9, K10.
  assert (Hpend : pendingClicks sent = pendingClicks g) by (rewrite Hsent; reflexivity).
  split; [rewrite Hsent; reflexivity|]. split; [exact K5|].
  intros Hs.
  assert (Hdone : done = finally at_finally
            (commit answer (pendingClicks g) newTotal at_commit inflight)).
  { unfold done, resume. rewrite K4, Hsent. simpl. rewrite Hs. reflexivity. }
  destruct (proj1 (updateClickAction_answer clicks uid newTotal) Hs) as (_ & Hn & Hst).
  fold answer in Hn.
  exists newTotal. split; [exact Hn|]. split; [|split; [exact Hst|]].
  - rewrite Hdone. simpl. rewrite Hn. apply or_else_same.
  - rewrite Hdone. simpl. repeat split; [exact K5 | rewrite K1, Hpend; lia].
Qed.

Lemma flush_carries_full_total_witness :
  let sent := processClickQueue five_pending in
  let answer := snd (updateClickAction [{| click_id := alice; qty := Some 10 |}] alice 15) in
  let done := resume (UpdateSettled (Fulfilled answer)) 2000 2000
                (enqueue_all [1%Q; 2%Q] sent) in
  requests sent = [(alice, alice, 15)]
  /\ success answer = true
  /\ serverConfirmedClicks done = 15
  /\ pendingClicks done = 3.
Proof.
  destruct (flush_carries_full_total five_pending alice [1%Q; 2%Q]
              [{| click_id := alice; qty := Some 10 |}] 2000 2000
              eq_refl eq_refl eq_refl) as (H1 & _ & H3).
  destruct (H3 eq_refl) as (returned & Hr & Hc & _ & _ & _ & Hp & _).
  assert (E : returned = 15) by (cbv in Hr; congruence).
  split; [exact H1|]. split; [reflexivity|].
  split; [|exact Hp].
  rewrite E in Hc. exact Hc.
Defined.

End FlushClaims.


Section AggregatorFacts.
Import ClickerGame Aggregator.

Lemma chain_weaken uid msgs : forall lo lo' hi,
  lo' <= lo -> chain uid lo msgs hi -> chain uid lo' msgs hi.
Proof.
  induction msgs as [|m msgs IH]; intros lo lo' hi Hle H; simpl in *; [lia|].
  destruct (carried uid m) as [v|].
  - destruct H as [H1 H2]. split; [lia | exact H2].
  - exact (IH _ _ _ Hle H).
Qed.

Lemma chain_tail uid m msgs lo hi :
  chain uid lo (m :: msgs) hi -> chain uid lo msgs hi.
Proof.
  simpl. destruct (carried uid m) as [v|]; [|trivial].
  intros [H1 H2]. exact (chain_weaken _ _ _ _ _ H1 H2).
Qed.

Lemma chain_raise uid msgs : forall lo hi hi',
  hi <= hi' -> chain uid lo msgs hi -> chain uid lo msgs hi'.
Proof.
  induction msgs as [|m msgs IH]; intros lo hi hi' Hle H; simpl in *; [lia|].
  destruct (carried uid m) as [v|].
  - destruct H as [H1 H2]. split; [exact H1 | exact (IH _ _ _ Hle H2)].
  - exact (IH _ _ _ Hle H).
Qed.

Lemma chain_post_value uid m v msgs : forall lo hi hi',
  carried uid m = Some v -> hi <= v -> v <= hi' ->
  chain uid lo msgs hi -> chain uid lo (msgs ++ [m]) hi'.
Proof.
  induction msgs as [|a msgs IH]; intros lo hi hi' Hm H1 H2 H; simpl in *.
  - rewrite Hm. split; lia.
  - destruct (carried uid a) as [x|].
    + destruct H as [Hx H]. split; [exact Hx | exact (IH _ _ _ Hm H1 H2 H)].
    + exact (IH _ _ _ Hm H1 H2 H).
Qed.

Lemma chain_post_none uid m msgs : forall lo hi hi',
  carried uid m = None -> hi <= hi' ->
  chain uid lo msgs hi -> chain uid lo (msgs ++ [m]) hi'.
Proof.
  induction msgs as [|a msgs IH]; intros lo hi hi' Hm H1 H; simpl in *.
  - rewrite Hm. lia.
  - destruct (carried uid a) as [x|].
    + destruct H as [Hx H]. split; [exact Hx | exact (IH _ _ _ Hm H1 H)].
    + exact (IH _ _ _ Hm H1 H).
Qed.

Lemma no_reply_filter msgs : has_reply msgs = false <-> List.filter is_reply msgs = [].
Proof.
  unfold has_reply. induction msgs as [|m msgs IH]; simpl; [tauto|].
  destruct (is_reply m); simpl; [split; discriminate | exact IH].
Qed.

Lemma no_reply_answers n msgs : has_reply msgs = false -> List.Forall (answers n) msgs.
Proof.
  unfold has_reply. induction msgs as [|m msgs IH]; simpl; intros H; [constructor|].
  apply Bool.orb_false_iff in H. destruct H as [Hm H].
  constructor; [|exact (IH H)]. destruct m; [exact I | discriminate].
Qed.

Lemma processClickQueue_lock g :
  user (processClickQueue g) = user g
  /\ serverConfirmedClicks (processClickQueue g) = serverConfirmedClicks g
  /\ ((pending_call (processClickQueue g) = pending_call g
       /\ isProcessing (processClickQueue g) = isProcessing g)
      \/ (isProcessing g = false /\ isProcessing (processClickQueue g) = true
          /\ exists uid n, user g = Some uid
               /\ pending_call (processClickQueue g) = Some (uid, n))).
Proof.
  unfold processClickQueue. destruct (user g) as [uid|] eqn:Eu; [|auto].
  destruct (isProcessing g || (pendingClicks g =? 0)) eqn:E; [auto|].
  apply Bool.orb_false_iff in E. destruct E as [Ei _].
  split; [reflexivity|]. split; [reflexivity|]. right.
  split; [exact Ei|]. split; [reflexivity|].
  exists uid, (serverConfirmedClicks g + pendingClicks g). split; reflexivity.
Qed.

Lemma handleClickUpdate_lock m g :
  user (handleClickUpdate m g) = user g
  /\ serverConfirmedClicks (handleClickUpdate m g) = serverConfirmedClicks g
  /\ ((pending_call (handleClickUpdate m g) = pending_call g
       /\ isProcessing (handleClickUpdate m g) = isProcessing g)
      \/ (isProcessing g = false /\ isProcessing (handleClickUpdate m g) = true
          /\ exists uid n, user g = Some uid
               /\ pending_call (handleClickUpdate m g) = Some (uid, n))).
Proof.
  unfold handleClickUpdate. destruct (user g) as [uid|] eqn:Eu; [|simpl; auto].
  cbn [isProcessing]. destruct (isProcessing g) eqn:Ei; cbn [negb].
  - split; [reflexivity|]. split; [reflexivity|]. left. split; reflexivity.
  - match goal with |- context [processClickQueue ?q] =>
      destruct (processClickQueue_lock q) as (H1 & H2 & H3) end.
    cbn [user serverConfirmedClicks isProcessing] in H1, H2, H3.
    rewrite H1, H2. split; [reflexivity|]. split; [reflexivity|].
    destruct H3 as [[H3 H4]|(_ & H4 & u & n & H5 & H6)].
    + left. split; [exact H3 | exact H4].
    + right. split; [reflexivity|]. split; [exact H4|].
      exists u, n. split; [exact H5 | exact H6].
Qed.

Lemma resume_lock c t1 t2 g :
  user (resume c t1 t2 g) = user g
  /\ (pending_call (resume c t1 t2 g) = None
      \/ (pending_call (resume c t1 t2 g) = pending_call g
          /\ isProcessing (resume c t1 t2 g) = isProcessing g)).
Proof.
  unfold resume.
  destruct (suspended g) as [|uid k n|uid k n|uid k n] eqn:Es;
    destruct c as [[r|]|[err|]]; simpl; auto;
    try (split; [reflexivity|]; right; unfold pending_call; rewrite Es; auto).
  - destruct (success r); simpl; auto.
    destruct (is_auth_issue r); simpl; auto.
    split; [reflexivity|]. right. unfold pending_call. rewrite Es. auto.
  - destruct err; simpl; auto.
    split; [reflexivity|]. right. unfold pending_call. rewrite Es. auto.
  - destruct (success r); simpl; auto.
Qed.

Lemma resume_confirmed c t1 t2 g :
  serverConfirmedClicks (resume c t1 t2 g) = serverConfirmedClicks g
  \/ exists u n r,
       pending_call g = Some (u, n) /\ c = UpdateSettled (Fulfilled r)
       /\ success r = true
       /\ serverConfirmedClicks (resume c t1 t2 g) = or_else (newCount r) n.
Proof.
  unfold resume, pending_call.
  destruct (suspended g) as [|uid k n|uid k n|uid k n];
    destruct c as [[r|]|[err|]]; simpl; auto.
  - destruct (success r) eqn:Er; simpl.
    + right. exists uid, n, r. auto.
    + destruct (is_auth_issue r); auto.
  - destruct err; auto.
  - destruct (success r) eqn:Er; simpl; auto.
    right. exists uid, n, r. auto.
Qed.

Lemma fetchScores_lock rows g :
  user (fetchScores rows g) = user g
  /\ pending_call (fetchScores rows g) = pending_call g
  /\ isProcessing (fetchScores rows g) = isProcessing g
  /\ match user g with
     | Some uid => serverConfirmedClicks (fetchScores rows g) = getTotal rows uid
     | None => serverConfirmedClicks (fetchScores rows g) = serverConfirmedClicks g
     end.
Proof.
  unfold fetchScores, getTotal. destruct (user g) as [uid|] eqn:Eu; [|auto].
  change (fun click : ClickRow => String.eqb (click_id click) uid) with (owned_by uid).
  destruct (List.find (owned_by uid) rows); simpl; rewrite ?Eu; auto.
Qed.

Lemma updateClickAction_ledger l u n :
  fst (updateClickAction l u n) = fst (setTotal l u n).
Proof. unfold updateClickAction. destruct (setTotal l u n) as [l' [t|]]; reflexivity. Qed.

End AggregatorFacts.

Section MonotonicityClaims.
Import ClickerGame Aggregator Samples.

Lemma advances_refl w : in_step w -> advances w w.
Proof. intros H. unfold advances. repeat split; auto; lia. Qed.

Lemma advances_trans w1 w2 w3 : advances w1 w2 -> advances w2 w3 -> advances w1 w3.
Proof.
  intros (A1 & A2 & A3 & A4) (B1 & B2 & B3 & B4). unfold advances.
  repeat split; try assumption; try lia; try congruence.
  intros v. specialize (A4 v). specialize (B4 v). lia.
Qed.

(** The client moves on its own: a click or a flush trigger. *)
Lemma advances_client l g g' msgs :
  in_step {| ledger := l; game := g; inbox := msgs |} ->
  user g' = user g ->
  serverConfirmedClicks g' = serverConfirmedClicks g ->
  ((pending_call g' = pending_call g /\ isProcessing g' = isProcessing g)
   \/ (isProcessing g = false /\ isProcessing g' = true
       /\ exists uid n, user g = Some uid /\ pending_call g' = Some (uid, n))) ->
  advances {| ledger := l; game := g; inbox := msgs |}
           {| ledger := l; game := g'; inbox := msgs |}.
Proof.
  intros Hin Hu Hc Hl. unfold advances, in_step, confirmed in *. simpl in *.
  rewrite Hu, Hc. split; [|repeat split; lia].
  destruct (user g) as [uid|] eqn:Eu.
  - destruct Hin as (Hch & Hcnt & Hfit). split; [exact Hch|]. split; [exact Hcnt|].
    destruct Hl as [[Hp Hi]|(Hi & Hi' & u & n & Hu' & Hp)].
    + rewrite Hp, Hi. exact Hfit.
    + rewrite Hp. injection Hu' as <-.
      destruct (pending_call g) as [[u' n']|].
      * destruct Hfit as (_ & Hlock & _). congruence.
      * split; [reflexivity|]. split; [exact Hi'|]. apply no_reply_answers. exact Hfit.
  - destruct Hl as [[Hp _]|(_ & _ & u & n & Hu' & _)]; [congruence | discriminate].
Qed.

(** The store serves a request and its result sets out. *)
Lemma advances_post l l' g msgs m :
  in_step {| ledger := l; game := g; inbox := msgs |} ->
  (forall v, getTotal l v <= getTotal l' v) ->
  (forall uid, user g = Some uid ->
     match carried uid m with
     | Some v => getTotal l uid <= v <= getTotal l' uid
     | None => True
     end) ->
  (is_reply m = true ->
   has_reply msgs = false
   /\ exists u n, pending_call g = Some (u, n) /\ answers n m) ->
  advances {| ledger := l; game := g; inbox := msgs |}
           {| ledger := l'; game := g; inbox := msgs ++ [m] |}.
Proof.
  intros Hin Hle Hval Hrep. unfold advances, in_step, confirmed in *. simpl in *.
  split; [|repeat split; auto; lia].
  destruct (user g) as [uid|] eqn:Eu.
  - destruct Hin as (Hch & Hcnt & Hfit). specialize (Hval uid eq_refl).
    split; [|split].
    + destruct (carried uid m) as [v|] eqn:Ev.
      * apply (chain_post_value uid m v msgs _ (getTotal l uid)); auto; lia.
      * apply (chain_post_none uid m msgs _ (getTotal l uid)); auto.
    + rewrite List.filter_app, List.length_app. simpl.
      destruct (is_reply m) eqn:Em; simpl; [|lia].
      destruct (Hrep eq_refl) as [Hno _]. apply no_reply_filter in Hno.
      rewrite Hno. simpl. lia.
    + destruct (pending_call g) as [[u n]|] eqn:Ep.
      * destruct Hfit as (H1 & H2 & H3). split; [exact H1|]. split; [exact H2|].
        apply List.Forall_app. split; [exact H3|]. constructor; [|constructor].
        destruct (is_reply m) eqn:Em.
        -- destruct (Hrep eq_refl) as (_ & u' & n' & E & Ha). congruence.
        -- destruct m; [exact I | discriminate].
      * unfold has_reply in *. rewrite List.existsb_app, Hfit. simpl.
        destruct (is_reply m) eqn:Em; [|reflexivity].
        destruct (Hrep eq_refl) as (_ & u' & n' & E & _). discriminate.
  - exact Hin.
Qed.

(** The oldest result on its way reaches the client. *)
Lemma advances_receive l g m msgs t1 t2 :
  in_step {| ledger := l; game := g; inbox := m :: msgs |} ->
  advances {| ledger := l; game := g; inbox := m :: msgs |}
           {| ledger := l; game := receive m t1 t2 g; inbox := msgs |}.
Proof.
  intros Hin. unfold advances, in_step, confirmed in *. simpl in *.
  destruct m as [rows|c]; simpl.
  - (* a fetch result *)
    destruct (fetchScores_lock rows g) as (Hu & Hp & Hi & Hc).
    rewrite Hu, Hp, Hi. destruct (user g) as [uid|] eqn:Eu.
    + destruct Hin as ((Hlo & Hch) & Hcnt & Hfit). rewrite Hc.
      split; [|repeat split; auto; lia].
      split; [exact Hch|]. split; [exact Hcnt|].
      destruct (pending_call g) as [[u n]|]; [|exact Hfit].
      destruct Hfit as (H1 & H2 & H3). inversion H3; subst. auto.
    + rewrite Hc. repeat split; auto; lia.
  - (* the reply to the pending call *)
    destruct (resume_lock c t1 t2 g) as (Hu & Hl).
    rewrite Hu. destruct (user g) as [uid|] eqn:Eu.
    + destruct Hin as (Hch & Hcnt & Hfit).
      assert (Hno : has_reply msgs = false).
      { apply no_reply_filter. destruct (List.filter is_reply msgs); [reflexivity|].
        simpl in Hcnt. lia. }
      destruct (pending_call g) as [[u n]|] eqn:Ep; [|discriminate].
      destruct Hfit as (-> & Hlock & Hans). inversion Hans as [|? ? Ha Hrest]; subst.
      assert (Hconf : chain uid (serverConfirmedClicks (resume c t1 t2 g)) msgs
                        (getTotal l uid)
                      /\ serverConfirmedClicks g
                         <= serverConfirmedClicks (resume c t1 t2 g)).
      { destruct (resume_confirmed c t1 t2 g) as [E|(u' & n' & r & E1 & -> & Er & E)].
        - rewrite E. split; [|lia].
          exact (chain_tail uid (Reply c) msgs _ _ Hch).
        - rewrite E. assert (n' = n) by congruence. subst n'.
          simpl in Ha. rewrite (Ha Er), or_else_same.
          simpl in Hch. rewrite Er, (Ha Er) in Hch. destruct Hch as [H1 H2].
          split; assumption. }
      destruct Hconf as [Hch' Hle].
      split; [|repeat split; auto; lia].
      split; [exact Hch'|]. split.
      { apply no_reply_filter in Hno. rewrite Hno. simpl. lia. }
      destruct Hl as [Hl|[Hl Hi]].
      * rewrite Hl. exact Hno.
      * rewrite Hl, Hi. split; [reflexivity|]. split; [exact Hlock|].
        apply no_reply_answers. exact Hno.
    + destruct Hl as [Hl|[Hl _]]; [|rewrite Hl].
      * split; [exact Hl|].
        destruct (resume_confirmed c t1 t2 g) as [E|(u' & n' & r & E1 & _)];
          [rewrite E; repeat split; auto; lia | congruence].
      * split; [exact Hin|].
        destruct (resume_confirmed c t1 t2 g) as [E|(u' & n' & r & E1 & _)];
          [rewrite E; repeat split; auto; lia | congruence].
Qed.

Lemma serve_update_advances f uid n l g msgs :
  in_step {| ledger := l; game := g; inbox := msgs |} ->
  has_reply msgs = false ->
  pending_call g = Some (uid, n) ->
  advances {| ledger := l; game := g; inbox := msgs |}
           (serve_update f uid n {| ledger := l; game := g; inbox := msgs |}).
Proof.
  intros Hin Hno Hp.
  assert (Hu : user g = Some uid).
  { unfold in_step in Hin. simpl in Hin. destruct (user g) as [u|].
    - destruct Hin as (_ & _ & Hfit). rewrite Hp in Hfit. destruct Hfit as [-> _].
      reflexivity.
    - congruence. }
  assert (Hrep : forall m, answers n m ->
            is_reply m = true ->
            has_reply msgs = false /\ exists u n', pending_call g = Some (u, n') /\ answers n' m).
  { intros m Hm _. split; [exact Hno|]. exists uid, n. split; [exact Hp | exact Hm]. }
  destruct f; unfold serve_update, post; simpl ledger; simpl game; simpl inbox.
  - unfold updateClickAction, setTotal.
    destruct (Z.ltb_spec n (getTotal l uid)) as [Hlow|Hok].
    + apply advances_post; [exact Hin | intros v; lia | intros u _; exact I |].
      apply Hrep. simpl. discriminate.
    + apply advances_post; [exact Hin | | |].
      * intros v. generalize (setTotal_monotone l uid n v).
        rewrite setTotal_accepts by exact Hok. simpl. trivial.
      * intros u Hu'. assert (u = uid) by congruence. subst u. simpl.
        rewrite getTotal_upsert_same. lia.
      * apply Hrep. simpl. reflexivity.
  - apply advances_post; [exact Hin | intros v; lia | intros u _; exact I |].
    apply Hrep. simpl. discriminate.
  - apply advances_post; [exact Hin | intros v; lia | intros u _; exact I |].
    apply Hrep. simpl. discriminate.
  - apply advances_post; [exact Hin | intros v; lia | intros u _; exact I |].
    apply Hrep. exact I.
  - apply advances_post; [exact Hin | | intros u _; exact I |].
    + intros v. rewrite updateClickAction_ledger. apply setTotal_monotone.
    + apply Hrep. exact I.
Qed.

Lemma advances_ledger l l' g msgs :
  in_step {| ledger := l; game := g; inbox := msgs |} ->
  (forall v, getTotal l v <= getTotal l' v) ->
  advances {| ledger := l; game := g; inbox := msgs |}
           {| ledger := l'; game := g; inbox := msgs |}.
Proof.
  intros Hin Hle. unfold advances, in_step, confirmed in *. simpl in *.
  split; [|repeat split; auto; lia].
  destruct (user g) as [uid|]; [|exact Hin].
  destruct Hin as (Hch & Hrest). split; [|exact Hrest].
  exact (chain_raise uid msgs _ _ _ (Hle uid) Hch).
Qed.

Lemma step_advances e w :
  in_step w ->
  match e with Delivered i _ _ => i = 0%nat | _ => True end ->
  advances w (step e w).
Proof.
  destruct w as [l g msgs]. intros Hin He.
  destruct e as [m| | |f|i t1 t2|u n]; simpl.
  - destruct (handleClickUpdate_lock m g) as (H1 & H2 & H3).
    apply advances_client; assumption.
  - destruct (processClickQueue_lock g) as (H1 & H2 & H3).
    apply advances_client; assumption.
  - apply (advances_post l l g msgs (FetchResult l));
      [exact Hin | intros v; lia | intros uid _; simpl; lia | discriminate].
  - destruct (has_reply msgs) eqn:Hno; [apply advances_refl; exact Hin|].
    destruct (suspended g) as [|uid k n|uid k n|uid k n] eqn:Es.
    + apply advances_refl. exact Hin.
    + apply serve_update_advances; [exact Hin | exact Hno |].
      unfold pending_call. rewrite Es. reflexivity.
    + unfold serve_refresh, post. simpl.
      apply advances_post; [exact Hin | intros v; lia | intros u _; exact I |].
      intros _. split; [exact Hno|]. exists uid, n. split; [|exact I].
      unfold pending_call. rewrite Es. reflexivity.
    + apply serve_update_advances; [exact Hin | exact Hno |].
      unfold pending_call. rewrite Es. reflexivity.
  - subst i. destruct msgs as [|m msgs]; simpl; [apply advances_refl; exact Hin|].
    apply advances_receive. exact Hin.
  - apply advances_ledger; [exact Hin|]. intros v. apply setTotal_monotone.
Qed.

Lemma run_advances es : forall w,
  in_step w -> in_order es = true -> advances w (run es w).
Proof.
  induction es as [|e es IH]; intros w Hin Hord; simpl.
  - apply advances_refl. exact Hin.
  - simpl in Hord. apply andb_prop in Hord. destruct Hord as [He Hord].
    assert (Hstep : advances w (step e w)).
    { apply step_advances; [exact Hin|].
      destruct e; try exact I. apply Nat.eqb_eq. exact He. }
    eapply advances_trans; [exact Hstep|]. apply IH; [apply Hstep | exact Hord].
Qed.

(** In whatever order results arrive, no step changes the signed-in user
    or lowers a stored total. *)
Lemma step_stored e w :
  user (game (step e w)) = user (game w)
  /\ forall v, getTotal (ledger w) v <= getTotal (ledger (step e w)) v.
Proof.
  destruct w as [l g msgs]. destruct e as [m| | |f|i t1 t2|u n]; simpl.
  - split; [apply handleClickUpdate_lock | intros v; lia].
  - split; [apply processClickQueue_lock | intros v; lia].
  - split; [reflexivity | intros v; lia].
  - destruct (has_reply msgs); [simpl; split; [reflexivity | intros v; lia]|].
    assert (Hserve : forall uid n,
              user (game (serve_update f uid n {| ledger := l; game := g; inbox := msgs |}))
              = user g
              /\ forall v, getTotal l v
                           <= getTotal (ledger (serve_update f uid n
                                  {| ledger := l; game := g; inbox := msgs |})) v).
    { intros uid n. destruct f; unfold serve_update, post; simpl;
        try (split; [reflexivity | intros v; lia]).
      - destruct (updateClickAction l uid n) as [l' r] eqn:E. simpl.
        split; [reflexivity|]. intros v.
        replace l' with (fst (updateClickAction l uid n)) by (rewrite E; reflexivity).
        rewrite updateClickAction_ledger. apply setTotal_monotone.
      - split; [reflexivity|]. intros v.
        rewrite updateClickAction_ledger. apply setTotal_monotone. }
    destruct (suspended g) as [|uid k n|uid k n|uid k n]; simpl;
      [split; [reflexivity | intros v; lia] | apply Hserve
       | split; [reflexivity | intros v; lia] | apply Hserve].
  - destruct (List.nth_error msgs i) as [m|]; simpl;
      [|split; [reflexivity | intros v; lia]].
    split; [|intros v; lia].
    destruct m as [rows|c]; simpl; [apply fetchScores_lock | apply resume_lock].
  - split; [reflexivity|]. intros v. apply setTotal_monotone.
Qed.

Lemma run_stored es : forall w,
  user (game (run es w)) = user (game w)
  /\ forall v, getTotal (ledger w) v <= getTotal (ledger (run es w)) v.
Proof.
  induction es as [|e es IH]; intros w; simpl.
  - split; [reflexivity | intros v; lia].
  - destruct (step_stored e w) as [H1 H2]. destruct (IH (step e w)) as [I1 I2].
    split; [congruence|]. intros v. specialize (H2 v). specialize (I2 v). lia.
Qed.

(** C4, as stated, fails when a fetch result arrives late. Alice clicks
    once on an empty Ledger and the flush sends the total 1; a
    [fetchScores] reads the [clicks] table before the write is served;
    the reply arrives first and confirms 1; the fetch result, read when
    Alice had no row yet, arrives after it and resets the confirmed
    total to 0. *)
Lemma stale_fetch_lowers_confirmed_total :
  let es1 := [Click 1%Q; FetchServed; CallServed NoFault; Delivered 1 10 10] in
  let es2 := [Delivered 0 20 20] in
  in_step fresh_world
  /\ confirmed (run es1 fresh_world) = 1
  /\ stored (run es1 fresh_world) = 1
  /\ confirmed (run (es1 ++ es2) fresh_world) = 0
  /\ ~ confirmed (run es1 fresh_world) <= confirmed (run (es1 ++ es2) fresh_world).
Proof.
  split; [|split; [|split; [|split]]].
  - unfold in_step. simpl.
    split; [intros H; discriminate H | split; [repeat constructor | reflexivity]].
  - reflexivity.
  - reflexivity.
  - reflexivity.
  - vm_compute. intros H. apply H. reflexivity.
Qed.

(** C4 (monotonicity), amended. Start from any state in which the client
    and the Ledger are in step (as they are when a user signs in: nothing
    confirmed, nothing in flight, nothing on its way) and let clicks,
    flush triggers, fetches and calls served by the store (successes,
    authentication and store failures, thrown calls, lost replies),
    results reaching the client and writes from other sessions follow
    each other in any order, as long as the results reach the client in
    the order the store served them. Along the way the confirmed total
    the client holds never decreases. In any order of arrival the stored
    total never decreases; and a flush whose total is below the stored
    one is rejected rather than applied: the Ledger keeps its rows, and
    the client keeps its confirmed total and its pending clicks and shows
    the failure. *)
Theorem confirmed_total_never_decreases w es1 es2 :
  in_step w -> in_order (es1 ++ es2) = true ->
  confirmed (run es1 w) <= confirmed (run (es1 ++ es2) w)
  /\ (forall es es', stored (run es w) <= stored (run (es ++ es') w))
  /\ (forall w' uid k n t1 t2,
        suspended (game w') = AwaitingUpdate uid k n -> inbox w' = [] ->
        n < getTotal (ledger w') uid ->
        let w'' := run [CallServed NoFault; Delivered 0 t1 t2] w' in
        ledger w'' = ledger w'
        /\ success (snd (updateClickAction (ledger w') uid n)) = false
        /\ confirmed w'' = confirmed w'
        /\ pendingClicks (game w'') = pendingClicks (game w')
        /\ suspended (game w'') = Idle
        /\ toasts (game w'') = toasts (game w') ++ ["Failed to update score"%string]).
Proof.
  intros Hin Hord. split; [|split].
  - unfold in_order in Hord. rewrite List.forallb_app in Hord.
    apply andb_prop in Hord. destruct Hord as [Ho1 Ho2].
    pose proof (run_advances es1 w Hin Ho1) as (Hin1 & _).
    pose proof (run_advances es2 (run es1 w) Hin1 Ho2) as (_ & Hc & _).
    unfold run in *. rewrite List.fold_left_app. exact Hc.
  - intros es es'. unfold stored, run. rewrite List.fold_left_app.
    fold (run es w). fold (run es' (run es w)).
    destruct (run_stored es' (run es w)) as [Hu Hl]. rewrite Hu.
    destruct (user (game (run es w))); [apply Hl | lia].
  - intros [l g msgs] uid k n t1 t2 Hs Hmsgs Hlow. simpl in Hs, Hmsgs, Hlow. subst msgs.
    simpl. rewrite Hs. unfold serve_update, post, updateClickAction. simpl.
    rewrite (setTotal_rejects l uid n Hlow). simpl.
    unfold confirmed, resume. simpl. rewrite Hs. simpl.
    repeat split.
Qed.

Lemma confirmed_total_never_decreases_witness :
  let es1 := [Click 1%Q; Click 1%Q] in
  let es2 := [FetchServed; CallServed NoFault; Delivered 0 10 10; Delivered 0 20 20] in
  in_step fresh_world
  /\ in_order (es1 ++ es2) = true
  /\ confirmed (run es1 fresh_world) <= confirmed (run (es1 ++ es2) fresh_world)
  /\ confirmed (run (es1 ++ es2) fresh_world) = 1.
Proof.
  assert (Hin : in_step fresh_world).
  { unfold in_step. simpl.
    split; [intros H; discriminate H | split; [repeat constructor | reflexivity]]. }
  split; [exact Hin|]. split; [reflexivity|]. split; [|reflexivity].
  apply (confirmed_total_never_decreases fresh_world [Click 1%Q; Click 1%Q]
           [FetchServed; CallServed NoFault; Delivered 0 10 10; Delivered 0 20 20]
           Hin eq_refl).
Defined.

End MonotonicityClaims.

(* ===================================================================== *)
(** * Grants, the milestone trigger and activation *)
(* ===================================================================== *)

Section GrantFacts.
Import Ledger PowerLifecycle PowerActivation.

Lemma held_by_spec u p r :
  held_by u p r = true <-> up_user_id r = u /\ up_power_id r = p.
Proof.
  unfold held_by. rewrite Bool.andb_true_iff, String.eqb_eq, Z.eqb_eq. tauto.
Qed.

Lemma grant_when_held now d u p :
  List.existsb (held_by u p) (user_powers d) = true ->
  grant_power_to_user now d u p = d.
Proof. intros H. unfold grant_power_to_user. rewrite H. reflexivity. Qed.

Lemma grant_when_missing now d u p :
  List.existsb (held_by u p) (user_powers d) = false ->
  grant_power_to_user now d u p
  = with_user_powers d
      (user_powers d ++
       [granted_row now d u p
          match power_template d p with
          | Some sp => sp_duration sp
          | None => None
          end]).
Proof. intros H. unfold grant_power_to_user. rewrite H. reflexivity. Qed.

Lemma held_by_granted_row now d u p dur : held_by u p (granted_row now d u p dur) = true.
Proof. apply held_by_spec. split; reflexivity. Qed.

Lemma held_after_grant now d u p :
  List.existsb (held_by u p) (user_powers (grant_power_to_user now d u p)) = true.
Proof.
  destruct (List.existsb (held_by u p) (user_powers d)) eqn:H.
  - rewrite grant_when_held by exact H. exact H.
  - rewrite grant_when_missing by exact H. simpl.
    rewrite List.existsb_app. simpl. rewrite held_by_granted_row.
    rewrite Bool.orb_true_r. reflexivity.
Qed.

(** A grant changes whether the user holds another power in no way. *)
Lemma grant_other_power now d u p u' p' :
  (u', p') <> (u, p) ->
  List.existsb (held_by u' p') (user_powers (grant_power_to_user now d u p))
  = List.existsb (held_by u' p') (user_powers d).
Proof.
  intros Hne. destruct (List.existsb (held_by u p) (user_powers d)) eqn:H.
  - rewrite grant_when_held by exact H. reflexivity.
  - rewrite grant_when_missing by exact H. simpl.
    rewrite List.existsb_app. simpl.
    replace (held_by u' p' (granted_row now d u p _)) with false.
    + rewrite !Bool.orb_false_r. reflexivity.
    + symmetry. apply Bool.not_true_is_false. rewrite held_by_spec. simpl.
      intros [-> ->]. apply Hne. reflexivity.
Qed.

Lemma grant_keeps_held now d u p u' p' :
  List.existsb (held_by u' p') (user_powers d) = true ->
  List.existsb (held_by u' p') (user_powers (grant_power_to_user now d u p)) = true.
Proof.
  intros H. destruct (List.existsb (held_by u p) (user_powers d)) eqn:Hex.
  - rewrite grant_when_held by exact Hex. exact H.
  - rewrite grant_when_missing by exact Hex. simpl.
    rewrite List.existsb_app, H. reflexivity.
Qed.

End GrantFacts.

Section GrantProperties.
Import Ledger PowerLifecycle PowerActivation.

(** [grant_power_to_user] grants once. After the call the user holds the
    power; a user who held it already gets the database back unchanged, so
    a second grant, at any later time, changes nothing; and a first grant
    appends one row: level 1, active, not confirmed, unlimited uses,
    expiring [duration] seconds from now, or never when the template has
    no duration. *)
Theorem grant_power_to_user_grants_once now later d u p :
  let d1 := grant_power_to_user now d u p in
  List.existsb (held_by u p) (user_powers d1) = true
  /\ grant_power_to_user later d1 u p = d1
  /\ (List.existsb (held_by u p) (user_powers d) = true -> d1 = d)
  /\ (List.existsb (held_by u p) (user_powers d) = false ->
      exists r, user_powers d1 = user_powers d ++ [r]
        /\ up_user_id r = u /\ up_power_id r = p
        /\ up_level r = Some 1 /\ up_is_active r = true
        /\ up_upgrade_confirmed r = Some false /\ up_uses_left r = None
        /\ up_acquired_at r = now
        /\ up_expires_at r
           = match power_template d p with
             | Some sp => match sp_duration sp with
                          | Some dur => Some (now + dur * 1000)
                          | None => None
                          end
             | None => None
             end).
Proof.
  intros d1. split; [apply held_after_grant|]. split.
  - apply grant_when_held. apply held_after_grant.
  - split.
    + intros H. apply grant_when_held. exact H.
    + intros H. unfold d1. rewrite grant_when_missing by exact H.
      eexists. split; [reflexivity|]. simpl.
      destruct (power_template d p) as [sp|]; [destruct (sp_duration sp)|];
        repeat split.
Qed.

End GrantProperties.

Section TriggerFacts.
Import Ledger PowerLifecycle PowerActivation.

Lemma run_milestones_keeps_held now u qty ms : forall d u' p',
  List.existsb (held_by u' p') (user_powers d) = true ->
  List.existsb (held_by u' p') (user_powers (run_milestones now u qty ms d)) = true.
Proof.
  induction ms as [|m ms IH]; intros d u' p' H; simpl; [exact H|].
  apply IH. destruct (in_window qty m); [apply grant_keeps_held|]; exact H.
Qed.

Lemma run_milestones_skips now u qty p ms : forall d,
  (forall m, List.In m ms -> in_window qty m = true -> snd m <> p) ->
  List.existsb (held_by u p) (user_powers (run_milestones now u qty ms d))
  = List.existsb (held_by u p) (user_powers d).
Proof.
  induction ms as [|m ms IH]; intros d Hskip; simpl; [reflexivity|].
  rewrite IH by (intros; apply Hskip; auto using List.in_cons).
  destruct (in_window qty m) eqn:Hw; [|reflexivity].
  apply grant_other_power. intros E. injection E as E.
  apply (Hskip m (List.in_eq _ _) Hw). congruence.
Qed.

(** Once every power due at this count is held, the trigger is a no-op. *)
Lemma run_milestones_settled now u qty ms : forall d,
  (forall m, List.In m ms -> in_window qty m = true ->
             List.existsb (held_by u (snd m)) (user_powers d) = true) ->
  run_milestones now u qty ms d = d.
Proof.
  induction ms as [|m ms IH]; intros d Hheld; simpl; [reflexivity|].
  destruct (in_window qty m) eqn:Hw.
  - rewrite grant_when_held by (apply Hheld; auto using List.in_eq).
    apply IH. intros; apply Hheld; auto using List.in_cons.
  - apply IH. intros; apply Hheld; auto using List.in_cons.
Qed.

Lemma run_milestones_grants_due now u qty ms : forall d m,
  List.In m ms -> in_window qty m = true ->
  List.existsb (held_by u (snd m)) (user_powers (run_milestones now u qty ms d)) = true.
Proof.
  induction ms as [|m0 ms IH]; intros d m Hin Hw; simpl; [contradiction|].
  destruct Hin as [->|Hin].
  - rewrite Hw. apply run_milestones_keeps_held. apply held_after_grant.
  - apply IH; assumption.
Qed.

Lemma run_milestones_appends now u qty ms : forall d,
  exists added,
    user_powers (run_milestones now u qty ms d) = user_powers d ++ added
    /\ List.Forall (fresh_grant now u) added
    /\ special_powers (run_milestones now u qty ms d) = special_powers d
    /\ achievements (run_milestones now u qty ms d) = achievements d
    /\ user_achievements (run_milestones now u qty ms d) = user_achievements d.
Proof.
  induction ms as [|m ms IH]; intros d; simpl.
  - exists []. rewrite List.app_nil_r. repeat split. constructor.
  - destruct (in_window qty m); [|apply IH].
    destruct (List.existsb (held_by u (snd m)) (user_powers d)) eqn:Hex.
    + rewrite grant_when_held by exact Hex. apply IH.
    + rewrite grant_when_missing by exact Hex.
      match goal with |- context [run_milestones now u qty ms ?d1] =>
        destruct (IH d1) as (added & E & Hall & E1 & E2 & E3) end.
      simpl in E, E1, E2, E3. eexists (_ :: added). rewrite E, E1, E2, E3.
      rewrite <- List.app_assoc. simpl. repeat split.
      constructor; [|exact Hall]. repeat split.
Qed.

End TriggerFacts.

Section TriggerProperties.
Import Ledger PowerLifecycle PowerActivation.

Lemma milestone_powers_distinct : List.NoDup (List.map snd power_milestones).
Proof.
  unfold power_milestones. simpl.
  repeat (constructor; [simpl; intuition discriminate|]). constructor.
Qed.

Lemma in_window_spec qty t p : in_window qty (t, p) = true <-> t <= qty < t + 10.
Proof. unfold in_window. simpl. rewrite Bool.andb_true_iff, Z.geb_le, Z.ltb_lt. tauto. Qed.

Lemma same_power_same_milestone m m' :
  List.In m power_milestones -> List.In m' power_milestones -> snd m = snd m' -> m = m'.
Proof.
  intros H H' E. generalize milestone_powers_distinct.
  revert H H' E. generalize power_milestones as l.
  induction l as [|a l IH]; simpl; intros H H' E Hnd; [contradiction|].
  inversion Hnd as [|? ? Hnotin Hnd']; subst.
  destruct H as [<-|H], H' as [<-|H']; auto.
  - exfalso. apply Hnotin. rewrite E. apply List.in_map. exact H'.
  - exfalso. apply Hnotin. rewrite <- E. apply List.in_map. exact H.
Qed.

(** The milestone trigger grants by window, not by threshold crossed. For
    a milestone at [t] granting power [p]: when the updated count lies in
    [t .. t + 9] the user holds [p] afterwards; when it lies outside,
    whether the user holds [p] is what it was before, so an update that
    carries the count from below [t] to [t + 10] or more never grants [p]. *)
Theorem trigger_grants_inside_window_only now d u qty t p :
  List.In (t, p) power_milestones ->
  (t <= qty < t + 10 ->
     List.existsb (held_by u p)
       (user_powers (check_power_milestones now d u qty)) = true)
  /\ (~ (t <= qty < t + 10) ->
      List.existsb (held_by u p)
        (user_powers (check_power_milestones now d u qty))
      = List.existsb (held_by u p) (user_powers d)).
Proof.
  intros Hin. split.
  - intros Hw. apply (run_milestones_grants_due now u qty power_milestones d (t, p) Hin).
    apply (proj2 (in_window_spec qty t p)). exact Hw.
  - intros Hout. apply (run_milestones_skips now u qty p power_milestones d).
    intros m Hm Hw Ep. apply Hout.
    assert (m = (t, p)) by (apply same_power_same_milestone; auto).
    subst m. apply (proj1 (in_window_spec qty t p)). exact Hw.
Qed.

Lemma trigger_grants_inside_window_only_witness :
  List.existsb (held_by Samples.alice 1)
    (user_powers (check_power_milestones 0 (Samples.catalog_db []) Samples.alice 105)) = true
  /\ List.existsb (held_by Samples.alice 1)
       (user_powers (check_power_milestones 0 (Samples.catalog_db []) Samples.alice 600)) = false.
Proof.
  destruct (trigger_grants_inside_window_only 0 (Samples.catalog_db []) Samples.alice 105 100 1)
    as [Hin _]; [left; reflexivity|].
  destruct (trigger_grants_inside_window_only 0 (Samples.catalog_db []) Samples.alice 600 100 1)
    as [_ Hout]; [left; reflexivity|].
  split; [apply Hin; lia | rewrite Hout by lia; reflexivity].
Defined.

(** The milestone trigger only adds: the rows that were there stay as
    they are and in place, every added row is a fresh grant for the
    updated user (level 1, active, unconfirmed, unlimited uses), the other
    tables are untouched; and it settles: run again on its own result with
    the same count, at any later time, it changes nothing. *)
Theorem trigger_appends_and_settles now later d u qty :
  let d1 := check_power_milestones now d u qty in
  (exists added,
     user_powers d1 = user_powers d ++ added
     /\ List.Forall (fresh_grant now u) added
     /\ special_powers d1 = special_powers d
     /\ achievements d1 = achievements d
     /\ user_achievements d1 = user_achievements d)
  /\ check_power_milestones later d1 u qty = d1.
Proof.
  intros d1. split.
  - apply (run_milestones_appends now u qty power_milestones d).
  - apply (run_milestones_settled later u qty power_milestones d1).
    intros m Hm Hw. apply (run_milestones_grants_due now u qty power_milestones d m Hm Hw).
Qed.

End TriggerProperties.

Section ActivationProperties.
Import Ledger PowerLifecycle PowerActivation.

Lemma find_none_existsb_conv {A} (f : A -> bool) l :
  List.find f l = None -> List.existsb f l = true -> False.
Proof.
  induction l as [|a l IH]; simpl; [discriminate|].
  destruct (f a); simpl; [discriminate | exact IH].
Qed.

Lemma held_by_activated u p r : held_by u p (activated r) = held_by u p r.
Proof. reflexivity. Qed.

Lemma activate_user_power_inv now d u p d1 :
  activate_user_power now d u p = (d1, true) ->
  exists r, List.find (held_by u p) (user_powers d) = Some r
            /\ up_is_active r = false
            /\ d1 = update_where u p activated d.
Proof.
  unfold activate_user_power.
  destruct (List.existsb (held_by u p) (user_powers d)) eqn:Hex; simpl;
    [|discriminate].
  destruct (List.find (held_by u p) (user_powers d)) as [r|] eqn:Hf.
  - destruct (up_is_active r) eqn:Ha; simpl; [discriminate|].
    match goal with |- (if ?c then _ else _) = _ -> _ => destruct c end;
      [|discriminate].
    intros E. injection E as <-. exists r. auto.
  - apply find_none_existsb_conv in Hex; [contradiction | exact Hf].
Qed.

(** Activation is refused while the power is active: a successful
    [activate_user_power] switches every row of the grant on and takes one
    use off a counted power, and the call that follows, at any time,
    returns FALSE and leaves the database as it is. So repeating the call
    never uses a power up. *)
Theorem activation_refused_while_active now later d u p d1 :
  activate_user_power now d u p = (d1, true) ->
  user_powers d1
  = List.map (fun r => if held_by u p r then activated r else r) (user_powers d)
  /\ (forall r, up_is_active (activated r) = true
                /\ up_uses_left (activated r)
                   = match up_uses_left r with Some n => Some (n - 1) | None => None end
                /\ up_level (activated r) = up_level r
                /\ up_expires_at (activated r) = up_expires_at r)
  /\ activate_user_power later d1 u p = (d1, false).
Proof.
  intros H. destruct (activate_user_power_inv now d u p d1 H) as (r & Hf & Ha & ->).
  split; [reflexivity|]. split; [intros; repeat split|].
  unfold activate_user_power, update_where. simpl user_powers.
  rewrite existsb_update_where by apply held_by_activated.
  rewrite (find_held_exists _ _ _ _ Hf). simpl negb.
  rewrite find_update_where by apply held_by_activated.
  rewrite Hf. simpl. reflexivity.
Qed.

Lemma activation_refused_while_active_witness :
  activate_user_power 1000 (Samples.lapsed_db 5 (Some 2)) Samples.alice 1
  = (update_where Samples.alice 1 activated (Samples.lapsed_db 5 (Some 2)), true)
  /\ activate_user_power 2000
       (update_where Samples.alice 1 activated (Samples.lapsed_db 5 (Some 2)))
       Samples.alice 1
     = (update_where Samples.alice 1 activated (Samples.lapsed_db 5 (Some 2)), false).
Proof.
  split; [reflexivity|].
  apply (activation_refused_while_active 1000 2000 (Samples.lapsed_db 5 (Some 2))
           Samples.alice 1 _ eq_refl).
Defined.

(** When [activate_user_power] says yes. For a grant with a level and a
    [max_level]: it refuses (FALSE, nothing written) a power that is
    already active, one whose counted uses are spent, and one below
    [max_level] whose [expires_at] has passed; it activates an inactive
    power with uses left that has not expired, and, at [max_level], one
    whose [expires_at] has passed as well. A user without the grant gets
    FALSE. *)
Theorem activation_guards now d u p r s l m :
  List.find (held_by u p) (user_powers d) = Some r ->
  power_template d p = Some s ->
  up_level r = Some l -> sp_max_level s = Some m ->
  let uses_left_ok := match up_uses_left r with Some n => 0 < n | None => True end in
  let lapsed := match up_expires_at r with Some e => e < now | None => False end in
  (up_is_active r = true -> activate_user_power now d u p = (d, false))
  /\ (~ uses_left_ok -> activate_user_power now d u p = (d, false))
  /\ (l < m -> lapsed -> activate_user_power now d u p = (d, false))
  /\ (up_is_active r = false -> uses_left_ok -> ~ lapsed ->
      snd (activate_user_power now d u p) = true)
  /\ (up_is_active r = false -> uses_left_ok -> m <= l ->
      snd (activate_user_power now d u p) = true)
  /\ (forall d' u' p', List.existsb (held_by u' p') (user_powers d') = false ->
        activate_user_power now d' u' p' = (d', false)).
Proof.
  intros Hf Hs Hl Hm uses_left_ok lapsed.
  assert (E : activate_user_power now d u p
    = if negb (up_is_active r)
         && negb (if l <? m
                  then match up_expires_at r with Some e => e <? now | None => false end
                  else false)
         && match up_uses_left r with Some n => n >? 0 | None => true end
      then (update_where u p activated d, true) else (d, false)).
  { unfold activate_user_power.
    rewrite (find_held_exists _ _ _ _ Hf), Hf, Hs, Hl, Hm. simpl.
    destruct (l <? m); reflexivity. }
  unfold uses_left_ok, lapsed. repeat split.
  - intros Ha. rewrite E, Ha. reflexivity.
  - intros Hu. rewrite E. destruct (up_uses_left r) as [n|]; [|tauto].
    destruct (Z.gtb_spec n 0); [lia|]. rewrite !Bool.andb_false_r. reflexivity.
  - intros Hlt Hlap. rewrite E. destruct (Z.ltb_spec l m); [|lia].
    destruct (up_expires_at r) as [e|]; [|contradiction].
    destruct (Z.ltb_spec e now); [|lia]. simpl.
    rewrite Bool.andb_false_r. reflexivity.
  - intros Ha Hu Hnl. rewrite E, Ha.
    replace (if l <? m then _ else false) with false.
    + destruct (up_uses_left r) as [n|]; [|reflexivity].
      destruct (Z.gtb_spec n 0); [reflexivity|lia].
    + destruct (l <? m); [|reflexivity].
      destruct (up_expires_at r) as [e|]; [|reflexivity].
      destruct (Z.ltb_spec e now); [contradiction|reflexivity].
  - intros Ha Hu Hmax. rewrite E, Ha. destruct (Z.ltb_spec l m); [lia|].
    destruct (up_uses_left r) as [n|]; [|reflexivity].
    destruct (Z.gtb_spec n 0); [reflexivity|lia].
  - intros d' u' p' Hex. unfold activate_user_power. rewrite Hex. reflexivity.
Qed.

Lemma activation_guards_witness :
  activate_user_power 100000 (Samples.lapsed_db 1 None) Samples.alice 1
  = (Samples.lapsed_db 1 None, false)
  /\ snd (activate_user_power 100000 (Samples.lapsed_db 5 None) Samples.alice 1) = true.
Proof.
  destruct (activation_guards 100000 (Samples.lapsed_db 1 None) Samples.alice 1
              (Samples.lapsed_power 1 None) (Samples.double_trouble false) 1 5
              eq_refl eq_refl eq_refl eq_refl) as (_ & _ & H3 & _).
  destruct (activation_guards 100000 (Samples.lapsed_db 5 None) Samples.alice 1
              (Samples.lapsed_power 5 None) (Samples.double_trouble false) 5 5
              eq_refl eq_refl eq_refl eq_refl) as (_ & _ & _ & _ & H5 & _).
  split; [apply H3; simpl; lia | apply H5; simpl; auto; lia].
Defined.

End ActivationProperties.

Section OperationFacts.
Import Ledger PowerLifecycle PowerActivation.

Lemma upgrade_user_power_cases now d u p :
  upgrade_user_power now d u p = (d, false)
  \/ exists r mx dur,
       List.find (held_by u p) (user_powers d) = Some r
       /\ holds (sql_ge (up_level r) mx) = false
       /\ (forall s, power_template d p = Some s -> mx = sp_max_level s)
       /\ upgrade_user_power now d u p
          = (update_where u p (upgraded now mx dur) d, true).
Proof.
  unfold upgrade_user_power.
  destruct (List.existsb (held_by u p) (user_powers d)) eqn:Hex; simpl; [|auto].
  destruct (List.find (held_by u p) (user_powers d)) as [r|] eqn:Hf.
  2:{ exfalso. eapply find_none_existsb_conv; eassumption. }
  destruct (power_template d p) as [s|] eqn:Hs.
  - destruct (holds (sql_ge (up_level r) (sp_max_level s))) eqn:Hge; [auto|].
    match goal with |- (if ?c then _ else _) = _ \/ _ => destruct c end; [auto|].
    right. exists r, (sp_max_level s), (sp_duration s).
    repeat split; auto. intros s' E. congruence.
  - simpl.
    destruct (List.existsb
                (fun r0 => held_by u p r0 && holds (up_upgrade_confirmed r0))
                (user_powers d)); simpl;
      right; exists r, None, None; repeat split; auto;
      try (destruct (up_level r); reflexivity); intros s' E; discriminate.
Qed.

Lemma activate_user_power_cases now d u p :
  activate_user_power now d u p = (d, false)
  \/ activate_user_power now d u p = (update_where u p activated d, true).
Proof.
  unfold activate_user_power.
  destruct (List.existsb (held_by u p) (user_powers d)); simpl; [|auto].
  match goal with |- (if ?c then _ else _) = _ \/ _ => destruct c end; auto.
Qed.

Lemma confirm_power_upgrade_cases d u p :
  confirm_power_upgrade d u p = (d, false)
  \/ confirm_power_upgrade d u p = (update_where u p confirmed_row d, true).
Proof.
  unfold confirm_power_upgrade.
  destruct (List.existsb (held_by u p) (user_powers d)); simpl; auto.
Qed.

(** An update of one grant that keeps the key columns leaves everybody
    else's rows alone. *)
Lemma update_where_others u p f d :
  (forall r, up_user_id (f r) = up_user_id r) ->
  rows_of_others u (update_where u p f d) = rows_of_others u d.
Proof.
  intros Hkey. unfold rows_of_others, update_where. simpl.
  induction (user_powers d) as [|r l IH]; simpl; [reflexivity|].
  destruct (held_by u p r) eqn:Hh.
  - rewrite Hkey. apply held_by_spec in Hh. destruct Hh as [Hu _].
    rewrite Hu, String.eqb_refl. simpl. exact IH.
  - destruct (negb _); [f_equal|]; exact IH.
Qed.

Lemma rows_of_others_app u d added :
  List.Forall (fun r => up_user_id r = u) added ->
  List.filter (fun r => negb (String.eqb (up_user_id r) u)) (user_powers d ++ added)
  = rows_of_others u d.
Proof.
  intros Hall. unfold rows_of_others. rewrite List.filter_app.
  replace (List.filter _ added) with (@nil UserPowerRow); [apply List.app_nil_r|].
  induction Hall as [|r l Hr _ IH]; simpl; [reflexivity|].
  rewrite Hr, String.eqb_refl. simpl. exact IH.
Qed.

End OperationFacts.

Section OperationProperties.
Import Ledger PowerLifecycle PowerActivation.

(** No lifecycle operation of one user reaches another user's powers.
    Granting, activating, confirming, upgrading and the milestone trigger
    leave the rows of every other user exactly as they were, and never
    write to the catalogs or to the achievement grants. *)
Theorem operations_leave_other_users_alone now d o :
  let d1 := perform now d o in
  rows_of_others (operation_user o) d1 = rows_of_others (operation_user o) d
  /\ special_powers d1 = special_powers d
  /\ achievements d1 = achievements d
  /\ user_achievements d1 = user_achievements d.
Proof.
  destruct o as [u p|u p|u p|u p|u qty]; simpl.
  - destruct (List.existsb (held_by u p) (user_powers d)) eqn:Hex.
    + rewrite grant_when_held by exact Hex. auto.
    + rewrite grant_when_missing by exact Hex. repeat split.
      unfold rows_of_others at 1. simpl. apply rows_of_others_app.
      constructor; [reflexivity | constructor].
  - destruct (activate_user_power_cases now d u p) as [->| ->]; simpl; auto.
    repeat split. apply update_where_others. reflexivity.
  - destruct (confirm_power_upgrade_cases d u p) as [->| ->]; simpl; auto.
    repeat split. apply update_where_others. reflexivity.
  - destruct (upgrade_user_power_cases now d u p)
      as [->|(r & mx & dur & _ & _ & _ & ->)]; simpl; auto.
    repeat split. apply update_where_others. reflexivity.
  - destruct (run_milestones_appends now u qty power_milestones d)
      as (added & E & Hall & E1 & E2 & E3).
    change (run_milestones now u qty power_milestones d)
      with (check_power_milestones now d u qty) in *.
    repeat split; auto.
    unfold rows_of_others at 1. rewrite E. apply rows_of_others_app.
    eapply List.Forall_impl; [|exact Hall]. intros r Hr. apply Hr.
Qed.

End OperationProperties.

Section InvariantFacts.
Import Ledger PowerLifecycle PowerActivation.

Lemma NoDup_map_eq {A B} (key : A -> B) (l : list A) x y :
  List.NoDup (List.map key l) -> List.In x l -> List.In y l ->
  key x = key y -> x = y.
Proof.
  induction l as [|a l IH]; simpl; intros Hnd Hx Hy E; [contradiction|].
  inversion Hnd as [|? ? Hnotin Hnd']; subst.
  destruct Hx as [<-|Hx], Hy as [<-|Hy]; auto.
  - exfalso. apply Hnotin. rewrite E. apply List.in_map. exact Hy.
  - exfalso. apply Hnotin. rewrite <- E. apply List.in_map. exact Hx.
Qed.

Lemma update_where_keys u p f d :
  (forall r, up_user_id (f r) = up_user_id r /\ up_power_id (f r) = up_power_id r) ->
  List.map (fun r => (up_user_id r, up_power_id r)) (user_powers (update_where u p f d))
  = List.map (fun r => (up_user_id r, up_power_id r)) (user_powers d).
Proof.
  intros Hkey. unfold update_where. simpl. rewrite List.map_map.
  apply List.map_ext. intros r. destruct (held_by u p r); [|reflexivity].
  destruct (Hkey r) as [-> ->]. reflexivity.
Qed.

(** An update of one grant that keeps keys and levels keeps the facts. *)
Lemma update_where_well_kept u p f d :
  (forall r, up_user_id (f r) = up_user_id r /\ up_power_id (f r) = up_power_id r
             /\ up_level (f r) = up_level r) ->
  well_kept d -> well_kept (update_where u p f d).
Proof.
  intros Hf (Hk & Hl & Hm). split; [|split].
  - unfold one_row_per_grant. rewrite update_where_keys; [exact Hk|].
    intros r. destruct (Hf r) as (? & ? & ?). auto.
  - intros r' s l m Hin Hs Hlv Hmx. unfold update_where in Hin. simpl in Hin.
    apply List.in_map_iff in Hin. destruct Hin as (r & E & Hin).
    rewrite power_template_update_where in Hs.
    destruct (held_by u p r); subst r'.
    + destruct (Hf r) as (_ & Ep & El). rewrite Ep in Hs. rewrite El in Hlv.
      exact (Hl r s l m Hin Hs Hlv Hmx).
    + exact (Hl r s l m Hin Hs Hlv Hmx).
  - exact Hm.
Qed.

Lemma grant_well_kept now d u p :
  well_kept d -> well_kept (grant_power_to_user now d u p).
Proof.
  intros (Hk & Hl & Hm).
  destruct (List.existsb (held_by u p) (user_powers d)) eqn:Hex.
  { rewrite grant_when_held by exact Hex. repeat split; assumption. }
  rewrite grant_when_missing by exact Hex. split; [|split].
  - unfold one_row_per_grant in *. simpl. rewrite List.map_app. simpl.
    apply List.NoDup_app; [exact Hk | repeat constructor; intros [] |].
    intros k Hin [<-|[]]. apply List.in_map_iff in Hin.
    destruct Hin as (r & E & Hin). injection E as Eu Ep.
    apply Bool.not_true_iff_false in Hex. apply Hex.
    apply List.existsb_exists. exists r. split; [exact Hin|].
    apply held_by_spec. auto.
  - intros r s l m Hin Hs Hlv Hmx. simpl in Hin.
    change (power_template (with_user_powers d _) (up_power_id r))
      with (power_template d (up_power_id r)) in Hs.
    apply List.in_app_or in Hin. destruct Hin as [Hin|[<-|[]]].
    + exact (Hl r s l m Hin Hs Hlv Hmx).
    + simpl in Hlv, Hs. injection Hlv as <-.
      apply (Hm s m); [|exact Hmx].
      unfold power_template in Hs. apply List.find_some in Hs. tauto.
  - exact Hm.
Qed.

Lemma upgrade_well_kept now d u p :
  well_kept d -> well_kept (fst (upgrade_user_power now d u p)).
Proof.
  intros Hw.
  destruct (upgrade_user_power_cases now d u p)
    as [->|(r & mx & dur & Hf & Hge & Hmx & ->)]; simpl; [exact Hw|].
  destruct Hw as (Hk & Hl & Hm). split; [|split].
  - unfold one_row_per_grant. rewrite update_where_keys; [exact Hk|].
    intros r0. split; reflexivity.
  - intros r' s l m Hin Hs Hlv Hmax. unfold update_where in Hin. simpl in Hin.
    apply List.in_map_iff in Hin. destruct Hin as (r0 & E & Hin).
    rewrite power_template_update_where in Hs.
    destruct (held_by u p r0) eqn:Hh; subst r'.
    + assert (r0 = r).
      { apply find_held_by in Hf. destruct Hf as [Hr Hinr].
        apply held_by_spec in Hh, Hr. destruct Hh as [? ?], Hr as [? ?].
        apply (NoDup_map_eq (fun r => (up_user_id r, up_power_id r))
                 (user_powers d)); auto. simpl. congruence. }
      subst r0. simpl in Hs, Hlv.
      apply held_by_spec in Hh. destruct Hh as [_ Hp]. rewrite Hp in Hs.
      rewrite (Hmx s Hs), Hmax in Hge.
      destruct (up_level r) as [l0|]; simpl in Hlv; [|discriminate].
      injection Hlv as <-. simpl in Hge.
      destruct (Z.geb_spec l0 m); [discriminate | lia].
    + exact (Hl r0 s l m Hin Hs Hlv Hmax).
  - exact Hm.
Qed.

Lemma run_milestones_well_kept now u qty ms : forall d,
  well_kept d -> well_kept (run_milestones now u qty ms d).
Proof.
  induction ms as [|m ms IH]; intros d Hw; simpl; [exact Hw|].
  apply IH. destruct (in_window qty m); [apply grant_well_kept|]; exact Hw.
Qed.

Lemma perform_well_kept now d o : well_kept d -> well_kept (perform now d o).
Proof.
  intros Hw. destruct o as [u p|u p|u p|u p|u qty]; simpl.
  - apply grant_well_kept. exact Hw.
  - destruct (activate_user_power_cases now d u p) as [->| ->]; simpl; [exact Hw|].
    apply update_where_well_kept; [|exact Hw]. intros r. repeat split.
  - destruct (confirm_power_upgrade_cases d u p) as [->| ->]; simpl; [exact Hw|].
    apply update_where_well_kept; [|exact Hw]. intros r. repeat split.
  - apply upgrade_well_kept. exact Hw.
  - apply (run_milestones_well_kept now u qty power_milestones d Hw).
Qed.

End InvariantFacts.

Section InvariantProperties.
Import Ledger PowerLifecycle PowerActivation.

(** A power never climbs above its [max_level]. Take a store with one row
    per user and power, every level within its template's [max_level], and
    every [max_level] at least 1. After any history of grants,
    activations, confirmations, upgrades and click updates, run at any
    times and for any users, there is still one row per user and power and
    every level is still within [max_level]. *)
Theorem levels_never_exceed_max d log :
  one_row_per_grant d -> levels_within_max d -> max_levels_positive d ->
  one_row_per_grant (perform_all d log)
  /\ levels_within_max (perform_all d log).
Proof.
  intros Hk Hl Hm.
  assert (Hw : well_kept (perform_all d log)).
  { assert (H0 : well_kept d) by (repeat split; assumption).
    clear Hk Hl Hm. revert d H0. unfold perform_all.
    induction log as [|[now o] log IH]; intros d H0; simpl; [exact H0|].
    apply IH. apply perform_well_kept. exact H0. }
  destruct Hw as (H1 & H2 & _). split; assumption.
Qed.

Lemma levels_never_exceed_max_witness :
  levels_within_max
    (perform_all (Samples.powers_db false 4 false)
       [(10, Upgrade Samples.alice 1); (20, Upgrade Samples.alice 1);
        (30, ClicksUpdated Samples.alice 105); (40, Upgrade Samples.alice 1)])
  /\ List.map up_level
       (user_powers
          (perform_all (Samples.powers_db false 4 false)
             [(10, Upgrade Samples.alice 1); (20, Upgrade Samples.alice 1);
              (30, ClicksUpdated Samples.alice 105); (40, Upgrade Samples.alice 1)]))
     = [Some 5].
Proof.
  split; [|reflexivity].
  apply levels_never_exceed_max.
  - unfold one_row_per_grant. simpl. constructor; [intros [] | constructor].
  - intros r s l m [<-|[]] Hs Hl Hm. simpl in Hs, Hl, Hm.
    injection Hs as <-. injection Hl as <-. injection Hm as <-. lia.
  - intros s m [<-|[]] Hm. simpl in Hm. injection Hm as <-. lia.
Defined.

End InvariantProperties.

(* ===================================================================== *)
(** * The activation endpoint *)
(* ===================================================================== *)

Section RouteProperties.
Import Ledger PowerLifecycle PowerActivation ActivateRoute.

Lemma filter_update_where u p f rows :
  (forall r, held_by u p (f r) = held_by u p r) ->
  List.filter (held_by u p)
    (List.map (fun r => if held_by u p r then f r else r) rows)
  = List.map f (List.filter (held_by u p) rows).
Proof.
  intros Hkey. induction rows as [|r l IH]; simpl; [reflexivity|].
  destruct (held_by u p r) eqn:Hh.
  - rewrite Hkey, Hh. simpl. now rewrite IH.
  - rewrite Hh. exact IH.
Qed.

Lemma single_find d u p r :
  List.filter (held_by u p) (user_powers d) = [r] ->
  List.find (held_by u p) (user_powers d) = Some r.
Proof.
  induction (user_powers d) as [|x l IH]; simpl; [discriminate|].
  destruct (held_by u p x); [congruence | exact IH].
Qed.

(** The endpoint overrides the guards of [activate_user_power]. Let a
    signed-in user hold exactly one row for the power, switched off, and
    let the store calls answer. Whatever the stored function decides,
    after the request the row is active. When the function refused (the
    power has expired, or its uses are spent) the row is switched on all
    the same, with its remaining uses and every other column untouched,
    and the response reports [activated: false, verified: false]. *)
Theorem endpoint_activates_despite_refusal now d u p r :
  List.filter (held_by u p) (user_powers d) = [r] ->
  up_is_active r = false -> p <> 0 ->
  let res := POST no_route_faults now d (SignedIn u) p in
  List.filter (held_by u p) (user_powers (fst res))
  = [if snd (activate_user_power now d u p) then activated r else forced_active r]
  /\ (forall r', List.In r' (user_powers (fst res)) -> held_by u p r' = true ->
                 up_is_active r' = true)
  /\ (snd (activate_user_power now d u p) = false ->
      fst res = update_where u p forced_active d
      /\ snd res = Ok false (Some false)
      /\ up_uses_left (forced_active r) = up_uses_left r
      /\ up_expires_at (forced_active r) = up_expires_at r)
  /\ (snd (activate_user_power now d u p) = true -> snd res = Ok true (Some true)).
Proof.
  intros Hone Hoff Hp res.
  assert (Hres : res
    = if snd (activate_user_power now d u p)
      then (update_where u p activated d, Ok true (Some true))
      else (update_where u p forced_active d, Ok false (Some false))).
  { unfold res, POST. destruct (Z.eqb_spec p 0) as [|_]; [contradiction|]. simpl.
    destruct (activate_user_power_cases now d u p) as [E|E]; rewrite E; simpl.
    - unfold single. rewrite Hone, Hoff. reflexivity.
    - unfold single, update_where. simpl.
      rewrite filter_update_where by apply held_by_activated.
      rewrite Hone. reflexivity. }
  assert (Hrows : List.filter (held_by u p) (user_powers (fst res))
    = [if snd (activate_user_power now d u p) then activated r else forced_active r]).
  { rewrite Hres. destruct (snd (activate_user_power now d u p));
      unfold update_where; simpl;
      rewrite filter_update_where by reflexivity; rewrite Hone; reflexivity. }
  split; [exact Hrows|]. split; [|split].
  - intros r' Hin Hh.
    assert (Hin' : List.In r' (List.filter (held_by u p) (user_powers (fst res))))
      by (apply List.filter_In; auto).
    rewrite Hrows in Hin'. destruct Hin' as [<-|[]].
    destruct (snd (activate_user_power now d u p)); reflexivity.
  - intros Hno. rewrite Hres, Hno. repeat split.
  - intros Hyes. rewrite Hres, Hyes. reflexivity.
Qed.

Lemma endpoint_activates_despite_refusal_witness :
  activate_user_power 100000 (Samples.lapsed_db 1 (Some 0)) Samples.alice 1
  = (Samples.lapsed_db 1 (Some 0), false)
  /\ POST no_route_faults 100000 (Samples.lapsed_db 1 (Some 0)) (SignedIn Samples.alice) 1
     = (update_where Samples.alice 1 forced_active (Samples.lapsed_db 1 (Some 0)),
        Ok false (Some false)).
Proof.
  split; [reflexivity|].
  destruct (endpoint_activates_despite_refusal 100000 (Samples.lapsed_db 1 (Some 0))
              Samples.alice 1 (Samples.lapsed_power 1 (Some 0)) eq_refl eq_refl)
    as (_ & _ & H & _); [discriminate|].
  destruct (H eq_refl) as (H1 & H2 & _).
  apply injective_projections; [exact H1 | exact H2].
Defined.

End RouteProperties.

(* ===================================================================== *)
(** * More on the active-power fetch *)
(* ===================================================================== *)

Section FetchMoreFacts.
Import Ledger AchievementActions.

Lemma select_powers_nil now d u flag :
  select_powers now d u flag = [] <->
  forall r, List.In r (user_powers d) -> selected now u flag r = false.
Proof.
  unfold select_powers. split.
  - intros H r Hr. apply List.map_eq_nil in H.
    apply Bool.not_true_is_false. intros Hs.
    assert (Hin : List.In r (List.filter (selected now u flag) (user_powers d)))
      by (apply List.filter_In; auto).
    rewrite H in Hin. contradiction.
  - intros H. replace (List.filter _ _) with (@nil UserPowerRow); [reflexivity|].
    symmetry. induction (user_powers d) as [|r l IH]; simpl; [reflexivity|].
    rewrite (H r) by auto using List.in_eq.
    apply IH. intros; apply H; auto using List.in_cons.
Qed.

(** The repair branch, spelled out. *)
Lemma getActiveUserPowers_repairs f now d u :
  error f = false -> nonExpiredError f = false ->
  (forall i, updateFails f i = false) -> updatedError f = false ->
  List.NoDup (List.map up_id (user_powers d)) ->
  select_powers now d u true = [] ->
  select_powers now d u false <> [] ->
  getActiveUserPowers f now d u
  = (with_user_powers d
       (List.map (fun r => if selected now u false r then revived r else r)
                 (user_powers d)),
     List.map (fun r => with_defaults (join_power d (revived r)))
       (List.filter (selected now u false) (user_powers d))).
Proof.
  intros E1 E2 E3 E4 Hnd Hnone Hsome. unfold getActiveUserPowers.
  rewrite E1, Hnone, E2.
  destruct (select_powers now d u false) as [|p ps] eqn:Hsel; [contradiction|].
  rewrite E4, <- Hsel, (repair_rows f now d u E3 Hnd). f_equal.
  unfold select_powers at 1. simpl user_powers.
  rewrite filter_map_comm, !List.map_map.
  transitivity (List.map
    (fun r => with_defaults (join_power d (if selected now u false r then revived r else r)))
    (List.filter (selected now u false) (user_powers d))).
  - f_equal. apply List.filter_ext_in. intros r Hr.
    destruct (selected now u false r) eqn:Hs.
    + now apply selected_revived.
    + apply (proj1 (select_powers_nil now d u true) Hnone r Hr).
  - apply List.map_ext_in. intros r Hr. apply List.filter_In in Hr.
    destruct Hr as [_ Hs]. rewrite Hs. reflexivity.
Qed.

Lemma selected_spec now u flag r :
  selected now u flag r = true <->
  up_user_id r = u /\ up_is_active r = flag /\ not_expired now r = true.
Proof.
  unfold selected. rewrite !Bool.andb_true_iff, String.eqb_eq, Bool.eqb_true_iff.
  tauto.
Qed.

Lemma In_select_powers now d u flag p :
  List.In p (select_powers now d u flag) ->
  selected now u flag (row p) = true
  /\ power p = power_template d (up_power_id (row p)).
Proof.
  unfold select_powers. intros H. apply List.in_map_iff in H.
  destruct H as (r & <- & Hr). apply List.filter_In in Hr. tauto.
Qed.

Lemma getActiveUserPowers_reads f now d u :
  error f = false ->
  select_powers now d u true <> [] ->
  getActiveUserPowers f now d u
  = (d, List.map with_defaults (select_powers now d u true)).
Proof.
  intros E Hsome. unfold getActiveUserPowers. rewrite E.
  destruct (select_powers now d u true); [contradiction | reflexivity].
Qed.

End FetchMoreFacts.

Section FetchMoreProperties.
Import Ledger AchievementActions.

(** The fetch only reads when there is something to return. If the first
    query answers and finds a power of the user that is marked active and
    has not expired, [getActiveUserPowers] leaves the database as it is,
    whatever the later calls would do, and returns exactly the rows of
    that query, each with its template joined, [level] defaulted to 1
    and [upgrade_confirmed] to false. *)
Theorem fetch_reads_only_when_active f now d u :
  error f = false ->
  select_powers now d u true <> [] ->
  getActiveUserPowers f now d u
  = (d, List.map with_defaults (select_powers now d u true))
  /\ (forall p, List.In p (select_powers now d u true) ->
        up_user_id (row p) = u /\ up_is_active (row p) = true
        /\ not_expired now (row p) = true
        /\ List.In (row p) (user_powers d)).
Proof.
  intros E Hsome. split.
  - apply getActiveUserPowers_reads; assumption.
  - intros p Hp. destruct (In_select_powers now d u true p Hp) as [Hs _].
    apply selected_spec in Hs. destruct Hs as (? & ? & ?). repeat split; auto.
    unfold select_powers in Hp. apply List.in_map_iff in Hp.
    destruct Hp as (r & <- & Hr). apply List.filter_In in Hr. tauto.
Qed.

Lemma fetch_reads_only_when_active_witness :
  getActiveUserPowers no_fetch_faults 1000 (Samples.powers_db false 1 false) Samples.alice
  = (Samples.powers_db false 1 false,
     [with_defaults (join_power (Samples.powers_db false 1 false)
                       (Samples.alice_power 1 false))]).
Proof.
  destruct (fetch_reads_only_when_active no_fetch_faults 1000
              (Samples.powers_db false 1 false) Samples.alice eq_refl) as [H _].
  - discriminate.
  - exact H.
Defined.

(** The repair is done once. With the store calls answering and ids the
    primary key, a second [getActiveUserPowers] at the same instant, on
    the database the first one left, returns the same powers and writes
    nothing. *)
Theorem fetch_settles f now d u :
  error f = false -> nonExpiredError f = false ->
  (forall i, updateFails f i = false) -> updatedError f = false ->
  List.NoDup (List.map up_id (user_powers d)) ->
  let res := getActiveUserPowers f now d u in
  getActiveUserPowers f now (fst res) u = res.
Proof.
  intros E1 E2 E3 E4 Hnd res.
  destruct (select_powers now d u true) as [|a l] eqn:Hact.
  - destruct (select_powers now d u false) as [|b m] eqn:Hdorm.
    + assert (Hres : res = (d, [])).
      { unfold res, getActiveUserPowers. rewrite E1, Hact, E2, Hdorm. reflexivity. }
      rewrite Hres. simpl. unfold getActiveUserPowers.
      rewrite E1, Hact, E2, Hdorm. reflexivity.
    + assert (Hsome : select_powers now d u false <> []) by (rewrite Hdorm; discriminate).
      assert (Hres : res = _) by
        (apply (getActiveUserPowers_repairs f now d u E1 E2 E3 E4 Hnd Hact Hsome)).
      assert (Hlist : snd res = List.map with_defaults (select_powers now (fst res) u true)).
      { unfold res, getActiveUserPowers. rewrite E1, Hact, E2, Hdorm, E4. reflexivity. }
      assert (Hne : select_powers now (fst res) u true <> []).
      { intros Hnil. rewrite Hnil in Hlist. rewrite Hres in Hlist. simpl in Hlist.
        apply List.map_eq_nil in Hlist. unfold select_powers in Hdorm.
        rewrite Hlist in Hdorm. discriminate. }
      rewrite (getActiveUserPowers_reads f now (fst res) u E1 Hne), <- Hlist.
      destruct res; reflexivity.
  - assert (Hne : select_powers now d u true <> []) by (rewrite Hact; discriminate).
    assert (Hres : res = (d, List.map with_defaults (select_powers now d u true))).
    { unfold res, getActiveUserPowers. rewrite E1, Hact. reflexivity. }
    rewrite Hres. simpl. unfold getActiveUserPowers. rewrite E1, Hact. reflexivity.
Qed.

Lemma fetch_settles_witness :
  getActiveUserPowers no_fetch_faults 1000
    (fst (getActiveUserPowers no_fetch_faults 1000 Samples.dormant_db Samples.alice))
    Samples.alice
  = getActiveUserPowers no_fetch_faults 1000 Samples.dormant_db Samples.alice
  /\ fst (getActiveUserPowers no_fetch_faults 1000 Samples.dormant_db Samples.alice)
     = with_user_powers Samples.dormant_db [revived Samples.dormant_power].
Proof.
  split; [|reflexivity].
  apply (fetch_settles no_fetch_faults 1000 Samples.dormant_db Samples.alice
           eq_refl eq_refl (fun _ => eq_refl) eq_refl).
  simpl. constructor; [intros [] | constructor].
Defined.

Lemma with_defaults_keeps p :
  up_user_id (row (with_defaults p)) = up_user_id (row p)
  /\ up_expires_at (row (with_defaults p)) = up_expires_at (row p)
  /\ up_power_id (row (with_defaults p)) = up_power_id (row p)
  /\ power (with_defaults p) = power p
  /\ (exists l, up_level (row (with_defaults p)) = Some l)
  /\ (exists c, up_upgrade_confirmed (row (with_defaults p)) = Some c).
Proof. unfold with_defaults. simpl. repeat split; eexists; reflexivity. Qed.

(** Whatever goes wrong in the store, what [getActiveUserPowers] returns
    is well formed: every power returned belongs to the user asked for,
    has not expired at the time of the call, carries a [level] and an
    [upgrade_confirmed] flag (never null), and is joined with the template
    of its [power_id]. *)
Theorem fetch_returns_live_powers f now d u p :
  List.In p (snd (getActiveUserPowers f now d u)) ->
  up_user_id (row p) = u
  /\ not_expired now (row p) = true
  /\ (exists l, up_level (row p) = Some l)
  /\ (exists c, up_upgrade_confirmed (row p) = Some c)
  /\ power p = power_template d (up_power_id (row p)).
Proof.
  assert (Hsel : forall d' flag,
            special_powers d' = special_powers d ->
            List.In p (List.map with_defaults (select_powers now d' u flag)) ->
            up_user_id (row p) = u /\ not_expired now (row p) = true
            /\ (exists l, up_level (row p) = Some l)
            /\ (exists c, up_upgrade_confirmed (row p) = Some c)
            /\ power p = power_template d (up_power_id (row p))).
  { intros d' flag Hsp Hin. apply List.in_map_iff in Hin.
    destruct Hin as (q & <- & Hq).
    destruct (In_select_powers now d' u flag q Hq) as [Hs Hp].
    apply selected_spec in Hs. destruct Hs as (Hu & _ & Hx).
    destruct (with_defaults_keeps q) as (K1 & K2 & K3 & K4 & K5 & K6).
    unfold not_expired in *. rewrite K1, K2, K3, K4.
    repeat split; auto. rewrite Hp. unfold power_template. rewrite Hsp. reflexivity. }
  unfold getActiveUserPowers.
  destruct (error f); [intros []|].
  destruct (select_powers now d u true) as [|a l] eqn:Hact.
  - destruct (nonExpiredError f); [intros []|].
    destruct (select_powers now d u false) as [|b m] eqn:Hdorm; [intros []|].
    destruct (updatedError f); cbn [snd].
    + rewrite <- Hdorm. apply Hsel. reflexivity.
    + apply Hsel. reflexivity.
  - cbn [snd]. rewrite <- Hact. apply Hsel. reflexivity.
Qed.

Lemma fetch_returns_live_powers_witness :
  let p := with_defaults (join_power Samples.dormant_db (revived Samples.dormant_power)) in
  up_user_id (row p) = Samples.alice
  /\ up_level (row p) = Some 1
  /\ up_upgrade_confirmed (row p) = Some false.
Proof.
  destruct (fetch_returns_live_powers no_fetch_faults 1000 Samples.dormant_db
              Samples.alice
              (with_defaults (join_power Samples.dormant_db (revived Samples.dormant_power))))
    as (H & _); [left; reflexivity|].
  split; [exact H | split; reflexivity].
Defined.

End FetchMoreProperties.

(* ===================================================================== *)
(** * Order and notification of achievements *)
(* ===================================================================== *)

Section OrderFacts.
Import Ledger AchievementActions AchievementQueries.

Lemma insert_by_threshold_perm a l :
  Permutation (a :: l) (insert_by_threshold a l).
Proof.
  induction l as [|b l IH]; simpl; [apply Permutation_refl|].
  destruct (a_threshold a <=? a_threshold b); [apply Permutation_refl|].
  eapply perm_trans; [apply perm_swap|]. apply perm_skip. exact IH.
Qed.

Lemma order_by_threshold_perm l : Permutation l (order_by_threshold l).
Proof.
  induction l as [|a l IH]; simpl; [apply perm_nil|].
  eapply perm_trans; [apply perm_skip; exact IH | apply insert_by_threshold_perm].
Qed.

Lemma insert_by_threshold_sorted a l :
  StronglySorted by_threshold l -> StronglySorted by_threshold (insert_by_threshold a l).
Proof.
  induction l as [|b l IH]; simpl; intros Hs.
  - constructor; constructor.
  - inversion Hs as [|? ? Hs' Hall]; subst.
    destruct (Z.leb_spec (a_threshold a) (a_threshold b)) as [Hle|Hgt].
    + constructor; [exact Hs|]. constructor; [exact Hle|].
      eapply List.Forall_impl; [|exact Hall]. unfold by_threshold. intros; lia.
    + constructor; [apply IH; exact Hs'|].
      apply List.Forall_forall. intros x Hx.
      apply In_insert_by_threshold in Hx. destruct Hx as [->|Hx].
      * unfold by_threshold. lia.
      * apply (proj1 (List.Forall_forall _ _) Hall x Hx).
Qed.

Lemma order_by_threshold_sorted l : StronglySorted by_threshold (order_by_threshold l).
Proof.
  induction l as [|a l IH]; simpl; [constructor|].
  apply insert_by_threshold_sorted. exact IH.
Qed.

Lemma In_insert_by_unlocked_at r x l :
  List.In x (insert_by_unlocked_at r l) <-> x = r \/ List.In x l.
Proof.
  induction l as [|b l IH]; simpl.
  - intuition.
  - destruct (ua_unlocked_at b <=? ua_unlocked_at r); simpl; intuition.
Qed.

Lemma In_latest_first x l : List.In x (latest_first l) <-> List.In x l.
Proof.
  induction l as [|a l IH]; simpl; [tauto|].
  rewrite In_insert_by_unlocked_at, IH. intuition.
Qed.

End OrderFacts.

Section OrderProperties.
Import Ledger AchievementActions AchievementQueries.

Variable default_level : option Z.
Variable default_upgrade_confirmed : option bool.

(** [getAllAchievements] lists the whole catalog, each achievement once,
    lowest threshold first; when the query fails it returns the empty
    list. *)
Theorem catalog_listed_by_threshold d :
  Permutation (achievements d) (getAllAchievements false d)
  /\ StronglySorted by_threshold (getAllAchievements false d)
  /\ getAllAchievements true d = [].
Proof.
  unfold getAllAchievements. split; [apply order_by_threshold_perm|].
  split; [apply order_by_threshold_sorted | reflexivity].
Qed.

(** A new grant waits for its notification. With the store calls
    answering, every achievement a click evaluation grants is, on the
    database it leaves, among the user's pending notifications. *)
Theorem new_grants_await_notification f now d u n x :
  achievementsError f = false -> existingError f = false -> insertError f = false ->
  let res := checkClickAchievements default_level default_upgrade_confirmed
               f now d u n in
  List.In x (granted_ids res) ->
  List.In x (achievement_ids (getPendingAchievementNotifications false (fst res) u)).
Proof.
  intros E1 E2 E3 res Hx.
  destruct (checkClickAchievements_unlocks default_level default_upgrade_confirmed
              f now d u n E1 E2 E3) as (rows & Hrows & _ & Htab & _ & Hown).
  fold res in Hrows, Htab.
  unfold granted_ids in Hx. apply List.in_map_iff in Hx. destruct Hx as (g & <- & Hg).
  assert (Hin : List.In (ua_row g) rows) by (rewrite <- Hrows; apply List.in_map; exact Hg).
  destruct (Hown _ Hin) as [Hu Hn].
  unfold achievement_ids, getPendingAchievementNotifications.
  rewrite List.map_map. simpl.
  apply List.in_map_iff. exists (ua_row g). split; [reflexivity|].
  apply (proj2 (In_latest_first _ _)). apply List.filter_In. split.
  - rewrite Htab. apply List.in_or_app. right. exact Hin.
  - rewrite Hu, Hn, String.eqb_refl. reflexivity.
Qed.

End OrderProperties.

Lemma new_grants_await_notification_witness :
  List.In 2
    (AchievementQueries.achievement_ids
       (AchievementQueries.getPendingAchievementNotifications false
          (fst (AchievementActions.checkClickAchievements (Some 1) (Some false)
                  AchievementActions.no_check_faults 0
                  (Samples.catalog_db Samples.three_milestones) Samples.alice 600))
          Samples.alice)).
Proof.
  apply (new_grants_await_notification (Some 1) (Some false)
           AchievementActions.no_check_faults 0
           (Samples.catalog_db Samples.three_milestones) Samples.alice 600 2
           eq_refl eq_refl eq_refl).
  right. left. reflexivity.
Defined.

Section NotificationProperties.
Import Ledger AchievementActions AchievementQueries.

Lemma pending_ids d u x :
  List.In x (achievement_ids (getPendingAchievementNotifications false d u)) <->
  exists r, List.In r (user_achievements d) /\ ua_user_id r = u
            /\ ua_notified r = false /\ ua_achievement_id r = x.
Proof.
  unfold achievement_ids, getPendingAchievementNotifications.
  rewrite List.map_map. simpl. rewrite List.in_map_iff. split.
  - intros (r & <- & Hr). apply (proj1 (In_latest_first _ _)) in Hr.
    apply List.filter_In in Hr. destruct Hr as [Hin Hp].
    apply Bool.andb_true_iff in Hp. destruct Hp as [Hu Hn].
    apply String.eqb_eq in Hu. apply Bool.eqb_prop in Hn. exists r. auto.
  - intros (r & Hin & Hu & Hn & <-). exists r. split; [reflexivity|].
    apply (proj2 (In_latest_first _ _)). apply List.filter_In. split; [exact Hin|].
    rewrite Hu, Hn, String.eqb_refl. reflexivity.
Qed.

(** Marking clears exactly one notification. After a successful
    [markAchievementNotified] for a user and an achievement, the user's
    pending notifications are those pending before, less that
    achievement; the pending notifications of every other user are the
    same list as before; a failed update changes nothing and returns
    false. *)
Theorem marking_clears_one_notification d u a :
  let d1 := fst (markAchievementNotified false d u a) in
  snd (markAchievementNotified false d u a) = true
  /\ (forall x,
        List.In x (achievement_ids (getPendingAchievementNotifications false d1 u)) <->
        List.In x (achievement_ids (getPendingAchievementNotifications false d u))
        /\ x <> a)
  /\ (forall v, v <> u ->
        getPendingAchievementNotifications false d1 v
        = getPendingAchievementNotifications false d v)
  /\ markAchievementNotified true d u a = (d, false).
Proof.
  intros d1. split; [reflexivity|]. split; [|split; [|reflexivity]].
  - intros x. rewrite !pending_ids. unfold d1, markAchievementNotified. simpl.
    split.
    + intros (r1 & Hin & Hu & Hn & Hx). apply List.in_map_iff in Hin.
      destruct Hin as (r & E & Hin).
      destruct (String.eqb (ua_user_id r) u && (ua_achievement_id r =? a)) eqn:Hm.
      * subst r1. simpl in Hn. discriminate.
      * subst r1. split; [exists r; auto|]. intros ->.
        rewrite Hu, Hx, String.eqb_refl, Z.eqb_refl in Hm. discriminate.
    + intros [(r & Hin & Hu & Hn & Hx) Hne]. exists r. repeat split; auto.
      apply List.in_map_iff. exists r. split; [|exact Hin].
      destruct (Z.eqb_spec (ua_achievement_id r) a) as [E|_]; [congruence|].
      rewrite Bool.andb_false_r. reflexivity.
  - intros v Hv. unfold d1, getPendingAchievementNotifications, markAchievementNotified.
    simpl. f_equal. f_equal.
    induction (user_achievements d) as [|r l IH]; simpl; [reflexivity|].
    rewrite IH. destruct (String.eqb_spec (ua_user_id r) u) as [Eu|Eu]; simpl.
    + destruct (ua_achievement_id r =? a); simpl;
        destruct (String.eqb_spec (ua_user_id r) v); try congruence; reflexivity.
    + reflexivity.
Qed.

End NotificationProperties.

Section RankProperties.
Import Ledger AchievementActions AchievementQueries.

Variable default_level : option Z.
Variable default_upgrade_confirmed : option bool.

Lemma In_to_unlock_by_rank d u n a :
  List.In a (to_unlock_by_rank d u n) <->
  List.In a (achievements d) /\ a_type a = rank /\ a_threshold a <= n
  /\ ~ List.In (a_id a) (existing_ids d u).
Proof.
  unfold to_unlock_by_rank.
  rewrite List.filter_In, In_order_by_threshold, List.filter_In, reached_spec.
  rewrite Bool.negb_true_iff, <- Bool.not_true_iff_false, existsb_eqb_In.
  tauto.
Qed.

Lemma checkRankAchievements_unlocks f now d u n :
  achievementsError f = false -> existingError f = false -> insertError f = false ->
  achievement_ids
    (snd (checkRankAchievements default_level default_upgrade_confirmed f now d u n))
  = List.map a_id (to_unlock_by_rank d u n).
Proof.
  intros E1 E2 E3. unfold checkRankAchievements. rewrite E1.
  unfold to_unlock_by_rank, existing_ids.
  destruct (order_by_threshold _) as [|a0 l0] eqn:Hord; [reflexivity|].
  rewrite E2.
  destruct (List.filter _ (a0 :: l0)) as [|b0 m0] eqn:Hfil; [reflexivity|].
  rewrite E3. cbv zeta. unfold snd, achievement_ids.
  rewrite List.map_map.
  erewrite List.map_ext; [apply inserted_achievement_ids|].
  intros r. reflexivity.
Qed.

(** Rank achievements go to players at that rank or worse. With the store
    calls answering, [checkRankAchievements] at rank [n] grants exactly
    the rank-type achievements with [threshold <= n] that the user does
    not hold yet; so the leader, at rank 1, is granted none with a
    threshold above 1, and whatever is granted at some rank is granted at
    every larger rank number as well. *)
Theorem rank_achievements_go_to_that_rank_or_worse f now d u n :
  achievementsError f = false -> existingError f = false -> insertError f = false ->
  (forall x,
     List.In x (achievement_ids
                  (snd (checkRankAchievements default_level default_upgrade_confirmed
                          f now d u n))) <->
     exists a, List.In a (achievements d) /\ a_id a = x /\ a_type a = rank
               /\ a_threshold a <= n /\ ~ List.In x (existing_ids d u))
  /\ (forall n' x, n <= n' ->
        List.In x (achievement_ids
                     (snd (checkRankAchievements default_level
                             default_upgrade_confirmed f now d u n))) ->
        List.In x (achievement_ids
                     (snd (checkRankAchievements default_level
                             default_upgrade_confirmed f now d u n')))).
Proof.
  intros E1 E2 E3.
  assert (Hiff : forall m x,
     List.In x (achievement_ids
                  (snd (checkRankAchievements default_level default_upgrade_confirmed
                          f now d u m))) <->
     exists a, List.In a (achievements d) /\ a_id a = x /\ a_type a = rank
               /\ a_threshold a <= m /\ ~ List.In x (existing_ids d u)).
  { intros m x. rewrite (checkRankAchievements_unlocks f now d u m E1 E2 E3).
    rewrite List.in_map_iff. split.
    - intros (a & <- & Ha). apply In_to_unlock_by_rank in Ha. exists a. tauto.
    - intros (a & Ha & <- & Hty & Hth & Hnew). exists a. split; [reflexivity|].
      apply In_to_unlock_by_rank. tauto. }
  split; [apply Hiff|].
  intros n' x Hle Hx. apply Hiff. apply Hiff in Hx.
  destruct Hx as (a & Ha & Hid & Hty & Hth & Hnew). exists a. repeat split; auto. lia.
Qed.

End RankProperties.

Lemma rank_achievements_go_to_that_rank_or_worse_witness :
  AchievementQueries.achievement_ids
    (snd (AchievementQueries.checkRankAchievements (Some 1) (Some false)
            AchievementActions.no_check_faults 0
            (Samples.catalog_db [Samples.rank_milestone 1 2; Samples.rank_milestone 2 3])
            Samples.alice 1)) = []
  /\ List.In 1
       (AchievementQueries.achievement_ids
          (snd (AchievementQueries.checkRankAchievements (Some 1) (Some false)
                  AchievementActions.no_check_faults 0
                  (Samples.catalog_db
                     [Samples.rank_milestone 1 2; Samples.rank_milestone 2 3])
                  Samples.alice 2))).
Proof.
  split; [reflexivity|].
  destruct (rank_achievements_go_to_that_rank_or_worse (Some 1) (Some false)
              AchievementActions.no_check_faults 0
              (Samples.catalog_db
                 [Samples.rank_milestone 1 2; Samples.rank_milestone 2 3])
              Samples.alice 2 eq_refl eq_refl eq_refl) as [Hiff _].
  apply (proj2 (Hiff 1)). exists (Samples.rank_milestone 1 2).
  split; [left; reflexivity|]. split; [reflexivity|]. split; [reflexivity|].
  split; [simpl; lia | intros []].
Defined.

(* ===================================================================== *)
(** * More on the hook helpers *)
(* ===================================================================== *)

Section PowersEqualMoreFacts.
Import Ledger AchievementActions UseAchievements.

Lemma arePowersEqual_iff powers1 powers2 :
  arePowersEqual powers1 powers2 = true <->
  List.length powers1 = List.length powers2
  /\ forall p2, List.In p2 powers2 ->
       exists p1, powerMap powers1 !! key_of p2 = Some p1
                  /\ compared p1 = compared p2.
Proof.
  unfold arePowersEqual.
  destruct (Nat.eqb_spec (List.length powers1) (List.length powers2)) as [El|El];
    simpl.
  - rewrite List.forallb_forall. split.
    + intros H. split; [exact El|]. intros p2 Hp2. specialize (H p2 Hp2).
      fold (key_of p2) in H.
      destruct (powerMap powers1 !! key_of p2) as [p1|] eqn:Hm; [|discriminate].
      exists p1. split; [reflexivity|].
      apply same_power_spec; [|exact H].
      apply (powerMap_lookup_In _ _ _ Hm).
    + intros [_ H] p2 Hp2. destruct (H p2 Hp2) as (p1 & Hm & Hc).
      fold (key_of p2). rewrite Hm. apply same_power_spec; [|exact Hc].
      apply (powerMap_lookup_In _ _ _ Hm).
  - split; [discriminate | intros [E _]; contradiction].
Qed.

Lemma powerMap_NoDup_lookup l p :
  List.NoDup (List.map key_of l) -> List.In p l -> powerMap l !! key_of p = Some p.
Proof. intros Hnd Hin. unfold powerMap. apply powerMap_fold_NoDup; assumption. Qed.

Lemma arePowersEqual_swap powers1 powers2 :
  List.NoDup (List.map key_of powers1) -> List.NoDup (List.map key_of powers2) ->
  arePowersEqual powers1 powers2 = true -> arePowersEqual powers2 powers1 = true.
Proof.
  intros Hnd1 Hnd2 H. apply arePowersEqual_iff in H. destruct H as [Hlen Hall].
  apply arePowersEqual_iff. split; [symmetry; exact Hlen|].
  assert (Hincl : List.incl (List.map key_of powers2) (List.map key_of powers1)).
  { intros k Hk. apply List.in_map_iff in Hk. destruct Hk as (p2 & <- & Hp2).
    destruct (Hall p2 Hp2) as (p1 & Hm & _).
    apply powerMap_lookup_In in Hm. destruct Hm as [Hin <-].
    apply List.in_map. exact Hin. }
  assert (Hback : List.incl (List.map key_of powers1) (List.map key_of powers2)).
  { apply List.NoDup_length_incl; [exact Hnd2 | | exact Hincl].
    rewrite !List.length_map. lia. }
  intros p1 Hp1.
  assert (Hk : List.In (key_of p1) (List.map key_of powers2))
    by (apply Hback; apply List.in_map; exact Hp1).
  apply List.in_map_iff in Hk. destruct Hk as (p2 & Ek & Hp2).
  exists p2. split.
  - rewrite <- Ek. apply powerMap_NoDup_lookup; assumption.
  - destruct (Hall p2 Hp2) as (q & Hm & Hc).
    rewrite Ek, (powerMap_NoDup_lookup powers1 p1 Hnd1 Hp1) in Hm.
    injection Hm as <-. symmetry. exact Hc.
Qed.

End PowersEqualMoreFacts.

Section PowersEqualMoreProperties.
Import Ledger AchievementActions UseAchievements.

(** On views with distinct row ids [arePowersEqual] behaves as an
    equality: the order of the powers does not matter (a view compares
    equal to any rearrangement of itself, and so to itself), and when the
    other view has distinct ids too the answer is the same whichever view
    is passed first. *)
Theorem arePowersEqual_ignores_order powers1 powers2 :
  List.NoDup (List.map key_of powers1) ->
  (Permutation powers1 powers2 -> arePowersEqual powers1 powers2 = true)
  /\ (List.NoDup (List.map key_of powers2) ->
      arePowersEqual powers1 powers2 = arePowersEqual powers2 powers1).
Proof.
  intros Hnd1. split.
  - intros Hperm. apply arePowersEqual_iff. split.
    + apply Permutation_length. exact Hperm.
    + intros p2 Hp2. exists p2. split; [|reflexivity].
      apply powerMap_NoDup_lookup; [exact Hnd1|].
      apply (Permutation_in _ (Permutation_sym Hperm)). exact Hp2.
  - intros Hnd2.
    destruct (arePowersEqual powers1 powers2) eqn:E12.
    + symmetry. apply arePowersEqual_swap; assumption.
    + destruct (arePowersEqual powers2 powers1) eqn:E21; [|reflexivity].
      rewrite <- E12. apply arePowersEqual_swap; assumption.
Qed.

Lemma arePowersEqual_ignores_order_witness :
  arePowersEqual
    [Samples.active_multiplier 2 true; Samples.other_power]
    [Samples.other_power; Samples.active_multiplier 2 true] = true.
Proof.
  assert (Hnd : List.NoDup
            (List.map key_of [Samples.active_multiplier 2 true; Samples.other_power])).
  { simpl. constructor; [intros [H|[]]; discriminate|].
    constructor; [intros [] | constructor]. }
  destruct (arePowersEqual_ignores_order
              [Samples.active_multiplier 2 true; Samples.other_power]
              [Samples.other_power; Samples.active_multiplier 2 true] Hnd) as [H _].
  apply H. apply perm_swap.
Defined.

End PowersEqualMoreProperties.

Section MultiplierMoreProperties.
Import Ledger AchievementActions UseAchievements ClickerGame GameLoop.

Lemma fold_product (l : list Q) : forall a : Q,
  (List.fold_left (fun total multiplier => total * multiplier) l a
   == a * List.fold_left (fun total multiplier => total * multiplier) l 1)%Q.
Proof.
  induction l as [|x l IH]; intros a; simpl.
  - ring.
  - rewrite (IH (a * x)%Q), (IH (1 * x)%Q). ring.
Qed.

Lemma getClickMultiplier_product ps :
  getClickMultiplier ps
  = List.fold_left (fun total multiplier => (total * multiplier)%Q)
      (List.map effect_value_or_one (List.filter is_multiplier ps)) 1%Q.
Proof.
  unfold getClickMultiplier.
  destruct (List.map effect_value_or_one (List.filter is_multiplier ps)); reflexivity.
Qed.

Lemma or_one_nonzero x : ~ (or_one x == 0)%Q.
Proof.
  unfold or_one. destruct (Qeq_bool x 0) eqn:E.
  - discriminate.
  - intros H. apply Qeq_bool_iff in H. congruence.
Qed.

Lemma effect_value_or_one_nonzero p : ~ (effect_value_or_one p == 0)%Q.
Proof.
  unfold effect_value_or_one. destruct (power p); [apply or_one_nonzero | discriminate].
Qed.

Lemma whole_product (l : list Q) :
  List.Forall (fun v => exists z : Z, z <> 0 /\ (v == inject_Z z)%Q) l ->
  exists z : Z, z <> 0
    /\ (List.fold_left (fun total multiplier => total * multiplier) l 1 == inject_Z z)%Q.
Proof.
  induction 1 as [|v l (zv & Hzv & Hv) _ (zl & Hzl & Hl)]; simpl.
  - exists 1. split; [discriminate | reflexivity].
  - exists (zv * zl). split; [lia|].
    rewrite fold_product, Hl, Hv, inject_Z_mult. ring.
Qed.

Lemma whole_valued_values ps :
  whole_valued ps = true ->
  List.Forall (fun v => exists z : Z, z <> 0 /\ (v == inject_Z z)%Q)
    (List.map effect_value_or_one (List.filter is_multiplier ps)).
Proof.
  unfold whole_valued. intros H. rewrite List.forallb_forall in H.
  apply List.Forall_forall. intros v Hv.
  apply List.in_map_iff in Hv. destruct Hv as (p & <- & Hp).
  apply List.filter_In in Hp. destruct Hp as [Hin Hm].
  specialize (H p Hin). rewrite Hm in H. simpl in H.
  unfold is_whole in H. apply Qeq_bool_iff in H.
  exists (Qfloor (effect_value_or_one p)). split; [|exact H].
  intros E. rewrite E in H. exact (effect_value_or_one_nonzero p H).
Qed.

(** The click multiplier on whole-number effect values. Where every
    multiplier power has a whole-number effect value and the product
    stays within [2^53], so that the floating-point product of the source
    is the exact one: the multiplier of two lists of powers put together
    is the product of their multipliers; it is a whole number other than
    zero (an effect value of 0 counts as 1) and a click is worth that
    number, or 1 when it is smaller; a power of another effect type
    changes nothing. *)
Theorem click_multiplier_is_a_product ps qs :
  whole_valued (ps ++ qs) = true ->
  exactly_representable (getClickMultiplier (ps ++ qs)) ->
  (getClickMultiplier (ps ++ qs) == getClickMultiplier ps * getClickMultiplier qs)%Q
  /\ (exists z : Z, z <> 0
        /\ (getClickMultiplier (ps ++ qs) == inject_Z z)%Q
        /\ click_value (getClickMultiplier (ps ++ qs)) = Z.max 1 z)
  /\ (forall p, is_multiplier p = false ->
        getClickMultiplier (p :: ps) = getClickMultiplier ps).
Proof.
  intros Hwhole _. split; [|split].
  - rewrite !getClickMultiplier_product, List.filter_app, List.map_app,
      List.fold_left_app.
    apply fold_product.
  - destruct (whole_product _ (whole_valued_values _ Hwhole)) as (z & Hz & Hp).
    rewrite <- getClickMultiplier_product in Hp.
    exists z. split; [exact Hz|]. split; [exact Hp|].
    unfold click_value. rewrite Hp, Qfloor_Z. reflexivity.
  - intros p Hp. unfold getClickMultiplier. simpl. rewrite Hp. reflexivity.
Qed.

Lemma click_multiplier_is_a_product_witness :
  (getClickMultiplier
     ([Samples.active_multiplier 1 false; Samples.other_power]
      ++ [Samples.active_multiplier 3 true]) == 4)%Q
  /\ click_value
       (getClickMultiplier
          ([Samples.active_multiplier 1 false; Samples.other_power]
           ++ [Samples.active_multiplier 3 true])) = 4.
Proof.
  destruct (click_multiplier_is_a_product
              [Samples.active_multiplier 1 false; Samples.other_power]
              [Samples.active_multiplier 3 true] eq_refl)
    as (H1 & _ & _).
  - unfold exactly_representable. discriminate.
  - split; [rewrite H1; reflexivity | reflexivity].
Defined.

(** What a click is worth. [max(1, floor(multiplier))] drops the
    fraction of the multiplier: it is the largest whole number not above
    the multiplier once that reaches 1, and it is 1 for every multiplier
    below 2, so a bonus of less than a doubling changes nothing. *)
Theorem click_value_drops_fractions (m : Q) :
  ((m < 2)%Q -> click_value m = 1)
  /\ ((1 <= m)%Q ->
      (inject_Z (click_value m) <= m)%Q /\ (m < inject_Z (click_value m + 1))%Q).
Proof.
  unfold click_value. split.
  - intros H. assert (Qfloor m < 2).
    { apply Z.lt_nge. intros Hge.
      assert (Hq : (2 <= m)%Q).
      { eapply Qle_trans; [|apply Qfloor_le].
        change 2%Q with (inject_Z 2). rewrite <- Zle_Qle. exact Hge. }
      apply (Qlt_not_le _ _ H Hq). }
    lia.
  - intros H.
    assert (1 <= Qfloor m).
    { change 1 with (Qfloor 1). apply Qfloor_resp_le. exact H. }
    rewrite Z.max_r by assumption. split; [apply Qfloor_le | apply Qlt_floor].
Qed.

End MultiplierMoreProperties.

Section AutoClickerFacts.
Import Ledger AchievementActions UseAchievements ClickerGame GameLoop.




End AutoClickerFacts.

Section AutoClickerProperties.
Import Ledger AchievementActions UseAchievements ClickerGame GameLoop.


End AutoClickerProperties.

Section LeaderboardFacts.
Import Ledger AchievementActions UseAchievements ClickerGame GameLoop.

(** What the ranking keeps of an entry: everything but the rank. *)
Lemma insert_by_clicks_perm a l : Permutation (insert_by_clicks a l) (a :: l).
Proof.
  induction l as [|b l IH]; simpl; [reflexivity|].
  destruct (ps_clicks b <=? ps_clicks a); [reflexivity|].
  rewrite IH. apply perm_swap.
Qed.

Lemma most_clicks_first_perm l : Permutation (most_clicks_first l) l.
Proof.
  induction l as [|a l IH]; simpl; [reflexivity|].
  rewrite insert_by_clicks_perm. now constructor.
Qed.

Lemma insert_by_clicks_sorted a l :
  StronglySorted (fun x y => ps_clicks y <= ps_clicks x) l ->
  StronglySorted (fun x y => ps_clicks y <= ps_clicks x) (insert_by_clicks a l).
Proof.
  induction l as [|b l IH]; intros Hs; simpl.
  - constructor; constructor.
  - inversion Hs as [|? ? Hs' Hb]; subst.
    destruct (ps_clicks b <=? ps_clicks a) eqn:E.
    + apply Z.leb_le in E. constructor; [exact Hs|].
      constructor; [exact E|].
      eapply List.Forall_impl; [|exact Hb]. simpl. intros y Hy. lia.
    + apply Z.leb_gt in E. constructor; [exact (IH Hs')|].
      apply List.Forall_forall. intros y Hy.
      apply (Permutation_in _ (insert_by_clicks_perm a l)) in Hy.
      destruct Hy as [<-|Hy]; [lia|].
      exact (proj1 (List.Forall_forall _ _) Hb y Hy).
Qed.

Lemma most_clicks_first_sorted l :
  StronglySorted (fun x y => ps_clicks y <= ps_clicks x) (most_clicks_first l).
Proof.
  induction l as [|a l IH]; simpl; [constructor|].
  apply insert_by_clicks_sorted. exact IH.
Qed.

Lemma In_ranked_from l : forall index y,
  List.In y (ranked_from index l) ->
  index < ps_rank y /\ exists y0, List.In y0 l /\ ps_clicks y = ps_clicks y0.
Proof.
  induction l as [|x l IH]; intros index y Hy; simpl in Hy; [contradiction|].
  destruct Hy as [<-|Hy].
  - simpl. split; [lia|]. exists x. split; [now left | reflexivity].
  - destruct (IH _ _ Hy) as (H1 & y0 & H2 & H3).
    split; [lia|]. exists y0. split; [now right | exact H3].
Qed.

Lemma ranked_from_keeps l : forall index,
  List.map (fun p => (ps_id p, ps_username p, ps_clicks p, isCurrentUser p))
    (ranked_from index l)
  = List.map (fun p => (ps_id p, ps_username p, ps_clicks p, isCurrentUser p)) l.
Proof.
  induction l as [|x l IH]; intros index; simpl; [reflexivity|].
  now rewrite IH.
Qed.

Lemma ranked_from_ranks l : forall index,
  List.map ps_rank (ranked_from index l)
  = List.map (fun i => index + Z.of_nat i) (List.seq 1 (List.length l)).
Proof.
  induction l as [|x l IH]; intros index; simpl; [reflexivity|].
  f_equal. rewrite IH, <- (List.seq_shift (List.length l) 1), List.map_map.
  apply List.map_ext. intros i. lia.
Qed.

Lemma ranked_from_sorted l : forall index,
  StronglySorted (fun x y => ps_clicks y <= ps_clicks x) l ->
  StronglySorted (fun x y => ps_clicks y <= ps_clicks x /\ ps_rank x < ps_rank y)
    (ranked_from index l).
Proof.
  induction l as [|x l IH]; intros index Hs; simpl; [constructor|].
  inversion Hs as [|? ? Hs' Hx]; subst.
  constructor; [exact (IH _ Hs')|].
  apply List.Forall_forall. intros y Hy. simpl.
  destruct (In_ranked_from _ _ _ Hy) as (H1 & y0 & H2 & H3).
  split; [|exact H1].
  rewrite H3. exact (proj1 (List.Forall_forall _ _) Hx y0 H2).
Qed.

Lemma sorted_weaken {A} (R S : A -> A -> Prop) l :
  (forall x y, R x y -> S x y) -> StronglySorted R l -> StronglySorted S l.
Proof.
  intros HRS. induction 1 as [|x l Hs IH Hx]; constructor; [exact IH|].
  eapply List.Forall_impl; [|exact Hx]. intros y. apply HRS.
Qed.

Lemma sorted_pair {A} (R : A -> A -> Prop) l :
  StronglySorted R l ->
  forall a b, List.In a l -> List.In b l -> a = b \/ R a b \/ R b a.
Proof.
  induction 1 as [|x l Hs IH Hx]; intros a b Ha Hb; [contradiction|].
  destruct Ha as [<-|Ha], Hb as [<-|Hb].
  - now left.
  - right; left. exact (proj1 (List.Forall_forall _ _) Hx b Hb).
  - right; right. exact (proj1 (List.Forall_forall _ _) Hx a Ha).
  - exact (IH a b Ha Hb).
Qed.

End LeaderboardFacts.

Section LeaderboardProperties.
Import Ledger AchievementActions UseAchievements ClickerGame GameLoop.

(** The leaderboard [fetchScores] builds from the profiles and the click
    rows. It has one entry per profile: the ranking keeps the entries of
    [combinedData] (id, name, clicks, current-user flag) and only
    reorders them. The ranks are 1, 2, ..., n from the top, the clicks
    never increase down the board, and a player with more clicks always
    has a better (smaller) rank. Players with the same clicks get
    different ranks. *)
Theorem leaderboard_ranks_by_clicks (profiles : list Profile)
    (rows : list ClickRow) (user : option string) :
  let board := rankedPlayers profiles rows user in
  Permutation
    (List.map (fun p => (ps_id p, ps_username p, ps_clicks p, isCurrentUser p)) board)
    (List.map (fun p => (ps_id p, ps_username p, ps_clicks p, isCurrentUser p))
       (combinedData profiles rows user))
  /\ List.length board = List.length profiles
  /\ List.map ps_rank board
     = List.map Z.of_nat (List.seq 1 (List.length profiles))
  /\ StronglySorted (fun x y => ps_clicks y <= ps_clicks x) board
  /\ (forall a b, List.In a board -> List.In b board ->
        ps_clicks a < ps_clicks b -> ps_rank b < ps_rank a)
  /\ List.NoDup (List.map ps_rank board).
Proof.
  intros board. unfold board, rankedPlayers.
  set (sorted := most_clicks_first (combinedData profiles rows user)).
  assert (Hlen : List.length sorted = List.length profiles).
  { unfold sorted. rewrite (Permutation_length (most_clicks_first_perm _)).
    unfold combinedData. apply List.length_map. }
  assert (Hss : StronglySorted
                  (fun x y => ps_clicks y <= ps_clicks x /\ ps_rank x < ps_rank y)
                  (ranked_from 0 sorted)).
  { apply ranked_from_sorted. apply most_clicks_first_sorted. }
  assert (Hranks : List.map ps_rank (ranked_from 0 sorted)
                   = List.map Z.of_nat (List.seq 1 (List.length profiles))).
  { rewrite ranked_from_ranks, Hlen. apply List.map_ext. intros i. lia. }
  split; [|split; [|split; [|split; [|split]]]].
  - rewrite ranked_from_keeps. apply Permutation_map. apply most_clicks_first_perm.
  - rewrite <- (List.length_map ps_rank), Hranks, List.length_map, List.length_seq.
    reflexivity.
  - exact Hranks.
  - eapply sorted_weaken; [|exact Hss]. intros x y [H _]. exact H.
  - intros a b Ha Hb Hlt.
    destruct (sorted_pair _ _ Hss a b Ha Hb) as [->|[[H _]|[_ H]]]; [lia | lia | exact H].
  - rewrite Hranks. apply Finite.Injective_map_NoDup; [|apply List.seq_NoDup].
    intros x y H. lia.
Qed.

End LeaderboardProperties.

Section QueueFacts.
Import Ledger AchievementActions UseAchievements ClickerGame GameLoop.

Lemma click_value_positive m : 0 < click_value m.
Proof. unfold click_value. lia. Qed.

Lemma processClickQueue_sound g : sound g -> sound (processClickQueue g).
Proof.
  intros Hg. pose proof Hg as [Hp Hs]. unfold processClickQueue.
  destruct (user g) as [uid|]; [|exact Hg].
  destruct (isProcessing g) eqn:Ei; simpl; [exact Hg|].
  destruct (pendingClicks g =? 0) eqn:E0; [exact Hg|].
  apply Z.eqb_neq in E0. split; simpl; [exact Hp|]. split; [reflexivity | lia].
Qed.

Lemma handleClickUpdate_sound m g : sound g -> sound (handleClickUpdate m g).
Proof.
  intros [Hp Hs]. pose proof (click_value_positive m) as Hm.
  unfold handleClickUpdate.
  destruct (user g) as [uid|] eqn:Eu; [|split; assumption].
  cbn [isProcessing]. destruct (isProcessing g) eqn:Ei; cbn [negb].
  - split; cbn [pendingClicks suspended isProcessing]; [lia|]. rewrite ?Ei.
    destruct (suspended g); [congruence| | |]; (split; [reflexivity | lia]).
  - apply processClickQueue_sound. split; cbn [pendingClicks suspended isProcessing]; [lia|].
    rewrite ?Ei. destruct (suspended g); [reflexivity| | |]; destruct Hs; congruence.
Qed.

Lemma finally_sound now g : 0 <= pendingClicks g -> sound (finally now g).
Proof. intros H. split; [exact H | reflexivity]. Qed.

Lemma resume_sound c t1 t2 g : sound g -> sound (resume c t1 t2 g).
Proof.
  intros [Hp Hs]. unfold resume.
  destruct (suspended g) as [|uid k n|uid k n|uid k n] eqn:Es;
    [split; [exact Hp | rewrite Es; exact Hs] | | |];
    destruct Hs as [Hi Hk];
    destruct c as [[r|]|[err|]];
    try (split; [exact Hp | rewrite Es; split; assumption]);
    try (apply finally_sound; exact Hp).
  - destruct (success r).
    + apply finally_sound. simpl. lia.
    + destruct (is_auth_issue r).
      * split; simpl; [exact Hp | split; assumption].
      * apply finally_sound. exact Hp.
  - destruct err; simpl.
    + apply finally_sound. exact Hp.
    + split; simpl; [exact Hp | split; assumption].
  - destruct (success r).
    + apply finally_sound. simpl. lia.
    + apply finally_sound. exact Hp.
Qed.

Lemma fetchScores_frame rows g :
  pendingClicks (fetchScores rows g) = pendingClicks g
  /\ isProcessing (fetchScores rows g) = isProcessing g
  /\ suspended (fetchScores rows g) = suspended g
  /\ requests (fetchScores rows g) = requests g.
Proof.
  unfold fetchScores.
  destruct (user g) as [uid|]; [|repeat split].
  destruct (List.find _ rows); repeat split.
Qed.

Lemma fetchScores_sound rows g : sound g -> sound (fetchScores rows g).
Proof.
  intros [Hp Hs]. destruct (fetchScores_frame rows g) as (E1 & E2 & E3 & _).
  unfold sound. rewrite E1, E2, E3. split; assumption.
Qed.

Lemma play_one_sound e g : sound g -> sound (play_one e g).
Proof.
  destruct e; simpl;
    [apply handleClickUpdate_sound | apply processClickQueue_sound
     | apply resume_sound | apply fetchScores_sound].
Qed.

Lemma processClickQueue_balanced g : balanced g -> balanced (processClickQueue g).
Proof.
  intros [Hc Hs]. unfold processClickQueue.
  destruct (user g) as [uid|]; [|split; assumption].
  destruct (isProcessing g || (pendingClicks g =? 0)); [split; assumption|].
  split; simpl; [exact Hc | reflexivity].
Qed.

Lemma handleClickUpdate_balanced m g : balanced g -> balanced (handleClickUpdate m g).
Proof.
  intros [Hc Hs]. unfold handleClickUpdate.
  destruct (user g) as [uid|] eqn:Eu; [|split; assumption].
  assert (Hq : balanced
            {| user := user g; clickCount := clickCount g + click_value m;
               pendingClicks := pendingClicks g + click_value m;
               isProcessing := isProcessing g;
               lastProcessedTimestamp := lastProcessedTimestamp g;
               serverConfirmedClicks := serverConfirmedClicks g;
               suspended := suspended g; requests := requests g;
               refreshes := refreshes g; toasts := toasts g; timers := timers g |}).
  { split; simpl; [lia | exact Hs]. }
  cbn [isProcessing]. destruct (negb (isProcessing g)); [|exact Hq].
  apply processClickQueue_balanced. exact Hq.
Qed.

Lemma commit_balanced r k n t1 t2 g :
  clickCount g = serverConfirmedClicks g + pendingClicks g ->
  n = serverConfirmedClicks g + k ->
  or_else (newCount r) n = n ->
  balanced (finally t2 (commit r k n t1 g)).
Proof.
  intros Hc Hn Hr. split; simpl; [|exact I]. rewrite Hr. lia.
Qed.

Lemma or_else_echo r n :
  match newCount r, Some n with
  | Some v, Some n => (v =? 0) || (v =? n)
  | _, _ => true
  end = true ->
  or_else (newCount r) n = n.
Proof.
  unfold or_else. destruct (newCount r) as [v|]; [|reflexivity].
  destruct (v =? 0) eqn:E0; [reflexivity|]. simpl. intros H.
  apply Z.eqb_eq in H. exact H.
Qed.

Lemma resume_balanced c t1 t2 g :
  balanced g -> undisturbing (Settled c t1 t2) g = true ->
  balanced (resume c t1 t2 g).
Proof.
  intros [Hc Hs] Hu. unfold resume. unfold undisturbing, submitted in Hu.
  destruct (suspended g) as [|uid k n|uid k n|uid k n] eqn:Es;
    [split; [exact Hc | rewrite Es; exact I] | | |];
    destruct c as [[r|]|[err|]];
    try (split; [exact Hc | rewrite Es; exact Hs]);
    try (split; [exact Hc | exact I]).
  - destruct (success r); simpl in Hu.
    + apply commit_balanced; [exact Hc | exact Hs | apply or_else_echo; exact Hu].
    + destruct (is_auth_issue r); split; simpl; try exact Hc; try exact Hs; exact I.
  - destruct err; split; simpl; try exact Hc; try exact Hs; exact I.
  - destruct (success r); simpl in Hu.
    + apply commit_balanced; [exact Hc | exact Hs | apply or_else_echo; exact Hu].
    + split; simpl; [exact Hc | exact I].
Qed.

Lemma fetchScores_balanced rows g :
  balanced g -> undisturbing (Fetched rows) g = true ->
  balanced (fetchScores rows g).
Proof.
  intros [Hc Hs] Hu. simpl in Hu.
  destruct (suspended g) eqn:Es; try discriminate.
  unfold fetchScores.
  destruct (user g) as [uid|]; [|split; [exact Hc | rewrite Es; exact I]].
  destruct (List.find _ rows); split; simpl; try rewrite Es; try exact I; lia.
Qed.

Lemma play_one_in_flight e g :
  isProcessing g = true -> settles e = false ->
  isProcessing (play_one e g) = true
  /\ requests (play_one e g) = requests g
  /\ refreshes (play_one e g) = refreshes g
  /\ suspended (play_one e g) = suspended g
  /\ pendingClicks g <= pendingClicks (play_one e g).
Proof.
  intros Hi He. destruct e as [m| |c t1 t2|rows]; simpl in *; try discriminate.
  - pose proof (click_value_positive m) as Hm. unfold handleClickUpdate.
    destruct (user g); cbn [isProcessing];
      [|repeat split; simpl; try exact Hi; try reflexivity; lia].
    rewrite Hi. simpl. repeat split; try exact Hi; try reflexivity; lia.
  - unfold processClickQueue.
    destruct (user g); [|repeat split; try exact Hi; try reflexivity; lia].
    rewrite Hi. simpl. repeat split; try exact Hi; try reflexivity; lia.
  - unfold fetchScores.
    destruct (user g) as [uid|]; [|repeat split; try exact Hi; try reflexivity; lia].
    destruct (List.find _ rows); simpl; repeat split; try exact Hi; try reflexivity; lia.
Qed.

Lemma play_one_balanced e g :
  balanced g -> undisturbing e g = true -> balanced (play_one e g).
Proof.
  destruct e; intros Hb Hu; simpl;
    [apply handleClickUpdate_balanced | apply processClickQueue_balanced
     | apply resume_balanced | apply fetchScores_balanced]; assumption.
Qed.

End QueueFacts.

Section QueueProperties.
Import Ledger AchievementActions UseAchievements ClickerGame GameLoop Samples.

(** The click queue keeps its books in order over every sequence of
    clicks, flush triggers, settled calls (answers, failures, thrown
    errors) and leaderboard fetches: the pending count never goes
    negative, the processing lock is held exactly while a call is
    pending, so it is always released when the flush ends, and the
    amount in flight is positive and still counted as pending. *)
Theorem click_queue_stays_sound (es : list GameEvent) (g : Game) :
  sound g -> sound (play es g).
Proof.
  revert g. induction es as [|e es IH]; intros g Hg; simpl; [exact Hg|].
  apply IH. apply play_one_sound. exact Hg.
Qed.

(** The counter on screen accounts for every click: as long as the store
    answers a successful update with the total it was sent (or none) and
    no leaderboard fetch lands while a flush is in flight, the displayed
    count is the confirmed total plus the clicks still pending, after
    any sequence of clicks, triggers, failures, retries and fetches.
    Each handler runs on the count of the latest render, one event at a
    time. *)
Theorem shown_count_is_confirmed_plus_pending (es : list GameEvent) (g : Game) :
  balanced g -> undisturbed es g = true ->
  clickCount (play es g)
  = serverConfirmedClicks (play es g) + pendingClicks (play es g).
Proof.
  intros Hb Hu. enough (H : balanced (play es g)) by exact (proj1 H).
  revert g Hb Hu. induction es as [|e es IH]; intros g Hb Hu; simpl; [exact Hb|].
  simpl in Hu. apply andb_prop in Hu. destruct Hu as [Hu1 Hu2].
  apply IH; [apply play_one_balanced; assumption | exact Hu2].
Qed.

(** One flush at a time. While a call of the flush is pending, no click,
    flush trigger (timer) or leaderboard fetch sends a request of its
    own: the update requests and credential refreshes sent stay what they
    were, the lock stays taken and the pending call stays the same one;
    clicks only add to the pending count. Only the settling of the
    pending call moves the flush on. *)
Theorem one_flush_at_a_time (es : list GameEvent) (g : Game) :
  isProcessing g = true ->
  List.forallb (fun e => negb (settles e)) es = true ->
  isProcessing (play es g) = true
  /\ requests (play es g) = requests g
  /\ refreshes (play es g) = refreshes g
  /\ suspended (play es g) = suspended g
  /\ pendingClicks g <= pendingClicks (play es g).
Proof.
  revert g. induction es as [|e es IH]; intros g Hi Hes; simpl.
  - repeat split; try exact Hi; try reflexivity; lia.
  - simpl in Hes. apply andb_prop in Hes. destruct Hes as [He Hes].
    apply Bool.negb_true_iff in He.
    destruct (play_one_in_flight e g Hi He) as (H1 & H2 & H3 & H4 & H5).
    destruct (IH (play_one e g) H1 Hes) as (I1 & I2 & I3 & I4 & I5).
    split; [exact I1|]. split; [congruence|]. split; [congruence|].
    split; [congruence | lia].
Qed.

Lemma one_flush_at_a_time_witness :
  let sent := processClickQueue five_pending in
  let after :=
    play [Clicked 2; Triggered; Fetched [{| click_id := alice; qty := Some 10 |}];
          Clicked (7 # 2); Triggered]
      sent in
  requests after = [(alice, alice, 15)]
  /\ suspended after = AwaitingUpdate alice 5 15
  /\ 5 <= pendingClicks after.
Proof.
  destruct (one_flush_at_a_time
              [Clicked 2; Triggered; Fetched [{| click_id := alice; qty := Some 10 |}];
               Clicked (7 # 2); Triggered]
              (processClickQueue five_pending) eq_refl eq_refl)
    as (_ & H2 & _ & H4 & H5).
  split; [exact H2 | split; [exact H4 | exact H5]].
Defined.

Lemma click_queue_stays_sound_witness :
  sound
    (play [Clicked 2; Clicked (7 # 2);
           Settled (UpdateSettled (Fulfilled (failed_with "Authentication required")))
             2000 2000;
           Fetched [{| click_id := alice; qty := Some 10 |}];
           Settled (RefreshSettled (Fulfilled false)) 2100 2100;
           Settled (UpdateSettled (Fulfilled (confirmed_with (Some 17)))) 2200 2200]
       five_pending).
Proof.
  apply click_queue_stays_sound. split; [discriminate | reflexivity].
Defined.

Lemma shown_count_is_confirmed_plus_pending_witness :
  let after :=
    play [Clicked 2; Clicked (7 # 2);
          Settled (UpdateSettled (Fulfilled (failed_with "Authentication required")))
            2000 2000;
          Settled (RefreshSettled (Fulfilled false)) 2100 2100;
          Settled (UpdateSettled (Fulfilled (confirmed_with (Some 17)))) 2200 2200;
          Fetched [{| click_id := alice; qty := Some 17 |}]]
      five_pending in
  clickCount after = serverConfirmedClicks after + pendingClicks after.
Proof.
  apply shown_count_is_confirmed_plus_pending; [split; [reflexivity | exact I] | reflexivity].
Defined.

End QueueProperties.

Section PanelProperties.
Import Ledger AchievementActions PowersPanel Samples.

(** The two client-side discrepancy checks pick the same powers:
    [checkPowerActiveDiscrepancy] and the [powersToFix] filter of
    [fixActiveStatusDiscrepancy] both return, in order, the powers that
    are switched off and carry an expiry date in the future. Each of them
    is a row the server-side repair of [getActiveUserPowers] selects as
    well; a switched-off power without expiry date is selected by the
    server-side repair but reported by neither client check. *)
Theorem discrepancy_checks_agree (now : Z) (powers : list UserPower) :
  checkPowerActiveDiscrepancy now powers = powersToFix now powers
  /\ (forall p, List.In p (powersToFix now powers) <->
        List.In p powers /\ up_is_active (row p) = false
        /\ exists expiry, up_expires_at (row p) = Some expiry /\ now < expiry)
  /\ (forall p, List.In p (powersToFix now powers) ->
        selected now (up_user_id (row p)) false (row p) = true)
  /\ (forall p, List.In p powers -> up_is_active (row p) = false ->
        up_expires_at (row p) = None ->
        selected now (up_user_id (row p)) false (row p) = true
        /\ ~ List.In p (powersToFix now powers)).
Proof.
  assert (Hspec : forall p, List.In p (powersToFix now powers) <->
            List.In p powers /\ up_is_active (row p) = false
            /\ exists expiry, up_expires_at (row p) = Some expiry /\ now < expiry).
  { intros p. unfold powersToFix. rewrite List.filter_In. split.
    - intros [Hin H]. split; [exact Hin|].
      destruct (up_expires_at (row p)) as [e|]; [|discriminate].
      apply andb_prop in H. destruct H as [H1 H2].
      apply Z.ltb_lt in H1. apply Bool.negb_true_iff in H2.
      split; [exact H2|]. exists e. split; [reflexivity | exact H1].
    - intros (Hin & Ha & e & He & Hlt). split; [exact Hin|].
      rewrite He, Ha. apply Z.ltb_lt in Hlt. rewrite Hlt. reflexivity. }
  split; [|split; [exact Hspec|split]].
  - unfold checkPowerActiveDiscrepancy, powersToFix. apply List.filter_ext.
    intros p. unfold isPowerVisuallyActive.
    destruct (up_is_active (row p)); simpl.
    + destruct (up_expires_at (row p)); [rewrite Bool.andb_false_r|]; reflexivity.
    + destruct (up_expires_at (row p)); rewrite ?Bool.andb_true_r; reflexivity.
  - intros p Hp. apply Hspec in Hp. destruct Hp as (_ & Ha & e & He & Hlt).
    unfold selected, not_expired. rewrite String.eqb_refl, Ha, He.
    apply Z.ltb_lt in Hlt. rewrite Hlt. reflexivity.
  - intros p Hin Ha He. split.
    + unfold selected, not_expired. rewrite String.eqb_refl, Ha, He. reflexivity.
    + intros Hp. apply Hspec in Hp. destruct Hp as (_ & _ & e & He' & _). congruence.
Qed.

(** The countdown of the powers panel. A power without expiry date reads
    "Permanent" and one whose date has come reads "Expired"; otherwise
    the panel prints hours, minutes and seconds that add up to the whole
    seconds left, with minutes and seconds below 60 and the hours not
    capped. A power with less than a second left is not "Expired" yet:
    it reads "0h 0m 0s". *)
Theorem countdown_splits_the_seconds_left (now expiry : Z) :
  now < expiry ->
  let '(hours, minutes, seconds) := time_parts (expiry - now) in
  formatTimeRemaining now (Some expiry)
  = (decimal hours ++ "h " ++ decimal minutes ++ "m " ++ decimal seconds ++ "s")%string
  /\ hours * 3600 + minutes * 60 + seconds = (expiry - now) / 1000
  /\ 0 <= hours /\ 0 <= minutes < 60 /\ 0 <= seconds < 60
  /\ (expiry - now < 1000 ->
      formatTimeRemaining now (Some expiry) = "0h 0m 0s"%string)
  /\ formatTimeRemaining expiry (Some now) = "Expired"%string
  /\ formatTimeRemaining now (Some now) = "Expired"%string
  /\ formatTimeRemaining now None = "Permanent"%string.
Proof.
  intros Hlt. unfold time_parts.
  set (diffSec := (expiry - now) / 1000).
  assert (Hsec : 0 <= diffSec) by (apply Z.div_pos; lia).
  assert (Hfmt : formatTimeRemaining now (Some expiry)
                 = (decimal (diffSec / 3600) ++ "h " ++ decimal (diffSec mod 3600 / 60)
                    ++ "m " ++ decimal (diffSec mod 60) ++ "s")%string).
  { unfold formatTimeRemaining.
    destruct (expiry - now <=? 0) eqn:E; [apply Z.leb_le in E; lia|].
    reflexivity. }
  split; [exact Hfmt|].
  pose proof (Z.mod_pos_bound diffSec 3600 ltac:(lia)) as H3600.
  pose proof (Z.mod_pos_bound diffSec 60 ltac:(lia)) as H60.
  pose proof (Z.div_mod diffSec 3600 ltac:(lia)) as Hd.
  pose proof (Z.div_mod (diffSec mod 3600) 60 ltac:(lia)) as Hm.
  assert (Hmm : (diffSec mod 3600) mod 60 = diffSec mod 60).
  { apply Z.mod_mod_divide. exists 60. reflexivity. }
  split; [|split; [|split; [|split; [|split; [|split; [|split]]]]]].
  - rewrite Hmm in Hm. lia.
  - apply Z.div_pos; lia.
  - split; [apply Z.div_pos; lia | apply Z.div_lt_upper_bound; lia].
  - exact H60.
  - intros Hsmall. rewrite Hfmt.
    assert (E0 : diffSec = 0) by (unfold diffSec; apply Z.div_small; lia).
    rewrite E0. reflexivity.
  - unfold formatTimeRemaining.
    destruct (now - expiry <=? 0) eqn:E; [reflexivity | apply Z.leb_gt in E; lia].
  - unfold formatTimeRemaining. rewrite Z.sub_diag. reflexivity.
  - reflexivity.
Qed.

Lemma countdown_splits_the_seconds_left_witness :
  formatTimeRemaining 1000 (Some 3726500) = "1h 2m 5s"%string
  /\ formatTimeRemaining 1000 (Some 1999) = "0h 0m 0s"%string.
Proof.
  split.
  - exact (proj1 (countdown_splits_the_seconds_left 1000 3726500 eq_refl)).
  - destruct (countdown_splits_the_seconds_left 1000 1999 eq_refl)
      as (_ & _ & _ & _ & _ & H & _).
    apply H. reflexivity.
Defined.

End PanelProperties.

Section RewardFacts.
Import Ledger AchievementActions.
Variable default_level : option Z.
Variable default_upgrade_confirmed : option bool.

Lemma next_id_above ids x : List.In x ids -> x < next_id ids.
Proof.
  unfold next_id. induction ids as [|y ids IH]; simpl; [contradiction|].
  intros [->|H]; [lia|]. specialize (IH H). lia.
Qed.

Lemma In_insert_user_powers now u powers : forall fresh r,
  List.In r (insert_user_powers default_level default_upgrade_confirmed now u fresh powers) ->
  fresh <= up_id r /\ up_user_id r = u /\ up_is_active r = true
  /\ up_uses_left r = None /\ up_acquired_at r = now
  /\ up_level r = default_level /\ up_upgrade_confirmed r = default_upgrade_confirmed
  /\ exists sp, List.In sp powers /\ up_power_id r = sp_id sp
       /\ up_expires_at r
          = match sp_duration sp with
            | Some dur => if dur =? 0 then None else Some (now + dur * 1000)
            | None => None
            end.
Proof.
  induction powers as [|p powers IH]; intros fresh r Hr; simpl in Hr; [contradiction|].
  destruct Hr as [<-|Hr].
  - simpl. repeat split; try reflexivity; try lia.
    exists p. repeat split. now left.
  - destruct (IH _ _ Hr) as (H1 & H2 & H3 & H4 & H5 & H6 & H7 & sp & H8 & H9).
    repeat split; try assumption; try lia.
    exists sp. split; [now right | exact H9].
Qed.

Lemma insert_user_powers_power_ids now u powers : forall fresh,
  List.map up_power_id
    (insert_user_powers default_level default_upgrade_confirmed now u fresh powers)
  = List.map sp_id powers.
Proof.
  induction powers as [|p powers IH]; intros fresh; simpl; [reflexivity|].
  now rewrite IH.
Qed.

Lemma In_reward_power_ids v l :
  List.In v (reward_power_ids l) <->
  exists ua a, List.In ua l /\ achievement ua = Some a
               /\ a_reward_value a = Some v /\ Qeq_bool v 0 = false.
Proof.
  unfold reward_power_ids. rewrite List.in_flat_map. split.
  - intros (ua & Hin & Hv).
    destruct (achievement ua) as [a|] eqn:Ea; [|contradiction].
    destruct (a_reward_value a) as [w|] eqn:Ew; [|contradiction].
    destruct (Qeq_bool w 0) eqn:E0; [contradiction|].
    destruct Hv as [<-|[]]. now exists ua, a.
  - intros (ua & a & Hin & Ea & Ew & E0). exists ua. split; [exact Hin|].
    rewrite Ea, Ew, E0. now left.
Qed.

Lemma grants_power_spec ua :
  grants_power ua = true <->
  exists a, achievement ua = Some a /\ a_reward_type a = reward_power
            /\ a_reward_value a <> None.
Proof.
  unfold grants_power. split.
  - destruct (achievement ua) as [a|]; [|discriminate].
    intros H. apply andb_prop in H. destruct H as [H1 H2].
    exists a. split; [reflexivity|]. split.
    + destruct (a_reward_type a); try discriminate. reflexivity.
    + destruct (a_reward_value a); [discriminate | discriminate].
  - intros (a & -> & Ht & Hv). rewrite Ht. simpl.
    destruct (a_reward_value a); [reflexivity | contradiction].
Qed.

End RewardFacts.

Section RewardProperties.
Import Ledger AchievementActions.

(** What unlocking achievements adds to the user's powers.
    [grantSpecialPowersFromAchievements] touches only [user_powers], and
    only by appending rows. Every row it adds belongs to the user, is
    active, has no use count, a fresh id, and stands for a special power
    whose id is the (non-zero) reward value of one of the given
    achievements with reward type power; it expires [duration] seconds
    after now, or never when the power has no duration or duration 0.
    When the store calls succeed, every such special power gets its row:
    the function never looks at the powers the user already holds, so a
    power held before is held twice afterwards. *)
Theorem achievement_rewards_append_power_rows
    (default_level : option Z) (default_upgrade_confirmed : option bool)
    (f : CheckFaults) (now : Z) (d : db) (userId : string)
    (achs : list UserAchievement) :
  let d' := grantSpecialPowersFromAchievements default_level
              default_upgrade_confirmed f now d userId achs in
  achievements d' = achievements d
  /\ user_achievements d' = user_achievements d
  /\ special_powers d' = special_powers d
  /\ exists added,
       user_powers d' = user_powers d ++ added
       /\ (forall r, List.In r added ->
             up_user_id r = userId /\ up_is_active r = true
             /\ up_uses_left r = None /\ up_acquired_at r = now
             /\ ~ List.In (up_id r) (List.map up_id (user_powers d))
             /\ exists sp ua a v,
                  List.In sp (special_powers d) /\ up_power_id r = sp_id sp
                  /\ up_expires_at r
                     = match sp_duration sp with
                       | Some dur => if dur =? 0 then None else Some (now + dur * 1000)
                       | None => None
                       end
                  /\ List.In ua achs /\ achievement ua = Some a
                  /\ a_reward_type a = reward_power
                  /\ a_reward_value a = Some v
                  /\ (inject_Z (sp_id sp) == v)%Q /\ ~ (v == 0)%Q)
       /\ (powersError f = false -> powerInsertError f = false ->
           forall sp ua a v,
             List.In sp (special_powers d) -> List.In ua achs ->
             achievement ua = Some a -> a_reward_type a = reward_power ->
             a_reward_value a = Some v -> (inject_Z (sp_id sp) == v)%Q ->
             ~ (v == 0)%Q ->
             exists r, List.In r added /\ up_power_id r = sp_id sp).
Proof.
  intros d'. unfold d', grantSpecialPowersFromAchievements.
  set (withPowers := List.filter grants_power achs).
  set (powers :=
         List.filter
           (fun p => List.existsb (fun v => Qeq_bool (inject_Z (sp_id p)) v)
                       (reward_power_ids withPowers))
           (special_powers d)).
  assert (Hmatch : forall sp, List.In sp powers <->
            List.In sp (special_powers d)
            /\ exists ua a v, List.In ua achs /\ achievement ua = Some a
                 /\ a_reward_type a = reward_power /\ a_reward_value a = Some v
                 /\ (inject_Z (sp_id sp) == v)%Q /\ ~ (v == 0)%Q).
  { intros sp. unfold powers. rewrite List.filter_In, List.existsb_exists. split.
    - intros (Hin & v & Hv & Heq). split; [exact Hin|].
      apply In_reward_power_ids in Hv. destruct Hv as (ua & a & Hua & Ea & Ev & E0).
      unfold withPowers in Hua. apply List.filter_In in Hua. destruct Hua as [Hua Hg].
      apply grants_power_spec in Hg. destruct Hg as (a' & Ea' & Ht & _).
      assert (a' = a) by congruence. subst a'.
      exists ua, a, v. repeat split; try assumption.
      + apply Qeq_bool_iff. exact Heq.
      + intros H0. apply Qeq_bool_iff in H0. congruence.
    - intros (Hin & ua & a & v & Hua & Ea & Ht & Ev & Heq & H0). split; [exact Hin|].
      exists v. split; [|apply Qeq_bool_iff; exact Heq].
      apply In_reward_power_ids. exists ua, a. repeat split; try assumption.
      + unfold withPowers. apply List.filter_In. split; [exact Hua|].
        apply grants_power_spec. exists a. repeat split; try assumption. congruence.
      + destruct (Qeq_bool v 0) eqn:E; [|reflexivity].
        apply Qeq_bool_iff in E. contradiction. }
  destruct withPowers as [|w ws] eqn:Ew.
  { repeat split. exists []. split; [now rewrite List.app_nil_r|].
    split; [intros r []|].
    intros _ _ sp ua a v Hsp Hua Ea Ht Ev Heq H0.
    assert (Hin : List.In sp powers).
    { apply Hmatch. split; [exact Hsp|]. now exists ua, a, v. }
    unfold powers in Hin. apply List.filter_In in Hin. destruct Hin as [_ Hin].
    simpl in Hin. discriminate. }
  destruct (powersError f) eqn:Ef.
  { repeat split. exists []. split; [now rewrite List.app_nil_r|].
    split; [intros r []|]. intros H. discriminate. }
  destruct powers as [|p ps] eqn:Ep.
  { repeat split. exists []. split; [now rewrite List.app_nil_r|].
    split; [intros r []|].
    intros _ _ sp ua a v Hsp Hua Ea Ht Ev Heq H0.
    assert (Hin : List.In sp []).
    { apply Hmatch. split; [exact Hsp|]. now exists ua, a, v. }
    destruct Hin. }
  destruct (powerInsertError f) eqn:Ei.
  { repeat split. exists []. split; [now rewrite List.app_nil_r|].
    split; [intros r []|]. intros _ H. discriminate. }
  simpl. repeat split.
  exists (insert_user_powers default_level default_upgrade_confirmed now userId
            (next_id (List.map up_id (user_powers d))) (p :: ps)).
  split; [reflexivity|]. split.
  - intros r Hr.
    destruct (In_insert_user_powers _ _ _ _ _ _ _ Hr)
      as (H1 & H2 & H3 & H4 & H5 & _ & _ & sp & H8 & H9 & H10).
    repeat split; try assumption.
    + intros Hin. apply next_id_above in Hin. lia.
    + apply Hmatch in H8. destruct H8 as (Hsp & ua & a & v & Hrest).
      exists sp, ua, a, v. tauto.
  - intros _ _ sp ua a v Hsp Hua Ea Ht Ev Heq H0.
    assert (Hin : List.In sp (p :: ps)).
    { apply Hmatch. split; [exact Hsp|]. now exists ua, a, v. }
    assert (Hid : List.In (sp_id sp)
              (List.map up_power_id
                 (insert_user_powers default_level default_upgrade_confirmed now userId
                    (next_id (List.map up_id (user_powers d))) (p :: ps)))).
    { rewrite insert_user_powers_power_ids. apply List.in_map. exact Hin. }
    apply List.in_map_iff in Hid. destruct Hid as (r & Hr1 & Hr2).
    exists r. split; assumption.
Qed.

End RewardProperties.

Section HistoryFacts.
Import Ledger AchievementActions AchievementQueries.

Lemma insert_by_unlocked_at_perm r l : Permutation (insert_by_unlocked_at r l) (r :: l).
Proof.
  induction l as [|x l IH]; simpl; [reflexivity|].
  destruct (ua_unlocked_at x <=? ua_unlocked_at r); [reflexivity|].
  rewrite IH. apply perm_swap.
Qed.

Lemma latest_first_perm l : Permutation (latest_first l) l.
Proof.
  induction l as [|r l IH]; simpl; [reflexivity|].
  rewrite insert_by_unlocked_at_perm. now constructor.
Qed.

Lemma insert_by_unlocked_at_sorted r l :
  StronglySorted (fun x y => ua_unlocked_at y <= ua_unlocked_at x) l ->
  StronglySorted (fun x y => ua_unlocked_at y <= ua_unlocked_at x)
    (insert_by_unlocked_at r l).
Proof.
  induction l as [|x l IH]; intros Hs; simpl.
  - constructor; constructor.
  - inversion Hs as [|? ? Hs' Hx]; subst.
    destruct (ua_unlocked_at x <=? ua_unlocked_at r) eqn:E.
    + apply Z.leb_le in E. constructor; [exact Hs|].
      constructor; [exact E|].
      eapply List.Forall_impl; [|exact Hx]. simpl. intros y Hy. lia.
    + apply Z.leb_gt in E. constructor; [exact (IH Hs')|].
      apply List.Forall_forall. intros y Hy.
      apply (Permutation_in _ (insert_by_unlocked_at_perm r l)) in Hy.
      destruct Hy as [<-|Hy]; [lia|].
      exact (proj1 (List.Forall_forall _ _) Hx y Hy).
Qed.

Lemma latest_first_sorted l :
  StronglySorted (fun x y => ua_unlocked_at y <= ua_unlocked_at x) (latest_first l).
Proof.
  induction l as [|r l IH]; simpl; [constructor|].
  apply insert_by_unlocked_at_sorted. exact IH.
Qed.

End HistoryFacts.

Section HistoryProperties.
Import Ledger AchievementActions AchievementQueries.

(** The achievement history of a user. [getUserAchievements] returns the
    user's rows of [user_achievements], each exactly once and none of
    another user, latest unlock first, every row joined with its
    achievement from the catalog; the pending notifications are always
    part of that history. A failed query gives an empty history. *)
Theorem history_lists_own_rows_latest_first (d : db) (userId : string) :
  let history := getUserAchievements false d userId in
  Permutation (List.map ua_row history)
    (List.filter (fun r => String.eqb (ua_user_id r) userId) (user_achievements d))
  /\ StronglySorted (fun x y => ua_unlocked_at y <= ua_unlocked_at x)
       (List.map ua_row history)
  /\ (forall g, List.In g history ->
        ua_user_id (ua_row g) = userId /\ g = join_achievement d (ua_row g))
  /\ (forall g, List.In g (getPendingAchievementNotifications false d userId) ->
        List.In g history)
  /\ getUserAchievements true d userId = [].
Proof.
  intros history. unfold history, getUserAchievements.
  set (own := List.filter (fun r => String.eqb (ua_user_id r) userId) (user_achievements d)).
  assert (Hrows : List.map ua_row (List.map (join_achievement d) (latest_first own))
                  = latest_first own).
  { rewrite List.map_map. simpl. apply List.map_id. }
  split; [|split; [|split; [|split]]].
  - rewrite Hrows. apply latest_first_perm.
  - rewrite Hrows. apply latest_first_sorted.
  - intros g Hg. apply List.in_map_iff in Hg. destruct Hg as (r & <- & Hr).
    simpl. split; [|reflexivity].
    apply (Permutation_in _ (latest_first_perm own)) in Hr.
    unfold own in Hr. apply List.filter_In in Hr. destruct Hr as [_ Hr].
    apply String.eqb_eq in Hr. exact Hr.
  - intros g Hg. unfold getPendingAchievementNotifications in Hg.
    apply List.in_map_iff in Hg. destruct Hg as (r & <- & Hr).
    apply List.in_map.
    apply (Permutation_in _ (latest_first_perm _)) in Hr.
    apply List.filter_In in Hr. destruct Hr as [Hin Hr].
    apply andb_prop in Hr. destruct Hr as [Hu _].
    apply (Permutation_in _ (Permutation_sym (latest_first_perm own))).
    unfold own. apply List.filter_In. split; assumption.
  - reflexivity.
Qed.

End HistoryProperties.
